(** * Crossflow printed-circuit heat exchanger: the five-plate unit

    A shallow embedding of [PCHE_5_plate_unit.py] (class [crossflow_PCHE])
    and the properties of its state packer, advective operator, pressure
    updater, flow correlations, mixture coefficients and right-hand side.

    Conventions of the embedding.
    - A Python float is a real number ([R]); the arithmetic is exact, but
      for the pressure update, which is also given over binary64 and over
      the reals rounded after every operation ([Rounded]).  The
      numpy functions are read as their real counterparts: [np.exp] is
      [exp], [np.log] is [ln], [np.sqrt] is [sqrt], [math.tanh] is [tanh],
      [math.pi] is [PI]; [x**n] with an integer literal [n] is [x ^ n] (or
      its inverse for a negative [n]) and [x**y] with any other exponent is
      [Rpower x y].
    - A 2-D numpy array is a list of rows ([grid]).  An element-wise numpy
      expression over arrays of the instance's shape is [elementwise], the
      expression evaluated cell by cell, [g.[r, c]] reading an operand;
      [np.roll], slices, [reshape] and [ravel] are list functions, and
      [a[r, :] = v] and [a[:, c] = v] are [set_row] and [set_col], which
      fail where numpy raises.
    - A Python dict is an association list in insertion order.
    - The array attributes [self.<pass>_<name>] of the five passes are the
      table [arr], read as [arr s <name> <pass>] and written with [set_arr].
    - A quotient whose divisor is zero is the real number that [Rdiv]
      gives it, not an infinity or a NaN; the statements that depend on a
      divisor assume it non-zero.
    - A Python exception is [None]. *)

From Stdlib Require Import Floats.
From Stdlib Require Import Reals Lra Lia ZArith.
From stdpp Require Import list strings.

Set Warnings "-inexact-float".

Open Scope R_scope.

(** ** Arrays *)

Abbreviation grid A := (list (list A)) (only parsing).

Section Arrays.
Context {A : Type}.

(** [a[r, c]] *)
Definition cell (g : grid A) (r c : nat) : option A :=
  row ← g !! r; row !! c.

Definition has_shape (rows cols : nat) (g : grid A) : Prop :=
  length g = rows ∧ Forall (λ row, length row = cols) g.

(** [v[a:b]] on a 1-D array, for [0 <= a], [0 <= b] *)
Definition slice (a b : nat) (v : list A) : list A :=
  take (b - a) (drop a v).

Fixpoint chunks (rows cols : nat) (v : list A) : grid A :=
  match rows with
  | O => []
  | S n => take cols v :: chunks n cols (drop cols v)
  end.

(** [v.reshape(rows, cols)]: a [ValueError] unless the sizes agree *)
Definition reshape (rows cols : nat) (v : list A) : option (grid A) :=
  if decide (length v = (rows * cols)%nat)
  then Some (chunks rows cols v) else None.

(** [a.ravel()] *)
Definition ravel (g : grid A) : list A := concat g.

(** [np.roll(v, shift)] on a 1-D array: [result[i] = v[(i - shift) mod n]] *)
Definition roll_list {B : Type} (shift : Z) (v : list B) : list B :=
  let n := length v in
  let k := Z.to_nat (shift mod Z.of_nat n) in
  drop (n - k) v ++ take (n - k) v.

(** [np.roll(a, shift, axis)] on a 2-D array *)
Definition np_roll (shift : Z) (axis : nat) (g : grid A) : grid A :=
  match axis with
  | O => roll_list shift g
  | _ => map (roll_list shift) g
  end.

(** numpy broadcasting of a 1-D value to length [n] *)
Definition broadcast_to (n : nat) (v : list A) : option (list A) :=
  if decide (length v = n) then Some v
  else match v with
       | [x] => Some (replicate n x)
       | _ => None
       end.

(** [a[r, :]] and [a[:, c]] *)
Definition get_row (r : nat) (g : grid A) : option (list A) := g !! r.
Definition get_col (c : nat) (g : grid A) : option (list A) :=
  mapM (λ row : list A, row !! c) g.

(** [a[r, :] = v]: [IndexError] when the row is out of range,
    [ValueError] when [v] does not broadcast to the row *)
Definition set_row (r : nat) (v : list A) (g : grid A) : option (grid A) :=
  row ← g !! r;
  v' ← broadcast_to (length row) v;
  Some (<[r := v']> g).

(** [a[:, c] = v]: [IndexError] when the column is out of range,
    [ValueError] when [v] does not broadcast to the column *)
Definition set_col (c : nat) (v : list A) (g : grid A) : option (grid A) :=
  v' ← broadcast_to (length g) v;
  if forallb (λ row : list A, bool_decide (c < length row)%nat) g
  then Some (zip_with (λ (row : list A) x, <[c := x]> row) g v')
  else None.

End Arrays.

(** Reading an operand of an element-wise expression: [a[r, c]] and [v[i]]
    (0 outside the bounds, where numpy would have refused the shapes). *)
Definition at_ (g : grid R) (r c : nat) : R := default 0 (cell g r c).
Definition at1 (v : list R) (i : nat) : R := default 0 (v !! i).

Notation "g .[ r , c ]" := (at_ g r c)
  (at level 1, r at level 99, c at level 99, left associativity,
   format "g .[ r ,  c ]").
Notation "v .[ i ]" := (at1 v i)
  (at level 1, i at level 99, left associativity, format "v .[ i ]").

(** An element-wise expression evaluated over a [rows] by [cols] grid. *)
Definition elementwise (rows cols : nat) (f : nat → nat → R) : grid R :=
  map (λ r, map (λ c, f r c) (seq 0 cols)) (seq 0 rows).

(** [np.zeros((rows, cols))] and [np.ones((rows, cols))*x] *)
Definition full (rows cols : nat) (x : R) : grid R :=
  replicate rows (replicate cols x).

(** [np.less_equal(x, y)] and [np.greater(x, y)] as 0/1 factors *)
Definition less_equal (x y : R) : R := if Rle_dec x y then 1 else 0.
Definition greater (x y : R) : R := if Rgt_dec x y then 1 else 0.

(** [np.linspace(start, stop, num)] *)
Definition linspace (start stop : R) (num : nat) : list R :=
  map (λ j, start + INR j * ((stop - start) / INR (num - 1))) (seq 0 num).

Definition sum_list (v : list R) : R := foldr Rplus 0 v.

(** [a.sum()] and [a.mean()] of a 2-D array *)
Definition grid_sum (g : grid R) : R := sum_list (ravel g).
Definition grid_mean (g : grid R) : R :=
  grid_sum g / INR (length (ravel g)).

(** ** The five passes *)

Inductive pass : Set := utility1 | reactant2 | fuel3 | reactant4 | utility5.

(** The stream of a pass, and the axis along which it flows:
    utility passes run along axis 0 (row to row), the reactant and fuel
    passes along axis 1 (column to column). *)
Inductive stream_id : Set := Reactant | Utility | Fuel.

Definition stream_of (p : pass) : stream_id :=
  match p with
  | utility1 | utility5 => Utility
  | reactant2 | reactant4 => Reactant
  | fuel3 => Fuel
  end.

Definition flow_axis (p : pass) : nat :=
  match p with
  | utility1 | utility5 => 0%nat
  | reactant2 | reactant4 | fuel3 => 1%nat
  end.

(** ** Instance data *)

(** A Python dict with string keys, in insertion order. *)
Definition dict (V : Type) : Type := list (string * V).

(** [d[key]]; [None] is the [KeyError] *)
Fixpoint dict_get {V : Type} (d : dict V) (key : string) : option V :=
  match d with
  | [] => None
  | (k0, v) :: d' => if String.eqb k0 key then Some v else dict_get d' key
  end.

(** [[*d]] *)
Definition keys {V : Type} (d : dict V) : list string := map fst d.

(** A stream descriptor [[composition, mass flow, inlet temperature,
    inlet pressure]] (indices 0 to 3 of the Python list). *)
Record stream : Type := Stream {
  composition : dict R;
  mass_flow : R;
  inlet_T : R;
  inlet_P : R
}.

(** The list [dimensions] (indices 0 to 5). *)
Record dims : Type := Dims {
  reactant_diameter : R;
  utility_diameter : R;
  reactant_channels : nat;
  utility_channels : nat;
  wall_thickness : R;
  plate_thickness : R
}.

(** The five coefficients of a heat-capacity polynomial. *)
Inductive coef_index : Set := a1 | a2 | a3 | a4 | a5.

Record coef5 : Type := Coef5 { c_a1 : R; c_a2 : R; c_a3 : R; c_a4 : R; c_a5 : R }.

Definition coef (k : coef_index) (c : coef5) : R :=
  match k with
  | a1 => c_a1 c | a2 => c_a2 c | a3 => c_a3 c | a4 => c_a4 c | a5 => c_a5 c
  end.

(** The dictionaries filled by [import_properties] from the thermo and
    transport files; the files are not part of the sources, so the
    dictionaries are data of the instance.  [Tmin], [dipole] and
    [polarizability] are never read and are left out. *)
Record property_tables : Type := Tables {
  cp_a1_list_high : dict R;
  cp_a2_list_high : dict R;
  cp_a3_list_high : dict R;
  cp_a4_list_high : dict R;
  cp_a5_list_high : dict R;
  cp_a1_list_low : dict R;
  cp_a2_list_low : dict R;
  cp_a3_list_low : dict R;
  cp_a4_list_low : dict R;
  cp_a5_list_low : dict R;
  epsOverKappa_list : dict R;
  sigma_list : dict R;
  rotationalRelaxation : dict R;
  MW_list : dict R;
  shape : dict Z
}.

(** The per-pass array attributes: [self.utility1_T] is [arr s f_T utility1],
    [self.utilityPlate1_T] is [arr s f_plate_T utility1],
    [self.cp_a1_utility1] is [arr s (f_cp_a a1) utility1],
    [self.Q_utility1_fluid] is [arr s f_Q_fluid utility1],
    [self.Q_utilityPlate1] is [arr s f_Q_plate utility1], and so on. *)
Inductive attr : Set :=
  | f_P | f_T | f_plate_T
  | f_cp_a (k : coef_index)
  | f_rho | f_cp | f_mu | f_k
  | f_u | f_Pr | f_Re | f_f | f_Nu | f_h
  | f_Q_fluid | f_Q_plate.

Definition attr_index (a : attr) : nat :=
  match a with
  | f_P => 0 | f_T => 1 | f_plate_T => 2
  | f_cp_a a1 => 3 | f_cp_a a2 => 4 | f_cp_a a3 => 5
  | f_cp_a a4 => 6 | f_cp_a a5 => 7
  | f_rho => 8 | f_cp => 9 | f_mu => 10 | f_k => 11
  | f_u => 12 | f_Pr => 13 | f_Re => 14 | f_f => 15 | f_Nu => 16 | f_h => 17
  | f_Q_fluid => 18 | f_Q_plate => 19
  end%nat.

Definition pass_index (p : pass) : nat :=
  match p with
  | utility1 => 1 | reactant2 => 2 | fuel3 => 3 | reactant4 => 4 | utility5 => 5
  end%nat.

Definition attr_eqb (a b : attr) : bool := Nat.eqb (attr_index a) (attr_index b).
Definition pass_eqb (p q : pass) : bool := Nat.eqb (pass_index p) (pass_index q).

(** The state of an instance of [crossflow_PCHE]: the constructor's
    arguments, the property dictionaries, the per-pass arrays, and the
    mole fractions and mean molecular weights of the three streams
    ([self.reactant_molefrac] is [molefrac s Reactant], [self.reactant_MW]
    is [MW s Reactant]). *)
Record PCHE : Type := Instance {
  reactant : stream;
  utility : stream;
  fuel : stream;
  dimensions : dims;
  tables : property_tables;
  arr : attr → pass → grid R;
  molefrac : stream_id → dict R;
  MW : stream_id → R
}.

(** [self.<pass>_<a> = v] *)
Definition set_arr (a : attr) (p : pass) (v : grid R) (s : PCHE) : PCHE :=
  {| reactant := reactant s; utility := utility s; fuel := fuel s;
     dimensions := dimensions s; tables := tables s;
     arr := λ a' p', if attr_eqb a' a && pass_eqb p' p then v else arr s a' p';
     molefrac := molefrac s; MW := MW s |}.

Definition stream_in (s : PCHE) (i : stream_id) : stream :=
  match i with
  | Reactant => reactant s
  | Utility => utility s
  | Fuel => fuel s
  end.

(** ** Constants and geometry set by [__init__] *)

Definition rows (s : PCHE) : nat := reactant_channels (dimensions s).
Definition columns (s : PCHE) : nat := utility_channels (dimensions s).

Definition reactant_cs (s : PCHE) : R := PI * reactant_diameter (dimensions s) ^ 2 / 8.
Definition utility_cs (s : PCHE) : R := PI * utility_diameter (dimensions s) ^ 2 / 8.
Definition reactant_dh (s : PCHE) : R := PI * reactant_diameter (dimensions s) / (2 + PI).
Definition utility_dh (s : PCHE) : R := PI * utility_diameter (dimensions s) / (2 + PI).
Definition fuel_cs (s : PCHE) : R := reactant_cs s.
Definition fuel_dh (s : PCHE) : R := reactant_dh s.

Definition aspectratio : R := 0.5.

Definition deltax (s : PCHE) : R := utility_diameter (dimensions s) + wall_thickness (dimensions s).
Definition deltay (s : PCHE) : R := plate_thickness (dimensions s).
Definition deltaz (s : PCHE) : R := reactant_diameter (dimensions s) + wall_thickness (dimensions s).

Definition reactant_Vcell (s : PCHE) : R := reactant_cs s * deltax s.
Definition utility_Vcell (s : PCHE) : R := utility_cs s * deltaz s.
Definition reactantPlate_Vcell (s : PCHE) : R :=
  deltax s * deltay s * deltaz s - reactant_Vcell s.
Definition utilityPlate_Vcell (s : PCHE) : R :=
  deltax s * deltay s * deltaz s - utility_Vcell s.
Definition fuel_Vcell (s : PCHE) : R := reactant_Vcell s.
Definition fuelPlate_Vcell (s : PCHE) : R := reactantPlate_Vcell s.

(** The heat-transfer areas, with the source's comments:
    - [hx_area_1]: utility fluid 1 to utility plate 5, utility fluid 5 to
      reactant plate 4;
    - [hx_area_2]: utility plate 1 to utility plate 5, utility plate 5 to
      reactant plate 4;
    - [hx_area_3]: utility fluid 1 to utility plate 1, utility fluid 5 to
      utility plate 5;
    - [hx_area_4]: reactant fluid 2 to utility plate 1, fuel fluid 3 to
      reactant plate 2, reactant fluid 4 to fuel plate 3;
    - [hx_area_5]: reactant plate 2 to utility plate 1, fuel plate 3 to
      reactant plate 2, reactant plate 4 to fuel plate 3;
    - [hx_area_6]: reactant fluid to plate, fuel fluid to plate. *)
Definition hx_area_1 (s : PCHE) : R := utility_diameter (dimensions s) * deltaz s.
Definition hx_area_2 (s : PCHE) : R := deltax s * deltaz s - hx_area_1 s.
Definition hx_area_3 (s : PCHE) : R := PI * utility_diameter (dimensions s) / 2 * deltaz s.
Definition hx_area_4 (s : PCHE) : R := reactant_diameter (dimensions s) * deltax s.
Definition hx_area_5 (s : PCHE) : R := deltax s * deltaz s - hx_area_4 s.
Definition hx_area_6 (s : PCHE) : R := PI * reactant_diameter (dimensions s) / 2 * deltax s.

Definition metalrho : R := 8000.
Definition metalcp : R := 500.
Definition metalk : R := 50.

Definition GC : R := 8.3144626.

Definition reactant_L (s : PCHE) : list R :=
  linspace (deltax s / 2) (deltax s * INR (columns s) + deltax s / 2) (columns s).
Definition utility_L (s : PCHE) : list R :=
  linspace (deltaz s / 2) (deltaz s * INR (rows s) + deltaz s / 2) (rows s).
Definition fuel_L (s : PCHE) : list R := reactant_L s.

Definition C1 : R := 3.24.
Definition C2 : R := 1.
Definition C3 : R := 0.409.
Definition C4 : R := 1.
Definition gamma : R := -0.1.

(** The state built by [__init__]: the pressure fields are uniform at the
    inlet pressures and four of the heat-capacity arrays are zero (the
    fifth is stored under the name [utility_5_cp], which nothing reads);
    the other array attributes do not exist yet and are empty here. *)
Definition init (reactant0 utility0 fuel0 : stream) (dimensions0 : dims)
    (tables0 : property_tables) : PCHE :=
  let r := reactant_channels dimensions0 in
  let c := utility_channels dimensions0 in
  {| reactant := reactant0; utility := utility0; fuel := fuel0;
     dimensions := dimensions0; tables := tables0;
     arr := λ a p,
       match a, p with
       | f_P, (utility1 | utility5) => full r c (inlet_P utility0)
       | f_P, (reactant2 | reactant4) => full r c (inlet_P reactant0)
       | f_P, fuel3 => full r c (inlet_P fuel0)
       | f_cp, (utility1 | reactant2 | fuel3 | reactant4) => full r c 0
       | _, _ => []
       end;
     molefrac := λ _, [];
     MW := λ _, 0 |}.

(** ** State (un)packer *)

(** [unwrap_T]: ten slices of the state vector, each reshaped to the grid. *)
Definition unwrap_T {A : Type} (n_rows n_columns : nat) (Tvector : list A)
  : option (grid A * grid A * grid A * grid A * grid A *
            grid A * grid A * grid A * grid A * grid A) :=
  let rc := (n_rows * n_columns)%nat in
  initial_utility1_Temps ← reshape n_rows n_columns (slice 0 rc Tvector);
  initial_reactant2_Temps ← reshape n_rows n_columns (slice rc (2 * rc) Tvector);
  initial_fuel3_Temps ← reshape n_rows n_columns (slice (2 * rc) (3 * rc) Tvector);
  initial_reactant4_Temps ← reshape n_rows n_columns (slice (3 * rc) (4 * rc) Tvector);
  initial_utility5_Temps ← reshape n_rows n_columns (slice (4 * rc) (5 * rc) Tvector);
  initial_utilityPlate1_Temps ← reshape n_rows n_columns (slice (5 * rc) (6 * rc) Tvector);
  initial_reactantPlate2_Temps ← reshape n_rows n_columns (slice (6 * rc) (7 * rc) Tvector);
  initial_fuelPlate3_Temps ← reshape n_rows n_columns (slice (7 * rc) (8 * rc) Tvector);
  initial_reactantPlate4_Temps ← reshape n_rows n_columns (slice (8 * rc) (9 * rc) Tvector);
  initial_utilityPlate5_Temps ← reshape n_rows n_columns (slice (9 * rc) (10 * rc) Tvector);
  Some (initial_utility1_Temps, initial_reactant2_Temps, initial_fuel3_Temps,
        initial_reactant4_Temps, initial_utility5_Temps,
        initial_utilityPlate1_Temps, initial_reactantPlate2_Temps,
        initial_fuelPlate3_Temps, initial_reactantPlate4_Temps,
        initial_utilityPlate5_Temps).

(** The packing at the end of [transient_solver]:
    [np.concatenate([g1.ravel(), ..., g10.ravel()])]. *)
Definition concatenate_ravel {A : Type}
    (g : grid A * grid A * grid A * grid A * grid A *
         grid A * grid A * grid A * grid A * grid A) : list A :=
  let '(g1, g2, g3, g4, g5, g6, g7, g8, g9, g10) := g in
  ravel g1 ++ ravel g2 ++ ravel g3 ++ ravel g4 ++ ravel g5 ++
  ravel g6 ++ ravel g7 ++ ravel g8 ++ ravel g9 ++ ravel g10.

(** ** Mixture coefficients: [mol_frac_and_cp] *)

(** What the loops of [mol_frac_and_cp] look up for one species of a
    composition: its mass fraction, its molecular weight and its low- and
    high-temperature coefficients. *)
Record species_thermo : Type := SpeciesThermo {
  st_name : string;
  st_w : R;
  st_MW : R;
  st_low : coef5;
  st_high : coef5
}.

Definition thermo_of (tbl : property_tables) (comp : dict R) (sp : string)
  : option species_thermo :=
  w ← dict_get comp sp;
  mw ← dict_get (MW_list tbl) sp;
  l1 ← dict_get (cp_a1_list_low tbl) sp;
  h1 ← dict_get (cp_a1_list_high tbl) sp;
  l2 ← dict_get (cp_a2_list_low tbl) sp;
  h2 ← dict_get (cp_a2_list_high tbl) sp;
  l3 ← dict_get (cp_a3_list_low tbl) sp;
  h3 ← dict_get (cp_a3_list_high tbl) sp;
  l4 ← dict_get (cp_a4_list_low tbl) sp;
  h4 ← dict_get (cp_a4_list_high tbl) sp;
  l5 ← dict_get (cp_a5_list_low tbl) sp;
  h5 ← dict_get (cp_a5_list_high tbl) sp;
  Some (SpeciesThermo sp w mw (Coef5 l1 l2 l3 l4 l5) (Coef5 h1 h2 h3 h4 h5)).

(** [nmol[i] = composition[species[i]]/MW_list[species[i]]] *)
Definition nmol (sp : species_thermo) : R := st_w sp / st_MW sp.

(** The pass whose temperature field is the argument of [np.greater] in
    the accumulation of coefficient [k] of pass [p] (lines 299 to 329): the
    pass itself, except on line 317, where [cp_a1_utility5] reads
    [self.utility1_T]. *)
Definition greater_mask_pass (k : coef_index) (p : pass) : pass :=
  match k, p with
  | a1, utility5 => utility1
  | _, _ => p
  end.

(** One of the 25 accumulations of lines 299 to 329 at one cell,
    [acc = acc + nmol[i]*(low[sp]*np.less_equal(T_low, 1000) +
    high[sp]*np.greater(T_high, 1000))] over the species in order. *)
Definition cp_accumulate (k : coef_index) (species : list species_thermo)
    (T_low T_high : R) : R :=
  foldl (λ acc sp,
           acc + nmol sp * (coef k (st_low sp) * less_equal T_low 1000 +
                            coef k (st_high sp) * greater T_high 1000))
        0 species.

(** [mol_frac_and_cp]: the species of the three compositions are looked
    up, the 25 coefficient arrays are accumulated and divided by the
    stream's [nmol.sum()], and the mole fractions and the mean molecular
    weights are stored. *)
Definition mol_frac_and_cp (s : PCHE) : option PCHE :=
  let lookup i :=
    mapM (thermo_of (tables s) (composition (stream_in s i)))
         (keys (composition (stream_in s i))) in
  reactant_species ← lookup Reactant;
  utility_species ← lookup Utility;
  fuel_species ← lookup Fuel;
  let species i :=
    match i with
    | Reactant => reactant_species
    | Utility => utility_species
    | Fuel => fuel_species
    end in
  let nmol_sum i := sum_list (map nmol (species i)) in
  let cp_a k p :=
    elementwise (rows s) (columns s) (λ r c,
      cp_accumulate k (species (stream_of p))
        (arr s f_T p).[r, c] (arr s f_T (greater_mask_pass k p)).[r, c]
      / nmol_sum (stream_of p)) in
  let molefrac' i :=
    zip (map st_name (species i))
        (map (λ sp, nmol sp / nmol_sum i) (species i)) in
  let MW' i :=
    foldl (λ acc sp, acc + nmol sp / nmol_sum i * st_MW sp) 0 (species i) in
  Some {| reactant := reactant s; utility := utility s; fuel := fuel s;
          dimensions := dimensions s; tables := tables s;
          arr := λ a p, match a with
                        | f_cp_a k => cp_a k p
                        | _ => arr s a p
                        end;
          molefrac := molefrac'; MW := MW' |}.

(** ** Mixture properties: [properties] *)

(** What [properties] looks up for one species. *)
Record species_data : Type := SpeciesData {
  sd_name : string;
  sd_x : R;
  sd_MW : R;
  sd_epsOverKappa : R;
  sd_sigma : R;
  sd_rotationalRelaxation : R;
  sd_shape : Z;
  sd_low : coef5;
  sd_high : coef5
}.

Definition data_of (tbl : property_tables) (molfractions : dict R)
    (sp : string) : option species_data :=
  eps ← dict_get (epsOverKappa_list tbl) sp;
  mw ← dict_get (MW_list tbl) sp;
  sigma ← dict_get (sigma_list tbl) sp;
  l1 ← dict_get (cp_a1_list_low tbl) sp;
  h1 ← dict_get (cp_a1_list_high tbl) sp;
  l2 ← dict_get (cp_a2_list_low tbl) sp;
  h2 ← dict_get (cp_a2_list_high tbl) sp;
  l3 ← dict_get (cp_a3_list_low tbl) sp;
  h3 ← dict_get (cp_a3_list_high tbl) sp;
  l4 ← dict_get (cp_a4_list_low tbl) sp;
  h4 ← dict_get (cp_a4_list_high tbl) sp;
  l5 ← dict_get (cp_a5_list_low tbl) sp;
  h5 ← dict_get (cp_a5_list_high tbl) sp;
  rot ← dict_get (rotationalRelaxation tbl) sp;
  shp ← dict_get (shape tbl) sp;
  x ← dict_get molfractions sp;
  Some (SpeciesData sp x mw eps sigma rot shp
          (Coef5 l1 l2 l3 l4 l5) (Coef5 h1 h2 h3 h4 h5)).

(** [np.equal(shape, n)] as a 0/1 factor *)
Definition equal_Z (x y : Z) : R := if Z.eqb x y then 1 else 0.

(** The first loop over the species, at one cell: [viscosity[:, :, i]]. *)
Definition species_viscosity (sp : species_data) (temperatures : R) : R :=
  let Tstar := temperatures / sd_epsOverKappa sp in
  let omega := 1.16145 / Rpower Tstar 0.14874
               + 0.52487 / exp (0.77320 * Tstar)
               + 2.16178 / exp (2.43787 * Tstar) in
  let viscosity :=
    (2.6693 * (/ 10 ^ 5) * sqrt (sd_MW sp * temperatures)
     / (sd_sigma sp ^ 2 * omega)) * 98.0665 / 1000 in
  if String.eqb (sd_name sp) "H2O"
  then
    let viscCF := (-7.19443 * / 10 ^ 12) * temperatures ^ 3
                  + (1.27546 * / 10 ^ 8) * temperatures ^ 2
                  + (8.69573 * / 10 ^ 5) * temperatures ^ 1
                  + 0.768920462 in
    viscosity * viscCF
  else viscosity.

(** The second loop over the species, at one cell: [ki[:, :, i]]. *)
Definition species_conductivity (sp : species_data)
    (temperatures pressures : R) : R :=
  let viscosity := species_viscosity sp temperatures in
  let Tstar := temperatures / sd_epsOverKappa sp in
  let omega11 := 1.06036 / Rpower Tstar 0.15610
                 + 0.19300 / exp (0.47635 * Tstar)
                 + 1.03587 / exp (1.52996 * Tstar)
                 + 1.76474 / exp (3.89411 * Tstar) in
  let a k := coef k (sd_low sp) * less_equal temperatures 1000
             + coef k (sd_high sp) * greater temperatures 1000 in
  let cpi := a a1 + a a2 * temperatures + a a3 * temperatures ^ 2
             + a a4 * temperatures ^ 3 + a a5 * temperatures ^ 4 in
  let cpi := cpi * GC / sd_MW sp * 1000 in
  let cvi := cpi - GC / sd_MW sp * 1000 in
  let FT := 1 + Rpower PI (3 / 2) / 2
                * Rpower (sd_epsOverKappa sp * 1 / temperatures) (1 / 2)
            + (PI ^ 2 / 4 + 2) * (sd_epsOverKappa sp / temperatures)
            + Rpower PI (3 / 2)
              * Rpower (sd_epsOverKappa sp / temperatures) (3 / 2) in
  let F298 := 1 + Rpower PI (3 / 2) / 2
                  * Rpower (sd_epsOverKappa sp * 1 / 298) (1 / 2)
              + (PI ^ 2 / 4 + 2) * (sd_epsOverKappa sp / 298)
              + Rpower PI (3 / 2)
                * Rpower (sd_epsOverKappa sp / 298) (3 / 2) in
  let ZT := sd_rotationalRelaxation sp * F298 / FT in
  let density := pressures * sd_MW sp / GC / temperatures / 1000 in
  let Dkk := 3 / 16
             * Rpower (2 * PI * (1.38064852 * / 10 ^ 23) ^ 3
                       * temperatures ^ 3 / sd_MW sp * 1000) 0.5
             / (pressures * PI * sd_sigma sp ^ 2 * omega11)
             * 10 ^ 32 in
  let cvitrans := 3 / 2 * GC / sd_MW sp * 1000 in
  let cvirot := equal_Z (sd_shape sp) 0 * 0
                + equal_Z (sd_shape sp) 1 * 1
                + equal_Z (sd_shape sp) 2 * 3 / 2 in
  let cvivib := equal_Z (sd_shape sp) 0 * 0
                + equal_Z (sd_shape sp) 1
                  * (cvi - 5 / 2 * GC / sd_MW sp * 1000)
                + equal_Z (sd_shape sp) 2
                  * (cvi - 3 * GC / sd_MW sp * 1000) in
  let A := 5 / 2 - density * Dkk / viscosity in
  let B := ZT + 2 / PI * (5 / 3 * cvirot + density * Dkk / viscosity) in
  let cvirot := cvirot * GC / sd_MW sp * 1000 in
  let ftrans := 5 / 2 * (1 - 2 / PI * cvirot / cvitrans * A / B) in
  let frot := density * Dkk / viscosity * (1 + 2 / PI * A / B) in
  let fvib := density * Dkk / viscosity in
  viscosity * (ftrans * cvitrans + frot * cvirot + fvib * cvivib).

(** [phi[:, :, nspecies*i + j]] at one cell *)
Definition phi (spi spj : species_data) (temperatures : R) : R :=
  (1 + Rpower (species_viscosity spi temperatures
               / species_viscosity spj temperatures
               * Rpower (sd_MW spj / sd_MW spi) 0.5) 0.5) ^ 2
  / (Rpower 8 0.5 * Rpower (1 + sd_MW spi / sd_MW spj) 0.5).

(** The mixing rules at one cell: [(viscosity_mixture, k_mixture)]. *)
Definition mixing_rules (species : list species_data)
    (temperatures pressures : R) : R * R :=
  let '(viscosity_mixture, denominator_k, k_mixture) :=
    foldl (λ '(viscosity_mixture, denominator_k, k_mixture) spi,
             let denominator :=
               foldl (λ denominator spj,
                        denominator + sd_x spj * phi spi spj temperatures)
                     0 species in
             (viscosity_mixture
              + sd_x spi * species_viscosity spi temperatures / denominator,
              denominator_k
              + sd_x spi / species_conductivity spi temperatures pressures,
              k_mixture
              + 0.5 * (sd_x spi
                       * species_conductivity spi temperatures pressures)))
          (0, 0, 0) species in
  (viscosity_mixture, k_mixture + 0.5 / denominator_k).

(** The stream whose mean molecular weight converts the heat capacity of
    a pass to a mass basis: the pass's own stream, except for [fuel3]
    (line 564), which divides by [self.utility_MW]. *)
Definition cp_MW_stream (fluid : pass) : stream_id :=
  match fluid with
  | fuel3 => Utility
  | _ => stream_of fluid
  end.

(** [properties(fluid)]: stores the density and the heat capacity of the
    pass and returns [(viscosity_mixture, k_mixture)]. *)
Definition properties (fluid : pass) (s : PCHE)
  : option (PCHE * (grid R * grid R)) :=
  let composition := composition (stream_in s (stream_of fluid)) in
  let molfractions := molefrac s (stream_of fluid) in
  let temperatures := arr s f_T fluid in
  let pressures := arr s f_P fluid in
  let rho := elementwise (rows s) (columns s) (λ r c,
    pressures.[r, c] * MW s (stream_of fluid) / GC / temperatures.[r, c] / 1000) in
  let cp := elementwise (rows s) (columns s) (λ r c,
    ((arr s (f_cp_a a1) fluid).[r, c]
     + (arr s (f_cp_a a2) fluid).[r, c] * temperatures.[r, c]
     + (arr s (f_cp_a a3) fluid).[r, c] * temperatures.[r, c] ^ 2
     + (arr s (f_cp_a a4) fluid).[r, c] * temperatures.[r, c] ^ 3
     + (arr s (f_cp_a a5) fluid).[r, c] * temperatures.[r, c] ^ 4)
    * GC / MW s (cp_MW_stream fluid) * 1000) in
  let s := set_arr f_cp fluid cp (set_arr f_rho fluid rho s) in
  species ← mapM (data_of (tables s) molfractions) (keys composition);
  let viscosity_mixture := elementwise (rows s) (columns s) (λ r c,
    fst (mixing_rules species temperatures.[r, c] pressures.[r, c])) in
  let k_mixture := elementwise (rows s) (columns s) (λ r c,
    snd (mixing_rules species temperatures.[r, c] pressures.[r, c])) in
  Some (s, (viscosity_mixture, k_mixture)).

(** ** Flow correlations: [ff_Nu] *)

Definition laminar_f (Lplus reynolds : R) : R :=
  Rpower ((3.44 * Rpower Lplus (-0.5)) ^ 2
          + (12 / (Rpower aspectratio 0.5 * (1 + aspectratio)
                   * (1 - 192 * aspectratio * / PI ^ 5
                          * tanh (PI / (2 * aspectratio))))) ^ 2) 0.5
  / reynolds.

Definition turbulent_f (reynolds : R) : R :=
  / (0.79 * ln reynolds - 1.64) ^ 2 / 4.

Definition nusselt_laminar (Lplus reynolds Pr zstar : R) : R :=
  let m := 2.27 + 1.65 * Rpower Pr (1 / 3) in
  let fPr := 0.564 / Rpower (1 + Rpower (1.664 * Rpower Pr (1 / 6)) (9 / 2)) (2 / 9) in
  Rpower (Rpower (C4 * fPr / Rpower zstar 0.5) m
          + Rpower ((C2 * C3 * Rpower (laminar_f Lplus reynolds * reynolds / zstar) (1 / 3)) ^ 5
                    + (C1 * (laminar_f Lplus reynolds * reynolds
                             / (8 * Rpower PI 0.5 * Rpower aspectratio gamma))) ^ 5)
                   (m / 5))
         (1 / m).

Definition nusselt_turbulent (reynolds Pr : R) : R :=
  (turbulent_f reynolds / 2 * (reynolds - 1000) * Pr)
  / (1 + 12.7 * Rpower (turbulent_f reynolds / 2) 0.5 * (Rpower Pr (2 / 3) - 1)).

(** The mask arithmetic of lines 462 to 472 at one cell. *)
Definition frictionfactor_cell (Lplus reynolds : R) : R :=
  let laminar := less_equal reynolds 2300 in
  let turbulent := greater reynolds 2300 in
  laminar * laminar_f Lplus reynolds + turbulent * turbulent_f reynolds.

Definition nusselt_cell (Lplus reynolds Pr zstar : R) : R :=
  let laminar := less_equal reynolds 2300 in
  let turbulent := greater reynolds 2300 in
  laminar * nusselt_laminar Lplus reynolds Pr zstar
  + turbulent * nusselt_turbulent reynolds Pr.

(** [Lplus] and [zstar] of a pass at one cell (lines 421 to 454).  The
    utility passes place the position along the rows and, as in the source,
    scale it by [reactant_dh]. *)
Definition Lplus_cell (fluid : pass) (s : PCHE) (r c : nat) : R :=
  match fluid with
  | reactant2 | reactant4 =>
      (arr s f_mu fluid).[r, c] * (reactant_L s).[c]
      / (mass_flow (reactant s) / INR (rows s))
  | utility1 | utility5 =>
      (arr s f_mu fluid).[r, c] * (utility_L s).[r]
      / (mass_flow (utility s) / INR (columns s))
  | fuel3 =>
      (arr s f_mu fluid).[r, c] * (fuel_L s).[c]
      / (mass_flow (fuel s) / INR (rows s))
  end.

Definition zstar_cell (fluid : pass) (s : PCHE) (r c : nat) : R :=
  match fluid with
  | reactant2 | reactant4 =>
      (reactant_L s).[c] / reactant_dh s
      / ((arr s f_Re fluid).[r, c] * (arr s f_Pr fluid).[r, c])
  | utility1 | utility5 =>
      (utility_L s).[r] / reactant_dh s
      / ((arr s f_Re fluid).[r, c] * (arr s f_Pr fluid).[r, c])
  | fuel3 =>
      (fuel_L s).[c] / fuel_dh s
      / ((arr s f_Re fluid).[r, c] * (arr s f_Pr fluid).[r, c])
  end.

(** [ff_Nu(fluid)]: [(frictionfactor, nusselt)] *)
Definition ff_Nu (fluid : pass) (s : PCHE) : grid R * grid R :=
  let reynolds := arr s f_Re fluid in
  let Pr := arr s f_Pr fluid in
  (elementwise (rows s) (columns s) (λ r c,
     frictionfactor_cell (Lplus_cell fluid s r c) reynolds.[r, c]),
   elementwise (rows s) (columns s) (λ r c,
     nusselt_cell (Lplus_cell fluid s r c) reynolds.[r, c] Pr.[r, c]
                  (zstar_cell fluid s r c))).

(** ** Conduction within a plate: [intraplate_cond] *)

(** A negative index [-k] into an axis of length [n]. *)
Definition from_end (n k : nat) : option nat :=
  if decide (k ≤ n)%nat then Some (n - k)%nat else None.

(** [a.shape[1]] *)
Definition shape1 {A : Type} (g : grid A) : nat :=
  match g with
  | [] => 0%nat
  | row :: _ => length row
  end.

Definition intraplate_cond (plate : pass) (s : PCHE) : option (grid R) :=
  let temps := arr s f_plate_T plate in
  let offset_x_fwd := np_roll 1 1 temps in
  let offset_x_rev := np_roll (-1) 1 temps in
  let offset_z_fwd := np_roll 1 0 temps in
  let offset_z_rev := np_roll (-1) 0 temps in
  let temp_x_dir := elementwise (rows s) (columns s) (λ r c,
    (offset_x_rev.[r, c] - 2 * temps.[r, c] + offset_x_fwd.[r, c])
    / deltax s ^ 2) in
  let edge (d : R) (a b : list R) : list R :=
    zip_with (λ x y, 2 * (x - y) / d ^ 2) a b in
  last_col ← from_end (shape1 temps) 1;
  before_last_col ← from_end (shape1 temps) 2;
  last_row ← from_end (length temps) 1;
  before_last_row ← from_end (length temps) 2;
  x1 ← get_col 1 temps;
  x0 ← get_col 0 temps;
  temp_x_dir ← set_col 0 (edge (deltax s) x1 x0) temp_x_dir;
  xm2 ← get_col before_last_col temps;
  xm1 ← get_col last_col temps;
  temp_x_dir ← set_col last_col (edge (deltax s) xm2 xm1) temp_x_dir;
  let temp_z_dir := elementwise (rows s) (columns s) (λ r c,
    (offset_z_rev.[r, c] - 2 * temps.[r, c] + offset_z_fwd.[r, c])
    / deltaz s ^ 2) in
  z1 ← get_row 1 temps;
  z0 ← get_row 0 temps;
  temp_z_dir ← set_row 0 (edge (deltaz s) z1 z0) temp_z_dir;
  zm2 ← get_row before_last_row temps;
  zm1 ← get_row last_row temps;
  temp_z_dir ← set_row last_row (edge (deltaz s) zm2 zm1) temp_z_dir;
  Some (elementwise (rows s) (columns s) (λ r c,
    (temp_x_dir.[r, c] + temp_z_dir.[r, c])
    * (metalk / (metalrho * metalcp)))).

(** ** Advection: [advective_transfer] *)

Definition advective_transfer (fluid : pass) (s : PCHE) : option (grid R) :=
  let '(temps, roll_dir, T0) :=
    match fluid with
    | reactant2 => (arr s f_T reactant2, 1%nat, inlet_T (reactant s))
    | reactant4 => (arr s f_T reactant4, 1%nat, inlet_T (reactant s))
    | fuel3 => (arr s f_T fuel3, 1%nat, inlet_T (fuel s))
    | utility1 => (arr s f_T utility1, 0%nat, inlet_T (utility s))
    | utility5 => (arr s f_T utility5, 0%nat, inlet_T (utility s))
    end in
  let offset_T := np_roll 1 roll_dir temps in
  let deltaT := elementwise (rows s) (columns s) (λ r c,
    offset_T.[r, c] - temps.[r, c]) in
  match roll_dir with
  | 0%nat =>
      row0 ← get_row 0 temps;
      set_row 0 (map (λ x, T0 - x) row0) deltaT
  | 1%nat =>
      col0 ← get_col 0 temps;
      set_col 0 (map (λ x, T0 - x) col0) deltaT
  | _ => Some deltaT
  end.

(** ** Pressure update: [update_pressures] *)

(** [for i in l: body], stopping at the first exception *)
Fixpoint for_each {St : Type} (body : nat → St → option St) (l : list nat)
    (s : St) : option St :=
  match l with
  | [] => Some s
  | i :: l' => s' ← body i s; for_each body l' s'
  end.

(** [range(a, b)] *)
Definition range (a b : nat) : list nat := seq a (b - a).

(** The Bernoulli losses [deltaP_<pass>] (lines 834 to 838). *)
Definition deltaP (fluid : pass) (s : PCHE) : grid R :=
  match fluid with
  | utility1 | utility5 =>
      elementwise (rows s) (columns s) (λ r c,
        2 * (arr s f_f fluid).[r, c] * deltaz s / utility_dh s
        * (arr s f_u fluid).[r, c] ^ 2 * (arr s f_rho fluid).[r, c])
  | reactant2 | reactant4 =>
      elementwise (rows s) (columns s) (λ r c,
        2 * (arr s f_f fluid).[r, c] * deltax s / reactant_dh s
        * (arr s f_u fluid).[r, c] ^ 2 * (arr s f_rho fluid).[r, c])
  | fuel3 =>
      elementwise (rows s) (columns s) (λ r c,
        2 * (arr s f_f fluid).[r, c] * deltax s / fuel_dh s
        * (arr s f_u fluid).[r, c] ^ 2 * (arr s f_rho fluid).[r, c])
  end.

(** [self.<fluid>_P[0, :] = inlet - dP[0, :]] and
    [self.<fluid>_P[:, 0] = inlet - dP[:, 0]] *)
Definition inlet_row (fluid : pass) (inlet : R) (dP : grid R) (s : PCHE)
  : option PCHE :=
  d ← get_row 0 dP;
  P' ← set_row 0 (map (λ x, inlet - x) d) (arr s f_P fluid);
  Some (set_arr f_P fluid P' s).

Definition inlet_col (fluid : pass) (inlet : R) (dP : grid R) (s : PCHE)
  : option PCHE :=
  d ← get_col 0 dP;
  P' ← set_col 0 (map (λ x, inlet - x) d) (arr s f_P fluid);
  Some (set_arr f_P fluid P' s).

(** [self.<fluid>_P[:, i] = self.<fluid>_P[:, i-1] - dP[:, i]] and
    [self.<fluid>_P[i, :] = self.<fluid>_P[i-1, :] - dP[i, :]] *)
Definition march_col (fluid : pass) (dP : grid R) (i : nat) (s : PCHE)
  : option PCHE :=
  prev ← get_col (i - 1) (arr s f_P fluid);
  d ← get_col i dP;
  P' ← set_col i (zip_with Rminus prev d) (arr s f_P fluid);
  Some (set_arr f_P fluid P' s).

Definition march_row (fluid : pass) (dP : grid R) (i : nat) (s : PCHE)
  : option PCHE :=
  prev ← get_row (i - 1) (arr s f_P fluid);
  d ← get_row i dP;
  P' ← set_row i (zip_with Rminus prev d) (arr s f_P fluid);
  Some (set_arr f_P fluid P' s).

(** The branch taken while the pressure field is unchanged from its initial
    state (lines 843 to 856). *)
Definition update_pressures_cold (s : PCHE) : option PCHE :=
  let deltaP_utility1 := deltaP utility1 s in
  let deltaP_reactant2 := deltaP reactant2 s in
  let deltaP_fuel3 := deltaP fuel3 s in
  let deltaP_reactant4 := deltaP reactant4 s in
  let deltaP_utility5 := deltaP utility5 s in
  s ← inlet_row utility1 (inlet_P (utility s)) deltaP_utility1 s;
  s ← inlet_col reactant2 (inlet_P (reactant s)) deltaP_reactant2 s;
  s ← inlet_col fuel3 (inlet_P (fuel s)) deltaP_fuel3 s;
  s ← inlet_col reactant4 (inlet_P (reactant s)) deltaP_reactant4 s;
  s ← inlet_row utility5 (inlet_P (utility s)) deltaP_utility5 s;
  s ← for_each (λ i s,
         s ← march_col reactant2 deltaP_reactant2 i s;
         s ← march_col reactant4 deltaP_reactant4 i s;
         march_col fuel3 deltaP_fuel3 i s)
       (range 1 (columns s)) s;
  for_each (λ i s,
      s ← march_row utility1 deltaP_utility1 i s;
      march_row utility5 deltaP_utility5 i s)
    (range 1 (rows s)) s.

(** The branch taken once the pressure drop has been initialized
    (lines 860 to 869): [P = np.roll(P, 1, axis) - dP], then
    [P[:, 0] = inlet - dP[0, :]] for the utility passes and
    [P[0, :] = inlet - dP[:, 0]] for the others, the inlet pressure of
    [fuel3] being [self.reactant[3]]. *)
Definition warm_roll (fluid : pass) (axis : nat) (dP : grid R) (s : PCHE)
  : grid R :=
  let rolled := np_roll 1 axis (arr s f_P fluid) in
  elementwise (rows s) (columns s) (λ r c, rolled.[r, c] - dP.[r, c]).

Definition update_pressures_warm (s : PCHE) : option PCHE :=
  let deltaP_utility1 := deltaP utility1 s in
  let deltaP_reactant2 := deltaP reactant2 s in
  let deltaP_fuel3 := deltaP fuel3 s in
  let deltaP_reactant4 := deltaP reactant4 s in
  let deltaP_utility5 := deltaP utility5 s in
  d ← get_row 0 deltaP_utility1;
  utility1_P ← set_col 0 (map (λ x, inlet_P (utility s) - x) d)
                  (warm_roll utility1 0 deltaP_utility1 s);
  let s := set_arr f_P utility1 utility1_P s in
  d ← get_col 0 deltaP_reactant2;
  reactant2_P ← set_row 0 (map (λ x, inlet_P (reactant s) - x) d)
                   (warm_roll reactant2 1 deltaP_reactant2 s);
  let s := set_arr f_P reactant2 reactant2_P s in
  d ← get_col 0 deltaP_fuel3;
  fuel3_P ← set_row 0 (map (λ x, inlet_P (reactant s) - x) d)
               (warm_roll fuel3 1 deltaP_fuel3 s);
  let s := set_arr f_P fuel3 fuel3_P s in
  d ← get_col 0 deltaP_reactant4;
  reactant4_P ← set_row 0 (map (λ x, inlet_P (reactant s) - x) d)
                   (warm_roll reactant4 1 deltaP_reactant4 s);
  let s := set_arr f_P reactant4 reactant4_P s in
  d ← get_row 0 deltaP_utility5;
  utility5_P ← set_col 0 (map (λ x, inlet_P (utility s) - x) d)
                  (warm_roll utility5 0 deltaP_utility5 s);
  Some (set_arr f_P utility5 utility5_P s).

(** The test of line 842: [self.reactant2_P.mean() == self.reactant2_P[0, 0]] *)
Definition is_cold (s : PCHE) : option bool :=
  p00 ← cell (arr s f_P reactant2) 0 0;
  Some (if Req_dec_T (grid_mean (arr s f_P reactant2)) p00 then true else false).

Definition update_pressures (s : PCHE) : option PCHE :=
  cold ← is_cold s;
  if cold : bool then update_pressures_cold s else update_pressures_warm s.

(** ** The right-hand side: [transient_solver] *)

(** Lines 898 to 900: the ten grids of [unwrap_T] are stored. *)
Definition store_T (T : list R) (s : PCHE) : option PCHE :=
  '(utility1_T, reactant2_T, fuel3_T, reactant4_T, utility5_T,
    utilityPlate1_T, reactantPlate2_T, fuelPlate3_T, reactantPlate4_T,
    utilityPlate5_T) ← unwrap_T (rows s) (columns s) T;
  let s := set_arr f_T utility1 utility1_T s in
  let s := set_arr f_T reactant2 reactant2_T s in
  let s := set_arr f_T fuel3 fuel3_T s in
  let s := set_arr f_T reactant4 reactant4_T s in
  let s := set_arr f_T utility5 utility5_T s in
  let s := set_arr f_plate_T utility1 utilityPlate1_T s in
  let s := set_arr f_plate_T reactant2 reactantPlate2_T s in
  let s := set_arr f_plate_T fuel3 fuelPlate3_T s in
  let s := set_arr f_plate_T reactant4 reactantPlate4_T s in
  let s := set_arr f_plate_T utility5 utilityPlate5_T s in
  Some s.

(** [self.<fluid>_mu, self.<fluid>_k = self.properties('<fluid>')] *)
Definition update_property (fluid : pass) (s : PCHE) : option PCHE :=
  '(s, (mu, k)) ← properties fluid s;
  Some (set_arr f_k fluid k (set_arr f_mu fluid mu s)).

(** Lines 911 to 915. *)
Definition update_properties (s : PCHE) : option PCHE :=
  s ← update_property utility1 s;
  s ← update_property reactant2 s;
  s ← update_property fuel3 s;
  s ← update_property reactant4 s;
  update_property utility5 s.

(** Lines 918 to 922: the bulk velocity in the channels. *)
Definition bulk_velocity_cell (fluid : pass) (s : PCHE) (r c : nat) : R :=
  match fluid with
  | utility1 | utility5 =>
      mass_flow (utility s)
      / ((arr s f_rho fluid).[r, c] * INR (utility_channels (dimensions s))
         * utility_cs s)
  | reactant2 | reactant4 =>
      mass_flow (reactant s)
      / ((arr s f_rho fluid).[r, c] * INR (reactant_channels (dimensions s))
         * reactant_cs s)
  | fuel3 =>
      mass_flow (fuel s)
      / ((arr s f_rho fluid).[r, c] * INR (reactant_channels (dimensions s))
         * fuel_cs s)
  end.

(** [self.<p>_<a> = <expression>] for the five passes, in the order of the
    source (utility1, reactant2, fuel3, reactant4, utility5), each
    expression evaluated on the state reached so far. *)
Definition assign_each (a : attr) (e : pass → PCHE → nat → nat → R)
    (s : PCHE) : PCHE :=
  let assign p s :=
    set_arr a p (elementwise (rows s) (columns s) (e p s)) s in
  assign utility5 (assign reactant4 (assign fuel3
    (assign reactant2 (assign utility1 s)))).

Definition bulk_velocity (s : PCHE) : PCHE :=
  assign_each f_u bulk_velocity_cell s.

(** The hydraulic diameter used for a pass. *)
Definition dh (fluid : pass) (s : PCHE) : R :=
  match fluid with
  | utility1 | utility5 => utility_dh s
  | reactant2 | reactant4 => reactant_dh s
  | fuel3 => fuel_dh s
  end.

(** Lines 925 to 935: Prandtl and Reynolds numbers. *)
Definition Prandtl_Reynolds (s : PCHE) : PCHE :=
  let s := assign_each f_Pr (λ p s r c,
    (arr s f_mu p).[r, c] * (arr s f_cp p).[r, c] / (arr s f_k p).[r, c]) s in
  assign_each f_Re (λ p s r c,
    (arr s f_rho p).[r, c] * (arr s f_u p).[r, c] * dh p s
    / (arr s f_mu p).[r, c]) s.

(** Lines 938 to 942: [self.<p>_f, self.<p>_Nu = self.ff_Nu('<p>')]. *)
Definition update_friction (s : PCHE) : PCHE :=
  let assign p s :=
    let '(frictionfactor, nusselt) := ff_Nu p s in
    set_arr f_Nu p nusselt (set_arr f_f p frictionfactor s) in
  assign utility5 (assign reactant4 (assign fuel3
    (assign reactant2 (assign utility1 s)))).

(** Lines 945 to 949: the convective heat transfer coefficients. *)
Definition convective_coefficients (s : PCHE) : PCHE :=
  assign_each f_h (λ p s r c,
    (arr s f_Nu p).[r, c] * (arr s f_k p).[r, c] / dh p s) s.

(** Lines 955 to 959: heat gained by the fluid of a pass, at one cell. *)
Definition Q_fluid_cell (fluid : pass) (s : PCHE) (r c : nat) : R :=
  let T p := (arr s f_T p).[r, c] in
  let plate_T p := (arr s f_plate_T p).[r, c] in
  let h p := (arr s f_h p).[r, c] in
  match fluid with
  | utility1 =>
      h utility1 * (hx_area_1 s * (plate_T utility5 - T utility1)
                    + hx_area_3 s * (plate_T utility1 - T utility1))
  | reactant2 =>
      h reactant2 * (hx_area_4 s * (plate_T utility1 - T reactant2)
                     + hx_area_6 s * (plate_T reactant2 - T reactant2))
  | fuel3 =>
      h fuel3 * (hx_area_4 s * (plate_T reactant2 - T fuel3)
                 + hx_area_6 s * (plate_T fuel3 - T fuel3))
  | reactant4 =>
      h reactant4 * (hx_area_4 s * (plate_T fuel3 - T reactant4)
                     + hx_area_6 s * (plate_T reactant4 - T reactant4))
  | utility5 =>
      h utility5 * (hx_area_1 s * (plate_T reactant4 - T utility5)
                    + hx_area_5 s * (plate_T utility5 - T utility5))
  end.

(** Lines 961 to 965: heat gained by a plate from the fluids, at one cell. *)
Definition Q_plate_cell (plate : pass) (s : PCHE) (r c : nat) : R :=
  let T p := (arr s f_T p).[r, c] in
  let plate_T p := (arr s f_plate_T p).[r, c] in
  let h p := (arr s f_h p).[r, c] in
  match plate with
  | utility1 =>
      h utility1 * hx_area_3 s * (T utility1 - plate_T utility1)
      + h reactant2 * hx_area_4 s * (T reactant2 - plate_T utility1)
  | reactant2 =>
      h reactant2 * hx_area_6 s * (T reactant2 - plate_T reactant2)
      + h fuel3 * hx_area_4 s * (T fuel3 - plate_T reactant2)
  | fuel3 =>
      h fuel3 * hx_area_6 s * (T fuel3 - plate_T fuel3)
      + h reactant4 * hx_area_4 s * (T reactant4 - plate_T fuel3)
  | reactant4 =>
      h reactant4 * hx_area_6 s * (T reactant4 - plate_T reactant4)
      + h utility5 * hx_area_1 s * (T utility5 - plate_T reactant4)
  | utility5 =>
      h utility5 * hx_area_1 s * (T utility5 - plate_T utility5)
      + h utility1 * hx_area_1 s * (T utility1 - plate_T utility5)
  end.

(** Lines 968 to 972: conduction between plates, at one cell. *)
Definition Q_interplate_cell (plate : pass) (s : PCHE) (r c : nat) : R :=
  let plate_T p := (arr s f_plate_T p).[r, c] in
  match plate with
  | utility1 =>
      metalk * (hx_area_2 s * (plate_T utility5 - plate_T utility1)
                + hx_area_5 s * (plate_T reactant2 - plate_T utility1))
  | reactant2 =>
      metalk * hx_area_5 s
      * (plate_T fuel3 + plate_T utility1 - 2 * plate_T reactant2)
  | fuel3 =>
      metalk * hx_area_5 s
      * (plate_T reactant2 + plate_T reactant4 - 2 * plate_T fuel3)
  | reactant4 =>
      metalk * (hx_area_5 s * (plate_T fuel3 - plate_T reactant4)
                + hx_area_2 s * (plate_T utility5 - plate_T reactant4))
  | utility5 =>
      metalk * (hx_area_5 s
                * (plate_T reactant4 + plate_T utility1 - 2 * plate_T utility5))
  end.

(** Lines 955 to 972. *)
Definition heat_transfer (s : PCHE) : PCHE :=
  let s := assign_each f_Q_fluid Q_fluid_cell s in
  let s := assign_each f_Q_plate Q_plate_cell s in
  assign_each f_Q_plate (λ p s r c,
    (arr s f_Q_plate p).[r, c] + Q_interplate_cell p s r c) s.

(** The unit-cell volumes used for a pass and for its plate. *)
Definition Vcell (fluid : pass) (s : PCHE) : R :=
  match fluid with
  | utility1 | utility5 => utility_Vcell s
  | reactant2 | reactant4 => reactant_Vcell s
  | fuel3 => fuel_Vcell s
  end.

Definition Plate_Vcell (plate : pass) (s : PCHE) : R :=
  match plate with
  | utility1 | utility5 => utilityPlate_Vcell s
  | reactant2 | reactant4 => reactantPlate_Vcell s
  | fuel3 => fuelPlate_Vcell s
  end.

(** The pitch that scales the advective term of a pass. *)
Definition pitch (fluid : pass) (s : PCHE) : R :=
  match fluid with
  | utility1 | utility5 => deltaz s
  | reactant2 | reactant4 | fuel3 => deltax s
  end.

(** Lines 975 to 979 and 989 to 993: the derivative of a fluid field. *)
Definition dTdt_fluid (fluid : pass) (s : PCHE) : option (grid R) :=
  let dTdt := elementwise (rows s) (columns s) (λ r c,
    (arr s f_Q_fluid fluid).[r, c]
    / ((arr s f_rho fluid).[r, c] * Vcell fluid s * (arr s f_cp fluid).[r, c])) in
  advective ← advective_transfer fluid s;
  Some (elementwise (rows s) (columns s) (λ r c,
    dTdt.[r, c] + (arr s f_u fluid).[r, c] * advective.[r, c] / pitch fluid s)).

(** Lines 981 to 985 and 1000 to 1004: the derivative of a plate field. *)
Definition dTdt_plate (plate : pass) (s : PCHE) : option (grid R) :=
  let dTdt := elementwise (rows s) (columns s) (λ r c,
    (arr s f_Q_plate plate).[r, c]
    / (metalrho * Plate_Vcell plate s * metalcp)) in
  conduction ← intraplate_cond plate s;
  Some (elementwise (rows s) (columns s) (λ r c,
    dTdt.[r, c] + conduction.[r, c])).

(** Lines 975 to 1018: the ten derivatives, packed. *)
Definition derivative (s : PCHE) : option (list R) :=
  dTdt_utility1 ← dTdt_fluid utility1 s;
  dTdt_reactant2 ← dTdt_fluid reactant2 s;
  dTdt_fuel3 ← dTdt_fluid fuel3 s;
  dTdt_reactant4 ← dTdt_fluid reactant4 s;
  dTdt_utility5 ← dTdt_fluid utility5 s;
  dTdt_utilityPlate1 ← dTdt_plate utility1 s;
  dTdt_reactantPlate2 ← dTdt_plate reactant2 s;
  dTdt_fuelPlate3 ← dTdt_plate fuel3 s;
  dTdt_reactantPlate4 ← dTdt_plate reactant4 s;
  dTdt_utilityPlate5 ← dTdt_plate utility5 s;
  Some (concatenate_ravel
          (dTdt_utility1, dTdt_reactant2, dTdt_fuel3, dTdt_reactant4,
           dTdt_utility5, dTdt_utilityPlate1, dTdt_reactantPlate2,
           dTdt_fuelPlate3, dTdt_reactantPlate4, dTdt_utilityPlate5)).

(** [transient_solver(t, T)]: the state after the call and the vector
    [dTdt] it returns. *)
Definition transient_solver (s : PCHE) (t : R) (T : list R)
  : option (PCHE * list R) :=
  s ← store_T T s;
  s ← mol_frac_and_cp s;
  s ← update_properties s;
  let s := bulk_velocity s in
  let s := Prandtl_Reynolds s in
  let s := update_friction s in
  let s := convective_coefficients s in
  let s := heat_transfer s in
  dTdt ← derivative s;
  Some (s, dTdt).

(** ** Vocabulary of the statements *)

(** The fixed inlet temperature and inlet pressure of the stream of a pass. *)
Definition inlet_temperature (fluid : pass) (s : PCHE) : R :=
  inlet_T (stream_in s (stream_of fluid)).
Definition inlet_pressure (fluid : pass) (s : PCHE) : R :=
  inlet_P (stream_in s (stream_of fluid)).

(** The inlet edge of a pass (first row for the utility passes, first
    column for the reactant and fuel passes) and the cell upstream of an
    interior cell. *)
Definition on_inlet_edge (fluid : pass) (r c : nat) : bool :=
  match flow_axis fluid with
  | O => Nat.eqb r 0
  | _ => Nat.eqb c 0
  end.

Definition upstream (fluid : pass) (r c : nat) : nat * nat :=
  match flow_axis fluid with
  | O => ((r - 1)%nat, c)
  | _ => (r, (c - 1)%nat)
  end.

(** The solid and fluid entities that exchange heat, and the heat rate
    added to entity [x] for its pair with [y] at one cell: the summand of
    the source expression for [Q_x] (lines 955 to 972) that carries the
    temperature difference with [y]; 0 for entities that are not adjacent.
    [Q_exchange] below states that these summands add up to the source
    expressions. *)
Inductive entity : Set := Fluid (p : pass) | Plate (p : pass).

Definition exchange (s : PCHE) (r c : nat) (x y : entity) : R :=
  let T p := (arr s f_T p).[r, c] in
  let plate_T p := (arr s f_plate_T p).[r, c] in
  let h p := (arr s f_h p).[r, c] in
  match x, y with
  | Fluid utility1, Plate utility5 =>
      h utility1 * (hx_area_1 s * (plate_T utility5 - T utility1))
  | Fluid utility1, Plate utility1 =>
      h utility1 * (hx_area_3 s * (plate_T utility1 - T utility1))
  | Fluid reactant2, Plate utility1 =>
      h reactant2 * (hx_area_4 s * (plate_T utility1 - T reactant2))
  | Fluid reactant2, Plate reactant2 =>
      h reactant2 * (hx_area_6 s * (plate_T reactant2 - T reactant2))
  | Fluid fuel3, Plate reactant2 =>
      h fuel3 * (hx_area_4 s * (plate_T reactant2 - T fuel3))
  | Fluid fuel3, Plate fuel3 =>
      h fuel3 * (hx_area_6 s * (plate_T fuel3 - T fuel3))
  | Fluid reactant4, Plate fuel3 =>
      h reactant4 * (hx_area_4 s * (plate_T fuel3 - T reactant4))
  | Fluid reactant4, Plate reactant4 =>
      h reactant4 * (hx_area_6 s * (plate_T reactant4 - T reactant4))
  | Fluid utility5, Plate reactant4 =>
      h utility5 * (hx_area_1 s * (plate_T reactant4 - T utility5))
  | Fluid utility5, Plate utility5 =>
      h utility5 * (hx_area_5 s * (plate_T utility5 - T utility5))
  | Plate utility1, Fluid utility1 =>
      h utility1 * hx_area_3 s * (T utility1 - plate_T utility1)
  | Plate utility1, Fluid reactant2 =>
      h reactant2 * hx_area_4 s * (T reactant2 - plate_T utility1)
  | Plate reactant2, Fluid reactant2 =>
      h reactant2 * hx_area_6 s * (T reactant2 - plate_T reactant2)
  | Plate reactant2, Fluid fuel3 =>
      h fuel3 * hx_area_4 s * (T fuel3 - plate_T reactant2)
  | Plate fuel3, Fluid fuel3 =>
      h fuel3 * hx_area_6 s * (T fuel3 - plate_T fuel3)
  | Plate fuel3, Fluid reactant4 =>
      h reactant4 * hx_area_4 s * (T reactant4 - plate_T fuel3)
  | Plate reactant4, Fluid reactant4 =>
      h reactant4 * hx_area_6 s * (T reactant4 - plate_T reactant4)
  | Plate reactant4, Fluid utility5 =>
      h utility5 * hx_area_1 s * (T utility5 - plate_T reactant4)
  | Plate utility5, Fluid utility5 =>
      h utility5 * hx_area_1 s * (T utility5 - plate_T utility5)
  | Plate utility5, Fluid utility1 =>
      h utility1 * hx_area_1 s * (T utility1 - plate_T utility5)
  | Plate utility1, Plate utility5 =>
      metalk * (hx_area_2 s * (plate_T utility5 - plate_T utility1))
  | Plate utility1, Plate reactant2 =>
      metalk * (hx_area_5 s * (plate_T reactant2 - plate_T utility1))
  | Plate reactant2, Plate fuel3 =>
      metalk * hx_area_5 s * (plate_T fuel3 - plate_T reactant2)
  | Plate reactant2, Plate utility1 =>
      metalk * hx_area_5 s * (plate_T utility1 - plate_T reactant2)
  | Plate fuel3, Plate reactant2 =>
      metalk * hx_area_5 s * (plate_T reactant2 - plate_T fuel3)
  | Plate fuel3, Plate reactant4 =>
      metalk * hx_area_5 s * (plate_T reactant4 - plate_T fuel3)
  | Plate reactant4, Plate fuel3 =>
      metalk * (hx_area_5 s * (plate_T fuel3 - plate_T reactant4))
  | Plate reactant4, Plate utility5 =>
      metalk * (hx_area_2 s * (plate_T utility5 - plate_T reactant4))
  | Plate utility5, Plate reactant4 =>
      metalk * (hx_area_5 s * (plate_T reactant4 - plate_T utility5))
  | Plate utility5, Plate utility1 =>
      metalk * (hx_area_5 s * (plate_T utility1 - plate_T utility5))
  | _, _ => 0
  end.

(** The sum of a quantity over the five passes. *)
Definition sum_passes (f : pass → R) : R :=
  f utility1 + f reactant2 + f fuel3 + f reactant4 + f utility5.

(** The pairs whose two heat rates are built from one coefficient and one
    area in the source: every adjacent pair that does not involve utility
    plate 5 on one of its three mismatched sides. *)
Definition balanced_pair (x y : entity) : bool :=
  match x, y with
  | Fluid utility5, Plate utility5 | Plate utility5, Fluid utility5
  | Plate utility1, Plate utility5 | Plate utility5, Plate utility1
  | Plate reactant4, Plate utility5 | Plate utility5, Plate reactant4 => false
  | _, _ => true
  end.

(** The calls [transient_solver] can have been through before a state. *)
Inductive after_calls (s : PCHE) : PCHE → Prop :=
  | after_none : after_calls s s
  | after_call s1 s2 t T dTdt :
      after_calls s s1 →
      transient_solver s1 t T = Some (s2, dTdt) →
      after_calls s s2.

(** ** Example instances *)

(** Entries of the property dictionaries for carbon dioxide and methane. *)
Definition example_tables : property_tables :=
  {| cp_a1_list_high := [("CO2"%string, 3.85746029); ("CH4"%string, 7.48514950e-02)];
     cp_a2_list_high := [("CO2"%string, 4.41437026e-03); ("CH4"%string, 1.33909467e-02)];
     cp_a3_list_high := [("CO2"%string, -2.21481404e-06); ("CH4"%string, -5.73285809e-06)];
     cp_a4_list_high := [("CO2"%string, 5.23490188e-10); ("CH4"%string, 1.22292535e-09)];
     cp_a5_list_high := [("CO2"%string, -4.72084164e-14); ("CH4"%string, -1.01815230e-13)];
     cp_a1_list_low := [("CO2"%string, 2.35677352); ("CH4"%string, 5.14987613)];
     cp_a2_list_low := [("CO2"%string, 8.98459677e-03); ("CH4"%string, -1.36709788e-02)];
     cp_a3_list_low := [("CO2"%string, -7.12356269e-06); ("CH4"%string, 4.91800599e-05)];
     cp_a4_list_low := [("CO2"%string, 2.45919022e-09); ("CH4"%string, -4.84743026e-08)];
     cp_a5_list_low := [("CO2"%string, -1.43699548e-13); ("CH4"%string, 1.66693956e-11)];
     epsOverKappa_list := [("CO2"%string, 244); ("CH4"%string, 141.4)];
     sigma_list := [("CO2"%string, 3.763); ("CH4"%string, 3.746)];
     rotationalRelaxation := [("CO2"%string, 2.1); ("CH4"%string, 13)];
     MW_list := [("CO2"%string, 44.01); ("CH4"%string, 16.04)];
     shape := [("CO2"%string, 1%Z); ("CH4"%string, 2%Z)] |}.

(** The streams of the driver at the end of the source file, on a 2 by 2
    grid of channels of the driver's dimensions. *)
Definition example_reactant : stream :=
  Stream [("CO2"%string, 1)] (0.00702 / 5) 900 101325.
Definition example_utility : stream :=
  Stream [("CO2"%string, 1)] 0.005 700 101325.
Definition example_fuel : stream :=
  Stream [("CH4"%string, 1)] 0.0001 500 101325.
Definition example_dims : dims :=
  Dims 0.0015 0.0015 2 2 0.0011 0.0021.

Definition example : PCHE :=
  init example_reactant example_utility example_fuel example_dims
       example_tables.

(** The uniform initial state vector of the driver. *)
Definition example_T : list R :=
  replicate 4 700 ++ replicate 4 900 ++ replicate 4 500 ++ replicate 4 900
  ++ replicate 4 700 ++ replicate 4 700 ++ replicate 4 900
  ++ replicate 4 500 ++ replicate 4 900 ++ replicate 4 700.

(** [s] with the arrays that [f] defines replaced. *)
Definition with_arrays (f : attr → pass → option (grid R)) (s : PCHE) : PCHE :=
  {| reactant := reactant s; utility := utility s; fuel := fuel s;
     dimensions := dimensions s; tables := tables s;
     arr := λ a p, default (arr s a p) (f a p);
     molefrac := molefrac s; MW := MW s |}.

(** An instance with stored temperatures: utility pass 1 above 1000 K,
    the other fields at the inlet temperatures. *)
Definition example_hot : PCHE :=
  with_arrays (λ a p,
    match a, p with
    | f_T, utility1 => Some (full 2 2 1100)
    | f_T, (reactant2 | reactant4) => Some (full 2 2 900)
    | f_T, fuel3 => Some (full 2 2 500)
    | f_T, utility5 => Some (full 2 2 700)
    | _, _ => None
    end) example.

(** An instance before its first pressure update, with unit friction
    factors, velocities and densities. *)
Definition example_flow : PCHE :=
  with_arrays (λ a p,
    match a with
    | f_f | f_u | f_rho => Some (full 2 2 1)
    | _ => None
    end) example.

(** An instance whose pressure fields have been updated before, with a
    fuel stream fed at twice the pressure of the reactant. *)
Definition example_warm : PCHE :=
  with_arrays (λ a p,
    match a with
    | f_P => Some [[101000; 100900]; [100800; 100700]]
    | f_f | f_u | f_rho => Some (full 2 2 1)
    | _ => None
    end)
    (init example_reactant example_utility
          (Stream [("CH4"%string, 1)] 0.0001 500 202650)
          example_dims example_tables).

(** An instance with stored temperatures and unit convective
    coefficients: utility plate 5 is 10 K above the utility fluid of
    pass 5. *)
Definition example_heat : PCHE :=
  with_arrays (λ a p,
    match a, p with
    | f_h, _ => Some (full 2 2 1)
    | f_T, (utility1 | utility5) => Some (full 2 2 700)
    | f_T, (reactant2 | reactant4) => Some (full 2 2 900)
    | f_T, fuel3 => Some (full 2 2 500)
    | f_plate_T, utility1 => Some (full 2 2 700)
    | f_plate_T, (reactant2 | reactant4) => Some (full 2 2 900)
    | f_plate_T, fuel3 => Some (full 2 2 500)
    | f_plate_T, utility5 => Some (full 2 2 710)
    | _, _ => None
    end) example.

(** * Invariants and relations used by the proofs *)

(** The recurrence written by the cold branch, along the columns (reactant
    and fuel passes) and along the rows (utility passes), up to index [k]. *)
Definition col_marched (n : nat) (inlet : R) (dP P : grid R) (k : nat) : Prop :=
  ∀ r c, (r < n)%nat → (c < k)%nat →
    P.[r, c] = match c with
               | O => inlet - dP.[r, 0]
               | S c' => P.[r, c'] - dP.[r, c]
               end.

Definition row_marched (m : nat) (inlet : R) (dP P : grid R) (k : nat) : Prop :=
  ∀ r c, (r < k)%nat → (c < m)%nat →
    P.[r, c] = match r with
               | O => inlet - dP.[0, c]
               | S r' => P.[r', c] - dP.[r, c]
               end.

(** The recurrence of a pass along its own flow direction. *)
Definition marched (s : PCHE) (p : pass) (k : nat) (P : grid R) : Prop :=
  match flow_axis p with
  | O => row_marched (columns s) (inlet_pressure p s) (deltaP p s) P k
  | _ => col_marched (rows s) (inlet_pressure p s) (deltaP p s) P k
  end.

(** A state reached inside the cold branch from [s]: same configuration,
    and every pressure field marched up to its index in [k]. *)
Definition cold_inv (s : PCHE) (k : pass → nat) (s' : PCHE) : Prop :=
  reactant s' = reactant s ∧ utility s' = utility s ∧ fuel s' = fuel s
  ∧ dimensions s' = dimensions s
  ∧ ∀ p, has_shape (rows s) (columns s) (arr s' f_P p)
         ∧ marched s p (k p) (arr s' f_P p).

(** The index reached by each pass: [kc] columns for the reactant and fuel
    passes, [kr] rows for the utility passes. *)
Definition reached (kc kr : nat) (p : pass) : nat :=
  match flow_axis p with O => kr | _ => kc end.

(** The index read by [np.roll(_, 1)] at index [i] of an axis of length [n]. *)
Definition rolled_from (n i : nat) : nat :=
  match i with
  | O => (n - 1)%nat
  | S i' => i'
  end.

(** The third assignment of the heat-transfer block, which adds the
    conduction between plates to the stored heat rate of each plate. *)
Definition add_interplate (p : pass) (s : PCHE) (r c : nat) : R :=
  (arr s f_Q_plate p).[r, c] + Q_interplate_cell p s r c.

(** Two states agree on the configuration, on the arrays selected by [est]
    and, when [mix] is set, on the mole fractions and molecular weights. *)
Definition agree (est : attr → pass → bool) (mix : bool) (s1 s2 : PCHE) : Prop :=
  reactant s1 = reactant s2 ∧ utility s1 = utility s2 ∧ fuel s1 = fuel s2
  ∧ dimensions s1 = dimensions s2 ∧ tables s1 = tables s2
  ∧ (∀ a p, est a p = true → arr s1 a p = arr s2 a p)
  ∧ (mix = true → ∀ i, molefrac s1 i = molefrac s2 i ∧ MW s1 i = MW s2 i).

(** The attributes up to index [n] in the order in which a call writes
    them: the pressures, temperatures, mixture coefficients, properties,
    velocity, Prandtl and Reynolds numbers, friction factor and Nusselt
    number, convective coefficient, heat rates. *)
Definition upto (n : nat) (a : attr) (p : pass) : bool :=
  Nat.leb (attr_index a) n.

Definition is_property (a : attr) : bool :=
  match a with
  | f_rho | f_cp | f_mu | f_k => true
  | _ => false
  end.

(** The property arrays of the passes up to the [k]-th are established. *)
Definition properties_done (k : nat) (est : attr → pass → bool)
    (a : attr) (q : pass) : bool :=
  is_property a && Nat.leb (pass_index q) k || est a q.

Definition is_friction (a : attr) : bool :=
  match a with
  | f_f | f_Nu => true
  | _ => false
  end.

(** The friction arrays of the passes up to the [k]-th are established. *)
Definition friction_done (k : nat) (est : attr → pass → bool)
    (a : attr) (q : pass) : bool :=
  is_friction a && Nat.leb (pass_index q) k || est a q.

(** One assignment [self.<p>_f, self.<p>_Nu = self.ff_Nu('<p>')]. *)
Definition friction_step (p : pass) (s : PCHE) : PCHE :=
  set_arr f_Nu p (ff_Nu p s).2 (set_arr f_f p (ff_Nu p s).1 s).

(** The arrays established after each block of [transient_solver]. *)
Definition est1 (a : attr) (p : pass) : bool :=
  attr_eqb a f_T || attr_eqb a f_plate_T || upto 0 a p.

Definition est2 (a : attr) (p : pass) : bool :=
  match a with f_cp_a _ => true | _ => est1 a p end.

Definition est3 (a : attr) (p : pass) : bool := is_property a || est2 a p.

Definition est4 (a : attr) (p : pass) : bool := attr_eqb a f_u || est3 a p.

Definition est5 (a : attr) (p : pass) : bool :=
  attr_eqb a f_Re || (attr_eqb a f_Pr || est4 a p).

Definition est6 (a : attr) (p : pass) : bool := is_friction a || est5 a p.

Definition est7 (a : attr) (p : pass) : bool := attr_eqb a f_h || est6 a p.

Definition est8 (a : attr) (p : pass) : bool :=
  attr_eqb a f_Q_plate || (attr_eqb a f_Q_fluid || est7 a p).

(** * The remaining entry points *)

(** [self.reactant = reactant], [self.fuel = fuel], [self.utility = utility] *)
Definition set_reactant (reactant0 : stream) (s : PCHE) : PCHE :=
  {| reactant := reactant0; utility := utility s; fuel := fuel s;
     dimensions := dimensions s; tables := tables s; arr := arr s;
     molefrac := molefrac s; MW := MW s |}.

Definition set_fuel (fuel0 : stream) (s : PCHE) : PCHE :=
  {| reactant := reactant s; utility := utility s; fuel := fuel0;
     dimensions := dimensions s; tables := tables s; arr := arr s;
     molefrac := molefrac s; MW := MW s |}.

Definition set_utility (utility0 : stream) (s : PCHE) : PCHE :=
  {| reactant := reactant s; utility := utility0; fuel := fuel s;
     dimensions := dimensions s; tables := tables s; arr := arr s;
     molefrac := molefrac s; MW := MW s |}.

(** [update_reactant], [update_fuel] and [update_utility] (lines 242 to
    257): the descriptor is replaced and [mol_frac_and_cp] is run.  The
    temperature fields that [mol_frac_and_cp] reads exist once
    [transient_solver] has stored them. *)
Definition update_reactant (reactant0 : stream) (s : PCHE) : option PCHE :=
  mol_frac_and_cp (set_reactant reactant0 s).

Definition update_fuel (fuel0 : stream) (s : PCHE) : option PCHE :=
  mol_frac_and_cp (set_fuel fuel0 s).

Definition update_utility (utility0 : stream) (s : PCHE) : option PCHE :=
  mol_frac_and_cp (set_utility utility0 s).

(** [steady_solver(initialTemps)] (lines 1022 to 1026) *)
Definition steady_solver (s : PCHE) (initialTemps : list R)
  : option (PCHE * list R) :=
  transient_solver s 0 initialTemps.

(** The module-level [convert_T_vector(T_vector, dims)] (lines 1031 to
    1044), which reads the grid shape from [dims[2]] and [dims[3]]. *)
Definition convert_T_vector {A : Type} (T_vector : list A) (dims0 : dims)
  : option (grid A * grid A * grid A * grid A * grid A *
            grid A * grid A * grid A * grid A * grid A) :=
  let d2 := reactant_channels dims0 in
  let d3 := utility_channels dims0 in
  utility1Temps ← reshape d2 d3 (slice 0 (d2 * d3) T_vector);
  reactant2Temps ← reshape d2 d3 (slice (d2 * d3) (2 * d2 * d3) T_vector);
  fuel3Temps ← reshape d2 d3 (slice (2 * d2 * d3) (3 * d2 * d3) T_vector);
  reactant4Temps ← reshape d2 d3 (slice (3 * d2 * d3) (4 * d2 * d3) T_vector);
  utility5Temps ← reshape d2 d3 (slice (4 * d2 * d3) (5 * d2 * d3) T_vector);
  utilityPlate1 ← reshape d2 d3 (slice (5 * d2 * d3) (6 * d2 * d3) T_vector);
  reactantPlate2 ← reshape d2 d3 (slice (6 * d2 * d3) (7 * d2 * d3) T_vector);
  fuelPlate3 ← reshape d2 d3 (slice (7 * d2 * d3) (8 * d2 * d3) T_vector);
  reactantPlate4 ← reshape d2 d3 (slice (8 * d2 * d3) (9 * d2 * d3) T_vector);
  utilityPlate5 ← reshape d2 d3 (slice (9 * d2 * d3) (10 * d2 * d3) T_vector);
  Some (utility1Temps, reactant2Temps, fuel3Temps, reactant4Temps,
        utility5Temps, utilityPlate1, reactantPlate2, fuelPlate3,
        reactantPlate4, utilityPlate5).

(** * Notions used by the statements about whole calls *)

(** The ten grids of a packed state, in order. *)
Definition grids {A : Type}
    (g : grid A * grid A * grid A * grid A * grid A *
         grid A * grid A * grid A * grid A * grid A) : list (grid A) :=
  let '(g1, g2, g3, g4, g5, g6, g7, g8, g9, g10) := g in
  [g1; g2; g3; g4; g5; g6; g7; g8; g9; g10].

(** The temperature fields of the fluids and of the plates exist and have
    the shape of the instance. *)
Definition T_shaped (s : PCHE) : Prop :=
  ∀ p, has_shape (rows s) (columns s) (arr s f_T p)
       ∧ has_shape (rows s) (columns s) (arr s f_plate_T p).

(** A species has an entry in every property dictionary. *)
Definition tabulated (tbl : property_tables) (sp : string) : Prop :=
  Forall (λ d : dict R, is_Some (dict_get d sp))
    [MW_list tbl;
     cp_a1_list_low tbl; cp_a1_list_high tbl;
     cp_a2_list_low tbl; cp_a2_list_high tbl;
     cp_a3_list_low tbl; cp_a3_list_high tbl;
     cp_a4_list_low tbl; cp_a4_list_high tbl;
     cp_a5_list_low tbl; cp_a5_list_high tbl;
     epsOverKappa_list tbl; sigma_list tbl; rotationalRelaxation tbl]
  ∧ is_Some (dict_get (shape tbl) sp).

(** Every species of the three compositions is tabulated. *)
Definition species_tabulated (s : PCHE) : Prop :=
  ∀ i sp, sp ∈ keys (composition (stream_in s i)) → tabulated (tables s) sp.

(** The second difference that [intraplate_cond] leaves along one axis of
    length [n] with pitch [d]: the three-point stencil inside, and twice the
    one-sided difference at the two ends. *)
Definition second_difference (d : R) (n : nat) (T : nat → R) (i : nat) : R :=
  if decide (i = 0)%nat then 2 * (T 1%nat - T 0%nat) / d ^ 2
  else if decide (i = n - 1)%nat
       then 2 * (T (n - 2)%nat - T (n - 1)%nat) / d ^ 2
       else (T (i + 1)%nat - 2 * T i + T (i - 1)%nat) / d ^ 2.

(** ** More example instances *)

(** An instance with a single row of channels and stored, uniform
    temperatures. *)
Definition example_single_row : PCHE :=
  with_arrays (λ a p,
    match a with
    | f_T | f_plate_T => Some (full 1 2 700)
    | _ => None
    end)
    (init example_reactant example_utility example_fuel
          (Dims 0.0015 0.0015 1 2 0.0011 0.0021) example_tables).

(** Everything but the pressure fields is the same in two states. *)
Definition same_but_pressures (s s' : PCHE) : Prop :=
  reactant s' = reactant s ∧ utility s' = utility s ∧ fuel s' = fuel s
  ∧ dimensions s' = dimensions s ∧ tables s' = tables s
  ∧ molefrac s' = molefrac s ∧ MW s' = MW s
  ∧ ∀ a p, a ≠ f_P → arr s' a p = arr s a p.

(** A 2 by 3 instance whose pressure fields have been updated before. *)
Definition example_oblong : PCHE :=
  with_arrays (λ a p,
    match a with
    | f_P => Some [[101000; 100900; 100800]; [100700; 100600; 100500]]
    | f_f | f_u | f_rho => Some (full 2 3 1)
    | _ => None
    end)
    (init example_reactant example_utility example_fuel
          (Dims 0.0015 0.0015 2 3 0.0011 0.0021) example_tables).

(** The property dictionaries that [mol_frac_and_cp] reads. *)
Definition thermo_tables (tbl : property_tables) : list (dict R) :=
  [MW_list tbl;
   cp_a1_list_low tbl; cp_a1_list_high tbl;
   cp_a2_list_low tbl; cp_a2_list_high tbl;
   cp_a3_list_low tbl; cp_a3_list_high tbl;
   cp_a4_list_low tbl; cp_a4_list_high tbl;
   cp_a5_list_low tbl; cp_a5_list_high tbl].

(** A utility stream with a species that has no entry in the tables. *)
Definition example_untabulated : PCHE :=
  init example_reactant (Stream [("XE"%string, 1)] 0.005 700 101325)
       example_fuel example_dims example_tables.

(** * The pressure update in rounded arithmetic

    numpy evaluates lines 834 to 856 in binary64: every sum, product,
    quotient and difference is rounded to a representable number.  The model
    above reads the arithmetic over the reals, which is what the statements
    about shapes, indices and the flow of data rest on.  Whether a loss
    lowers a pressure is decided by the rounding: [P - dP] is [P] again when
    [dP] is below half a unit in the last place of [P].  This part gives
    [update_pressures] over an arithmetic that is a parameter, and two
    arithmetics: binary64 itself, and the reals with a rounding after every
    operation. *)

Module Rounded.

(** The operations that [update_pressures] and the part of [__init__] it
    depends on apply to numbers: [of_nat] reads an integer literal or a
    count, [pi] is [math.pi], [eqb] is [==]. *)
Record arithmetic (A : Type) : Type := Arithmetic {
  of_nat : nat → A;
  pi : A;
  add : A → A → A;
  sub : A → A → A;
  mul : A → A → A;
  div : A → A → A;
  eqb : A → A → bool
}.
Arguments of_nat {A} _ _.
Arguments pi {A} _.
Arguments add {A} _ _ _.
Arguments sub {A} _ _ _.
Arguments mul {A} _ _ _.
Arguments div {A} _ _ _.
Arguments eqb {A} _ _ _.

(** binary64 with rounding to nearest, ties to even: the [float] of Python
    and the [float64] of numpy.  [math.pi] is the binary64 number nearest
    to the constant. *)
Definition binary64 : arithmetic PrimFloat.float :=
  {| of_nat := λ n, PrimFloat.of_uint63 (Uint63.of_Z (Z.of_nat n));
     pi := 3.141592653589793%float;
     add := PrimFloat.add;
     sub := PrimFloat.sub;
     mul := PrimFloat.mul;
     div := PrimFloat.div;
     eqb := PrimFloat.eqb |}.

(** The reals with the rounding [rnd] applied to the result of every
    operation; representable numbers are the fixed points of [rnd].  The
    results are real numbers, so overflow to an infinity and the
    not-a-number are outside this arithmetic. *)
Definition rounded (rnd : R → R) : arithmetic R :=
  {| of_nat := λ n, rnd (INR n);
     pi := rnd PI;
     add := λ x y, rnd (x + y);
     sub := λ x y, rnd (x - y);
     mul := λ x y, rnd (x * y);
     div := λ x y, rnd (x / y);
     eqb := λ x y, if Req_dec_T x y then true else false |}.

(** What [update_pressures] reads and writes of an instance: the grid
    shape, the pitches and hydraulic diameters set by [__init__], the inlet
    pressures [self.reactant[3]], [self.utility[3]] and [self.fuel[3]], the
    friction factors, velocities and densities [self.<pass>_f],
    [self.<pass>_u] and [self.<pass>_rho] stored by the last call of
    [transient_solver], and the pressure fields [self.<pass>_P]. *)
Record state (A : Type) : Type := State {
  rows : nat;
  columns : nat;
  deltax : A;
  deltaz : A;
  reactant_dh : A;
  utility_dh : A;
  fuel_dh : A;
  reactant_3 : A;
  utility_3 : A;
  fuel_3 : A;
  f_of : pass → grid A;
  u_of : pass → grid A;
  rho_of : pass → grid A;
  P_of : pass → grid A
}.
Arguments State {A}.
Arguments rows {A} _.
Arguments columns {A} _.
Arguments deltax {A} _.
Arguments deltaz {A} _.
Arguments reactant_dh {A} _.
Arguments utility_dh {A} _.
Arguments fuel_dh {A} _.
Arguments reactant_3 {A} _.
Arguments utility_3 {A} _.
Arguments fuel_3 {A} _.
Arguments f_of {A} _ _.
Arguments u_of {A} _ _.
Arguments rho_of {A} _ _.
Arguments P_of {A} _ _.

(** [self.<fluid>_P = v] *)
Definition set_P {A : Type} (fluid : pass) (v : grid A) (s : state A)
  : state A :=
  {| rows := rows s; columns := columns s;
     deltax := deltax s; deltaz := deltaz s;
     reactant_dh := reactant_dh s; utility_dh := utility_dh s;
     fuel_dh := fuel_dh s;
     reactant_3 := reactant_3 s; utility_3 := utility_3 s;
     fuel_3 := fuel_3 s;
     f_of := f_of s; u_of := u_of s; rho_of := rho_of s;
     P_of := λ q, if pass_eqb q fluid then v else P_of s q |}.

(** The friction factors, velocities and densities replaced. *)
Definition with_flow {A : Type} (f u rho : pass → grid A) (s : state A)
  : state A :=
  {| rows := rows s; columns := columns s;
     deltax := deltax s; deltaz := deltaz s;
     reactant_dh := reactant_dh s; utility_dh := utility_dh s;
     fuel_dh := fuel_dh s;
     reactant_3 := reactant_3 s; utility_3 := utility_3 s;
     fuel_3 := fuel_3 s;
     f_of := f; u_of := u; rho_of := rho;
     P_of := P_of s |}.

(** [np.ones((n, m))*x] for a number [x] already multiplied *)
Definition full {A : Type} (n m : nat) (x : A) : grid A :=
  replicate n (replicate m x).

(** The inlet pressure of the stream of a pass. *)
Definition inlet_pressure {A : Type} (fluid : pass) (s : state A) : A :=
  match stream_of fluid with
  | Reactant => reactant_3 s
  | Utility => utility_3 s
  | Fuel => fuel_3 s
  end.

Section Update.
Context {A : Type}.
Variable N : arithmetic A.

Declare Scope num_scope.
Delimit Scope num_scope with num.
#[local] Infix "+" := (add N) : num_scope.
#[local] Infix "-" := (sub N) : num_scope.
#[local] Infix "*" := (mul N) : num_scope.
#[local] Infix "/" := (div N) : num_scope.

(** The part of [__init__] that [update_pressures] depends on (lines 79,
    80, 85, 86, 89, 95, 97 and 108 to 112), for the inlet pressures
    [reactant[3]], [utility[3]], [fuel[3]] and for
    [dimensions = [d0, d1, n, m, d4, _]].  The friction factors, velocities
    and densities do not exist yet and are empty here. *)
Definition init (reactant3 utility3 fuel3_ : A) (d0 d1 : A) (n m : nat)
    (d4 : A) : state A :=
  {| rows := n; columns := m;
     deltax := (d1 + d4)%num;
     deltaz := (d0 + d4)%num;
     reactant_dh := (pi N * d0 / (of_nat N 2 + pi N))%num;
     utility_dh := (pi N * d1 / (of_nat N 2 + pi N))%num;
     fuel_dh := (pi N * d0 / (of_nat N 2 + pi N))%num;
     reactant_3 := reactant3; utility_3 := utility3; fuel_3 := fuel3_;
     f_of := λ _, []; u_of := λ _, []; rho_of := λ _, [];
     P_of := λ p,
       match p with
       | utility1 | utility5 => full n m (of_nat N 1 * utility3)%num
       | reactant2 | reactant4 => full n m (of_nat N 1 * reactant3)%num
       | fuel3 => full n m (of_nat N 1 * fuel3_)%num
       end |}.

(** Reading an operand of an element-wise expression: [a[r, c]] (0 outside
    the bounds, where numpy would have refused the shapes). *)
Definition at_ (g : grid A) (r c : nat) : A :=
  default (of_nat N 0) (cell g r c).

(** An element-wise expression evaluated over an [n] by [m] grid. *)
Definition elementwise (n m : nat) (e : nat → nat → A) : grid A :=
  map (λ r, map (λ c, e r c) (seq 0 m)) (seq 0 n).

(** The Bernoulli losses [deltaP_<pass>] (lines 834 to 838).  Python
    evaluates [2*f*d/dh*u**2*rho] from the left, and numpy squares with one
    product. *)
Definition deltaP (fluid : pass) (s : state A) : grid A :=
  match fluid with
  | utility1 | utility5 =>
      elementwise (rows s) (columns s) (λ r c,
        (of_nat N 2 * at_ (f_of s fluid) r c * deltaz s / utility_dh s
         * (at_ (u_of s fluid) r c * at_ (u_of s fluid) r c)
         * at_ (rho_of s fluid) r c)%num)
  | reactant2 | reactant4 =>
      elementwise (rows s) (columns s) (λ r c,
        (of_nat N 2 * at_ (f_of s fluid) r c * deltax s / reactant_dh s
         * (at_ (u_of s fluid) r c * at_ (u_of s fluid) r c)
         * at_ (rho_of s fluid) r c)%num)
  | fuel3 =>
      elementwise (rows s) (columns s) (λ r c,
        (of_nat N 2 * at_ (f_of s fluid) r c * deltax s / fuel_dh s
         * (at_ (u_of s fluid) r c * at_ (u_of s fluid) r c)
         * at_ (rho_of s fluid) r c)%num)
  end.

(** [self.<fluid>_P[0, :] = inlet - dP[0, :]] and
    [self.<fluid>_P[:, 0] = inlet - dP[:, 0]] *)
Definition inlet_row (fluid : pass) (inlet : A) (dP : grid A) (s : state A)
  : option (state A) :=
  d ← get_row 0 dP;
  P' ← set_row 0 (map (λ x, inlet - x)%num d) (P_of s fluid);
  Some (set_P fluid P' s).

Definition inlet_col (fluid : pass) (inlet : A) (dP : grid A) (s : state A)
  : option (state A) :=
  d ← get_col 0 dP;
  P' ← set_col 0 (map (λ x, inlet - x)%num d) (P_of s fluid);
  Some (set_P fluid P' s).

(** [self.<fluid>_P[:, i] = self.<fluid>_P[:, i-1] - dP[:, i]] and
    [self.<fluid>_P[i, :] = self.<fluid>_P[i-1, :] - dP[i, :]] *)
Definition march_col (fluid : pass) (dP : grid A) (i : nat) (s : state A)
  : option (state A) :=
  prev ← get_col (i - 1) (P_of s fluid);
  d ← get_col i dP;
  P' ← set_col i (zip_with (sub N) prev d) (P_of s fluid);
  Some (set_P fluid P' s).

Definition march_row (fluid : pass) (dP : grid A) (i : nat) (s : state A)
  : option (state A) :=
  prev ← get_row (i - 1) (P_of s fluid);
  d ← get_row i dP;
  P' ← set_row i (zip_with (sub N) prev d) (P_of s fluid);
  Some (set_P fluid P' s).

(** The branch taken while the pressure field is unchanged from its initial
    state (lines 843 to 856). *)
Definition update_pressures_cold (s : state A) : option (state A) :=
  let deltaP_utility1 := deltaP utility1 s in
  let deltaP_reactant2 := deltaP reactant2 s in
  let deltaP_fuel3 := deltaP fuel3 s in
  let deltaP_reactant4 := deltaP reactant4 s in
  let deltaP_utility5 := deltaP utility5 s in
  s ← inlet_row utility1 (utility_3 s) deltaP_utility1 s;
  s ← inlet_col reactant2 (reactant_3 s) deltaP_reactant2 s;
  s ← inlet_col fuel3 (fuel_3 s) deltaP_fuel3 s;
  s ← inlet_col reactant4 (reactant_3 s) deltaP_reactant4 s;
  s ← inlet_row utility5 (utility_3 s) deltaP_utility5 s;
  s ← for_each (λ i s,
         s ← march_col reactant2 deltaP_reactant2 i s;
         s ← march_col reactant4 deltaP_reactant4 i s;
         march_col fuel3 deltaP_fuel3 i s)
       (range 1 (columns s)) s;
  for_each (λ i s,
      s ← march_row utility1 deltaP_utility1 i s;
      march_row utility5 deltaP_utility5 i s)
    (range 1 (rows s)) s.

(** The branch taken once the pressure drop has been initialized
    (lines 860 to 869). *)
Definition warm_roll (fluid : pass) (axis : nat) (dP : grid A) (s : state A)
  : grid A :=
  let rolled := np_roll 1 axis (P_of s fluid) in
  elementwise (rows s) (columns s) (λ r c,
    (at_ rolled r c - at_ dP r c)%num).

Definition update_pressures_warm (s : state A) : option (state A) :=
  let deltaP_utility1 := deltaP utility1 s in
  let deltaP_reactant2 := deltaP reactant2 s in
  let deltaP_fuel3 := deltaP fuel3 s in
  let deltaP_reactant4 := deltaP reactant4 s in
  let deltaP_utility5 := deltaP utility5 s in
  d ← get_row 0 deltaP_utility1;
  utility1_P ← set_col 0 (map (λ x, utility_3 s - x)%num d)
                  (warm_roll utility1 0 deltaP_utility1 s);
  let s := set_P utility1 utility1_P s in
  d ← get_col 0 deltaP_reactant2;
  reactant2_P ← set_row 0 (map (λ x, reactant_3 s - x)%num d)
                   (warm_roll reactant2 1 deltaP_reactant2 s);
  let s := set_P reactant2 reactant2_P s in
  d ← get_col 0 deltaP_fuel3;
  fuel3_P ← set_row 0 (map (λ x, reactant_3 s - x)%num d)
               (warm_roll fuel3 1 deltaP_fuel3 s);
  let s := set_P fuel3 fuel3_P s in
  d ← get_col 0 deltaP_reactant4;
  reactant4_P ← set_row 0 (map (λ x, reactant_3 s - x)%num d)
                   (warm_roll reactant4 1 deltaP_reactant4 s);
  let s := set_P reactant4 reactant4_P s in
  d ← get_row 0 deltaP_utility5;
  utility5_P ← set_col 0 (map (λ x, utility_3 s - x)%num d)
                  (warm_roll utility5 0 deltaP_utility5 s);
  Some (set_P utility5 utility5_P s).

(** [a.mean()]: the sum of the elements divided by their count.  numpy adds
    the elements of an array of fewer than eight elements from left to
    right, starting from zero, and the elements of a longer one in blocks. *)
Definition mean (g : grid A) : A :=
  (foldl (add N) (of_nat N 0) (ravel g) / of_nat N (length (ravel g)))%num.

(** The test of line 842: [self.reactant2_P.mean() == self.reactant2_P[0, 0]] *)
Definition is_cold (s : state A) : option bool :=
  p00 ← cell (P_of s reactant2) 0 0;
  Some (eqb N (mean (P_of s reactant2)) p00).

Definition update_pressures (s : state A) : option (state A) :=
  cold ← is_cold s;
  if cold : bool then update_pressures_cold s else update_pressures_warm s.

(** The recurrence written by the cold branch, along the columns (reactant
    and fuel passes) and along the rows (utility passes), up to index [k]. *)
Definition col_marched (n : nat) (inlet : A) (dP P : grid A) (k : nat)
  : Prop :=
  ∀ r c, (r < n)%nat → (c < k)%nat →
    at_ P r c = match c with
                | O => (inlet - at_ dP r 0)%num
                | S c' => (at_ P r c' - at_ dP r c)%num
                end.

Definition row_marched (m : nat) (inlet : A) (dP P : grid A) (k : nat)
  : Prop :=
  ∀ r c, (r < k)%nat → (c < m)%nat →
    at_ P r c = match r with
                | O => (inlet - at_ dP 0 c)%num
                | S r' => (at_ P r' c - at_ dP r c)%num
                end.

(** The recurrence of a pass along its own flow direction. *)
Definition marched (s : state A) (p : pass) (k : nat) (P : grid A) : Prop :=
  match flow_axis p with
  | O => row_marched (columns s) (inlet_pressure p s) (deltaP p s) P k
  | _ => col_marched (rows s) (inlet_pressure p s) (deltaP p s) P k
  end.

(** A state reached inside the cold branch from [s]: same configuration,
    and every pressure field marched up to its index in [k]. *)
Definition cold_inv (s : state A) (k : pass → nat) (s' : state A) : Prop :=
  rows s' = rows s ∧ columns s' = columns s
  ∧ reactant_3 s' = reactant_3 s ∧ utility_3 s' = utility_3 s
  ∧ fuel_3 s' = fuel_3 s
  ∧ ∀ p, has_shape (rows s) (columns s) (P_of s' p)
         ∧ marched s p (k p) (P_of s' p).

End Update.

End Rounded.

(** An instance of the driver's dimensions on a 2 by 2 grid of channels,
    fed at the driver's inlet pressure, before its first pressure update:
    a creeping flow with a friction factor of 0.05, a velocity of 1e-6 m/s
    and a density of 1 kg/m3 at every cell.  The decimal literals are read
    as Python reads them, as the nearest binary64 numbers. *)
Definition example_creeping : Rounded.state PrimFloat.float :=
  Rounded.with_flow
    (λ _, Rounded.full 2 2 0.05%float)
    (λ _, Rounded.full 2 2 1e-6%float)
    (λ _, Rounded.full 2 2 1%float)
    (Rounded.init Rounded.binary64 101325%float 101325%float 101325%float
       0.0015%float 0.0015%float 2 2 0.0011%float).

(** The same instance with a friction factor of 1e308 and a velocity of
    1e-200 m/s at every cell: [2*f] is beyond the largest binary64 number
    and [u**2] below the smallest. *)
Definition example_overflow : Rounded.state PrimFloat.float :=
  Rounded.with_flow
    (λ _, Rounded.full 2 2 1e308%float)
    (λ _, Rounded.full 2 2 1e-200%float)
    (λ _, Rounded.full 2 2 1%float)
    (Rounded.init Rounded.binary64 101325%float 101325%float 101325%float
       0.0015%float 0.0015%float 2 2 0.0011%float).

(** Rounding to the nearest integer, halves upwards: a fixed-point
    arithmetic with a resolution of one pascal. *)
Definition round_unit (x : R) : R := IZR (up (x - / 2)).

(** An instance in the arithmetic rounded by [round_unit] before its first
    pressure update, fed at 101325 Pa: the loss is [2 / 8] in the reactant
    and fuel passes, which rounds to 0, and [6 / 4] in the utility passes,
    which rounds to 2. *)
Definition example_coarse : Rounded.state R :=
  {| Rounded.rows := 2; Rounded.columns := 2;
     Rounded.deltax := 1; Rounded.deltaz := 3;
     Rounded.reactant_dh := 8; Rounded.utility_dh := 4;
     Rounded.fuel_dh := 8;
     Rounded.reactant_3 := 101325; Rounded.utility_3 := 101325;
     Rounded.fuel_3 := 101325;
     Rounded.f_of := λ _, full 2 2 1;
     Rounded.u_of := λ _, full 2 2 1;
     Rounded.rho_of := λ _, full 2 2 1;
     Rounded.P_of := λ _, full 2 2 101325 |}.

(** ** The model above as the exact instance *)

(** The arithmetic in which nothing is rounded. *)
Definition exact : Rounded.arithmetic R := Rounded.rounded (λ x, x).

(** The part of an instance that [update_pressures] reads and writes. *)
Definition flow_of (s : PCHE) : Rounded.state R :=
  {| Rounded.rows := rows s; Rounded.columns := columns s;
     Rounded.deltax := deltax s; Rounded.deltaz := deltaz s;
     Rounded.reactant_dh := reactant_dh s;
     Rounded.utility_dh := utility_dh s;
     Rounded.fuel_dh := fuel_dh s;
     Rounded.reactant_3 := inlet_P (reactant s);
     Rounded.utility_3 := inlet_P (utility s);
     Rounded.fuel_3 := inlet_P (fuel s);
     Rounded.f_of := arr s f_f;
     Rounded.u_of := arr s f_u;
     Rounded.rho_of := arr s f_rho;
     Rounded.P_of := arr s f_P |}.

(** Two states hold the same numbers and the same fields. *)
Definition same_flow (t t' : Rounded.state R) : Prop :=
  Rounded.rows t = Rounded.rows t'
  ∧ Rounded.columns t = Rounded.columns t'
  ∧ Rounded.deltax t = Rounded.deltax t'
  ∧ Rounded.deltaz t = Rounded.deltaz t'
  ∧ Rounded.reactant_dh t = Rounded.reactant_dh t'
  ∧ Rounded.utility_dh t = Rounded.utility_dh t'
  ∧ Rounded.fuel_dh t = Rounded.fuel_dh t'
  ∧ Rounded.reactant_3 t = Rounded.reactant_3 t'
  ∧ Rounded.utility_3 t = Rounded.utility_3 t'
  ∧ Rounded.fuel_3 t = Rounded.fuel_3 t'
  ∧ ∀ p, Rounded.f_of t p = Rounded.f_of t' p
         ∧ Rounded.u_of t p = Rounded.u_of t' p
         ∧ Rounded.rho_of t p = Rounded.rho_of t' p
         ∧ Rounded.P_of t p = Rounded.P_of t' p.

(** Two calls raise together, or return states that hold the same fields. *)
Definition same_outcome (ot : option (Rounded.state R)) (os : option PCHE)
  : Prop :=
  match ot, os with
  | Some t, Some s => same_flow t (flow_of s)
  | None, None => True
  | _, _ => False
  end.

(** * Properties *)

(** ** Arrays *)

Section ArrayFacts.
Context {A : Type}.
Implicit Types (v : list A) (g : grid A).

Lemma length_slice a b v :
  (b ≤ length v)%nat → length (slice a b v) = (b - a)%nat.
Proof. intros Hb. unfold slice. rewrite length_take, length_drop. lia. Qed.

Lemma ravel_chunks n_rows n_cols v :
  length v = (n_rows * n_cols)%nat → ravel (chunks n_rows n_cols v) = v.
Proof.
  unfold ravel. revert v.
  induction n_rows as [|n IH]; intros v Hlen; simpl in *.
  - by destruct v.
  - rewrite IH; [apply take_drop|]. rewrite length_drop. lia.
Qed.

Lemma chunks_shape n_rows n_cols v :
  length v = (n_rows * n_cols)%nat →
  has_shape n_rows n_cols (chunks n_rows n_cols v).
Proof.
  unfold has_shape. revert v.
  induction n_rows as [|n IH]; intros v Hlen; simpl in *.
  - split; [done | constructor].
  - destruct (IH (drop n_cols v)) as [IH1 IH2];
      [rewrite length_drop; lia|].
    split; [by rewrite IH1|].
    constructor; [rewrite length_take; lia | done].
Qed.

Lemma reshape_Some n_rows n_cols v :
  length v = (n_rows * n_cols)%nat →
  reshape n_rows n_cols v = Some (chunks n_rows n_cols v).
Proof. intros Hlen. unfold reshape. by rewrite decide_True. Qed.

Lemma reshape_inv n_rows n_cols v g :
  reshape n_rows n_cols v = Some g →
  length v = (n_rows * n_cols)%nat ∧ g = chunks n_rows n_cols v.
Proof. unfold reshape. case_decide; naive_solver. Qed.

(** A slice followed by the rest of the vector. *)
Lemma slice_app_drop a b v :
  (a ≤ b)%nat → slice a b v ++ drop b v = drop a v.
Proof.
  intros Hab. unfold slice.
  replace b with (a + (b - a))%nat at 2 by lia.
  by rewrite <- drop_drop, take_drop.
Qed.
End ArrayFacts.

(** ** State (un)packer *)

(** C4 (round trip).  For every grid shape and every vector [v] of length
    [10 * rows * columns], [unwrap_T] returns ten grids, in the order
    utility1, reactant2, fuel3, reactant4, utility5 and then the five plates
    in the same order, and concatenating their ravels in that order gives
    back [v], element for element. *)
Theorem unwrap_T_roundtrip {A : Type} (n_rows n_columns : nat) (v : list A) :
  length v = (10 * n_rows * n_columns)%nat →
  ∃ g, unwrap_T n_rows n_columns v = Some g ∧ concatenate_ravel g = v.
Proof.
  intros Hlen. unfold unwrap_T.
  set (rc := (n_rows * n_columns)%nat).
  assert (Hs : ∀ a b, (b - a = rc)%nat → (b ≤ length v)%nat →
    reshape n_rows n_columns (slice a b v)
    = Some (chunks n_rows n_columns (slice a b v))).
  { intros a b Hab Hb. apply reshape_Some. rewrite length_slice; lia. }
  assert (Hr : ∀ a b, (b - a = rc)%nat → (b ≤ length v)%nat →
    ravel (chunks n_rows n_columns (slice a b v)) = slice a b v).
  { intros a b Hab Hb. apply ravel_chunks. rewrite length_slice; lia. }
  assert (Hv : length v = (10 * rc)%nat) by (subst rc; lia).
  rewrite !Hs by lia. cbn [mbind option_bind].
  eexists; split; [reflexivity|].
  unfold concatenate_ravel. rewrite !Hr by lia.
  rewrite <- (app_nil_r (slice (9 * rc) (10 * rc) v)).
  rewrite <- (drop_ge v (10 * rc)) at 1 by lia.
  rewrite !slice_app_drop by lia. apply drop_0.
Qed.

Lemma unwrap_T_roundtrip_witness :
  ∃ g, unwrap_T 1 2 (seq 0 20) = Some g ∧ concatenate_ravel g = seq 0 20.
Proof. apply (unwrap_T_roundtrip 1 2 (seq 0 20)). reflexivity. Defined.

(** ** Rolled vectors *)

Section RollFacts.
Context {B : Type}.
Implicit Types (v : list B).

(** [np.roll(v, 1)]: every element but the first is its predecessor. *)
Lemma roll_list_1 v :
  roll_list 1 v = drop (length v - 1) v ++ take (length v - 1) v.
Proof.
  unfold roll_list.
  destruct (decide (length v = 1)%nat) as [H1|H1].
  - rewrite H1. simpl. destruct v as [|x [|y v]]; simplify_eq/=. done.
  - destruct (decide (length v = 0)%nat) as [H0|H0].
    + destruct v; simplify_eq/=. done.
    + rewrite Z.mod_small by lia. done.
Qed.

Lemma lookup_roll_list_1 v i :
  (S i < length v)%nat → roll_list 1 v !! S i = v !! i.
Proof.
  intros Hi. rewrite roll_list_1.
  rewrite lookup_app_r; rewrite length_drop; [|lia].
  replace (S i - (length v - (length v - 1)))%nat with i by lia.
  apply lookup_take_lt. lia.
Qed.

Lemma length_roll_list k v : length (roll_list k v) = length v.
Proof.
  unfold roll_list. rewrite length_app, length_drop, length_take. lia.
Qed.
End RollFacts.

(** ** Cells of grids *)

Section CellFacts.
Context {A : Type}.
Implicit Types (v : list A) (g : grid A).

Lemma has_shape_row n m g r row :
  has_shape n m g → g !! r = Some row → length row = m.
Proof. intros [_ Hf] Hr. by eapply (Forall_lookup_1 _ _ _ _ Hf Hr). Qed.

Lemma has_shape_lookup n m g r :
  has_shape n m g → (r < n)%nat → ∃ row, g !! r = Some row ∧ length row = m.
Proof.
  intros Hs Hr. destruct (lookup_lt_is_Some_2 g r) as [row Hrow];
    [destruct Hs; lia|].
  exists row; split; [done | by eapply has_shape_row].
Qed.

Lemma cell_is_Some n m g r c :
  has_shape n m g → (r < n)%nat → (c < m)%nat → is_Some (cell g r c).
Proof.
  intros Hs Hr Hc.
  destruct (has_shape_lookup n m g r Hs Hr) as (row & Hrow & Hl).
  unfold cell. rewrite Hrow. simpl.
  apply lookup_lt_is_Some_2. lia.
Qed.

Lemma cell_row g r c row :
  g !! r = Some row → cell g r c = row !! c.
Proof. intros Hrow. unfold cell. by rewrite Hrow. Qed.

Lemma cell_roll_axis0 g r c :
  (S r < length g)%nat → cell (np_roll 1 0 g) (S r) c = cell g r c.
Proof.
  intros Hr. change (np_roll 1 0 g) with (roll_list 1 g).
  unfold cell. by rewrite lookup_roll_list_1.
Qed.

Lemma cell_roll_axis1 n m g r c :
  has_shape n m g → (S c < m)%nat →
  cell (np_roll 1 1 g) r (S c) = cell g r c.
Proof.
  intros Hs Hc. change (np_roll 1 1 g) with (map (roll_list 1) g).
  unfold cell. rewrite list_lookup_fmap.
  destruct (g !! r) as [row|] eqn:Hrow; simpl; [|done].
  apply lookup_roll_list_1. by rewrite (has_shape_row n m g r row).
Qed.

(** Slice assignments. *)
Lemma broadcast_to_same n v : length v = n → broadcast_to n v = Some v.
Proof. intros H. unfold broadcast_to. by rewrite decide_True. Qed.

Lemma set_row_Some n m g r v :
  has_shape n m g → (r < n)%nat → length v = m →
  set_row r v g = Some (<[r := v]> g).
Proof.
  intros Hs Hr Hv.
  destruct (has_shape_lookup n m g r Hs Hr) as (row & Hrow & Hl).
  unfold set_row. rewrite Hrow. simpl.
  rewrite broadcast_to_same by lia. done.
Qed.

Lemma cell_insert_row g r v r' c :
  (r < length g)%nat →
  cell (<[r := v]> g) r' c = if decide (r' = r) then v !! c else cell g r' c.
Proof.
  intros Hr. unfold cell. case_decide as Heq.
  - subst. by rewrite list_lookup_insert_eq.
  - by rewrite list_lookup_insert_ne.
Qed.

Lemma forallb_columns n m g c :
  has_shape n m g → (c < m)%nat →
  forallb (λ row : list A, bool_decide (c < length row)%nat) g = true.
Proof.
  intros [_ Hf] Hc. apply forallb_forall. intros row Hin.
  apply bool_decide_eq_true.
  rewrite Forall_forall in Hf. rewrite (Hf row); [done|].
  by apply list_elem_of_In.
Qed.

Lemma set_col_Some n m g c v :
  has_shape n m g → (c < m)%nat → length v = n →
  set_col c v g = Some (zip_with (λ (row : list A) x, <[c := x]> row) g v).
Proof.
  intros Hs Hc Hv. unfold set_col.
  rewrite broadcast_to_same by (destruct Hs; lia). simpl.
  by rewrite (forallb_columns n m).
Qed.

Lemma cell_set_col n m g c v r c' :
  has_shape n m g → (c < m)%nat → length v = n → (r < n)%nat →
  cell (zip_with (λ (row : list A) x, <[c := x]> row) g v) r c'
  = if decide (c' = c) then v !! r else cell g r c'.
Proof.
  intros Hs Hc Hv Hr.
  destruct (has_shape_lookup n m g r Hs Hr) as (row & Hrow & Hl).
  destruct (lookup_lt_is_Some_2 v r) as [x Hx]; [lia|].
  unfold cell. rewrite lookup_zip_with, Hrow, Hx. simpl.
  case_decide as Heq.
  - subst. apply list_lookup_insert_eq. lia.
  - by apply list_lookup_insert_ne.
Qed.

Lemma get_col_Some n m g c :
  has_shape n m g → (c < m)%nat →
  ∃ col, get_col c g = Some col ∧ length col = n
         ∧ ∀ r, (r < n)%nat → col !! r = cell g r c.
Proof.
  intros Hs Hc. unfold get_col.
  destruct (mapM (λ row : list A, row !! c) g) as [col|] eqn:Hm.
  - exists col. apply mapM_Some_1 in Hm.
    split; [done|]. split.
    + apply Forall2_length in Hm. destruct Hs. lia.
    + intros r Hr.
      destruct (has_shape_lookup n m g r Hs Hr) as (row & Hrow & Hl).
      destruct (Forall2_lookup_l _ _ _ _ _ Hm Hrow) as (x & Hx & Hrx).
      unfold cell. rewrite Hrow. simpl. by rewrite Hx, Hrx.
  - exfalso. apply mapM_None_1 in Hm.
    apply Exists_exists in Hm as (row & Hin & Hnone).
    apply list_elem_of_lookup in Hin as [r Hrow].
    pose proof (has_shape_row n m g r row Hs Hrow) as Hl.
    apply lookup_ge_None in Hnone. lia.
Qed.
End CellFacts.

(** Element-wise expressions. *)
Lemma elementwise_shape n m f : has_shape n m (elementwise n m f).
Proof.
  unfold has_shape, elementwise. split.
  - by rewrite length_map, length_seq.
  - apply Forall_forall. intros row Hin.
    apply list_elem_of_fmap in Hin as (r & -> & _).
    by rewrite length_map, length_seq.
Qed.

Lemma elementwise_ext n m f g :
  (∀ r c, f r c = g r c) → elementwise n m f = elementwise n m g.
Proof.
  intros H. unfold elementwise.
  apply map_ext. intros r. apply map_ext. intros c. apply H.
Qed.

Lemma length_elementwise n m f : length (elementwise n m f) = n.
Proof. apply elementwise_shape. Qed.

Lemma cell_elementwise n m f r c :
  (r < n)%nat → (c < m)%nat → cell (elementwise n m f) r c = Some (f r c).
Proof.
  intros Hr Hc. unfold cell, elementwise.
  rewrite list_lookup_fmap, lookup_seq_lt by done. simpl.
  by rewrite list_lookup_fmap, lookup_seq_lt.
Qed.

Lemma at_elementwise n m f r c :
  (r < n)%nat → (c < m)%nat → (elementwise n m f).[r, c] = f r c.
Proof. intros Hr Hc. unfold at_. by rewrite cell_elementwise. Qed.

Lemma at_cell g r c x : cell g r c = Some x → g.[r, c] = x.
Proof. intros H. unfold at_. by rewrite H. Qed.

(** ** Advective transfer *)

Lemma advective_axis0 n m (temps : grid R) T0 :
  has_shape n m temps → (0 < n)%nat → (0 < m)%nat →
  ∃ deltaT,
    (row0 ← get_row 0 temps;
     set_row 0 (map (λ x, T0 - x) row0)
       (elementwise n m (λ r c, (np_roll 1 0 temps).[r, c] - temps.[r, c])))
    = Some deltaT
    ∧ has_shape n m deltaT
    ∧ ∀ r c, (r < n)%nat → (c < m)%nat →
        cell deltaT r c
        = Some (match r with
                | O => T0 - temps.[r, c]
                | S r' => temps.[r', c] - temps.[r, c]
                end).
Proof.
  intros Hs Hn Hm.
  destruct (has_shape_lookup n m temps 0 Hs Hn) as (row0 & Hrow0 & Hl0).
  unfold get_row. rewrite Hrow0. cbn [mbind option_bind].
  rewrite (set_row_Some n m) by
    (by rewrite ?length_map; auto using elementwise_shape).
  eexists; split; [reflexivity|]. split.
  - split.
    + rewrite length_insert. apply elementwise_shape.
    + apply Forall_insert; [apply elementwise_shape|].
      by rewrite length_map.
  - intros r c Hr Hc.
    rewrite cell_insert_row by (by rewrite length_elementwise).
    destruct r as [|r']; [rewrite decide_True by done
                         | rewrite decide_False by done].
    + rewrite list_lookup_fmap.
      destruct (lookup_lt_is_Some_2 row0 c) as [x Hx]; [lia|].
      rewrite Hx. simpl. f_equal. f_equal. symmetry. apply at_cell.
      by rewrite (cell_row temps 0 c row0).
    + rewrite cell_elementwise by done. f_equal. f_equal.
      unfold at_. rewrite cell_roll_axis0; [done|]. destruct Hs. lia.
Qed.

Lemma advective_axis1 n m (temps : grid R) T0 :
  has_shape n m temps → (0 < n)%nat → (0 < m)%nat →
  ∃ deltaT,
    (col0 ← get_col 0 temps;
     set_col 0 (map (λ x, T0 - x) col0)
       (elementwise n m (λ r c, (np_roll 1 1 temps).[r, c] - temps.[r, c])))
    = Some deltaT
    ∧ has_shape n m deltaT
    ∧ ∀ r c, (r < n)%nat → (c < m)%nat →
        cell deltaT r c
        = Some (match c with
                | O => T0 - temps.[r, c]
                | S c' => temps.[r, c'] - temps.[r, c]
                end).
Proof.
  intros Hs Hn Hm.
  destruct (get_col_Some n m temps 0 Hs Hm) as (col0 & Hcol0 & Hl0 & Hc0).
  rewrite Hcol0. cbn [mbind option_bind].
  rewrite (set_col_Some n m) by
    (by rewrite ?length_map; auto using elementwise_shape).
  eexists; split; [reflexivity|]. split.
  - split.
    + rewrite length_zip_with, length_map, length_elementwise. lia.
    + apply Forall_forall. intros row Hin.
      apply list_elem_of_lookup in Hin as [r Hrow].
      rewrite lookup_zip_with in Hrow.
      apply bind_Some in Hrow as (row' & Hrow' & Hrow).
      apply bind_Some in Hrow as (x & Hx & Hrow). simplify_eq.
      rewrite length_insert.
      by eapply has_shape_row; [apply elementwise_shape|].
  - intros r c Hr Hc.
    rewrite (cell_set_col n m)
      by (by rewrite ?length_map; auto using elementwise_shape).
    destruct c as [|c']; [rewrite decide_True by done
                         | rewrite decide_False by done].
    + rewrite list_lookup_fmap, Hc0 by done.
      destruct (cell_is_Some n m temps r 0 Hs Hr Hm) as [x Hx].
      rewrite Hx. simpl. f_equal. f_equal. symmetry. by apply at_cell.
    + rewrite cell_elementwise by done. f_equal. f_equal.
      unfold at_. by rewrite (cell_roll_axis1 n m).
Qed.

(** The grid returned by [advective_transfer], cell by cell. *)
Lemma advective_transfer_cells (fluid : pass) (s : PCHE) :
  has_shape (rows s) (columns s) (arr s f_T fluid) →
  (0 < rows s)%nat → (0 < columns s)%nat →
  ∃ deltaT,
    advective_transfer fluid s = Some deltaT
    ∧ has_shape (rows s) (columns s) deltaT
    ∧ (∀ r c, (r < rows s)%nat → (c < columns s)%nat →
         cell deltaT r c
         = Some (if on_inlet_edge fluid r c
                 then inlet_temperature fluid s - (arr s f_T fluid).[r, c]
                 else (arr s f_T fluid).[(upstream fluid r c).1,
                                         (upstream fluid r c).2]
                      - (arr s f_T fluid).[r, c])).
Proof.
  intros Hs Hn Hm.
  destruct fluid; unfold advective_transfer;
    cbn [on_inlet_edge upstream flow_axis inlet_temperature stream_of
         stream_in fst snd].
  1, 5: destruct (advective_axis0 _ _ _ (inlet_T (utility s)) Hs Hn Hm)
          as (deltaT & Hd & Hsh & Hc);
        exists deltaT; split; [exact Hd|]; split; [exact Hsh|];
        intros r c Hr Hcc; rewrite (Hc r c Hr Hcc);
        destruct r; simpl; by rewrite ?Nat.sub_0_r.
  1, 3: destruct (advective_axis1 _ _ _ (inlet_T (reactant s)) Hs Hn Hm)
          as (deltaT & Hd & Hsh & Hc);
        exists deltaT; split; [exact Hd|]; split; [exact Hsh|];
        intros r c Hr Hcc; rewrite (Hc r c Hr Hcc);
        destruct c; simpl; by rewrite ?Nat.sub_0_r.
  destruct (advective_axis1 _ _ _ (inlet_T (fuel s)) Hs Hn Hm)
    as (deltaT & Hd & Hsh & Hc).
  exists deltaT; split; [exact Hd|]; split; [exact Hsh|].
  intros r c Hr Hcc; rewrite (Hc r c Hr Hcc).
  destruct c; simpl; by rewrite ?Nat.sub_0_r.
Qed.

(** C8 (advective operator).  For every fluid pass whose temperature grid
    has the shape of the instance, [advective_transfer] returns a grid of
    that shape which holds, at each interior cell, the temperature of the
    upstream cell (the row before for the utility passes, the column before
    for the reactant and fuel passes) minus the local temperature and, on
    the inlet row or column, the inlet temperature of the stream minus the
    local temperature; hence a uniform grid at the inlet temperature gives
    zero at every cell, the boundary included. *)
Theorem advective_transfer_spec (fluid : pass) (s : PCHE) :
  has_shape (rows s) (columns s) (arr s f_T fluid) →
  (0 < rows s)%nat → (0 < columns s)%nat →
  ∃ deltaT,
    advective_transfer fluid s = Some deltaT
    ∧ has_shape (rows s) (columns s) deltaT
    ∧ (∀ r c, (r < rows s)%nat → (c < columns s)%nat →
         cell deltaT r c
         = Some (if on_inlet_edge fluid r c
                 then inlet_temperature fluid s - (arr s f_T fluid).[r, c]
                 else (arr s f_T fluid).[(upstream fluid r c).1,
                                         (upstream fluid r c).2]
                      - (arr s f_T fluid).[r, c]))
    ∧ ((∀ r c, (r < rows s)%nat → (c < columns s)%nat →
          (arr s f_T fluid).[r, c] = inlet_temperature fluid s) →
       ∀ r c, (r < rows s)%nat → (c < columns s)%nat →
         cell deltaT r c = Some 0).
Proof.
  intros Hs Hn Hm.
  destruct (advective_transfer_cells fluid s Hs Hn Hm)
    as (deltaT & Hd & Hsh & Hc).
  exists deltaT. repeat split; try done; try apply Hsh.
  intros Hu r c Hr Hcc. rewrite (Hc r c Hr Hcc). f_equal.
  assert (Hup : (arr s f_T fluid).[(upstream fluid r c).1,
                                   (upstream fluid r c).2]
                = inlet_temperature fluid s ∨ on_inlet_edge fluid r c = true).
  { unfold upstream, on_inlet_edge.
    destruct (flow_axis fluid); simpl.
    - destruct r; [by right | left; apply Hu; lia].
    - destruct c; [by right | left; apply Hu; lia]. }
  rewrite (Hu r c Hr Hcc).
  destruct Hup as [Hup|Hup]; [rewrite Hup | rewrite Hup]; destruct (on_inlet_edge _ _ _); lra.
Qed.

(** ** Marching a pressure field from its inlet edge *)

Lemma set_col_shape {A : Type} n m (g : grid A) c (v : list A) :
  has_shape n m g → length v = n →
  has_shape n m (zip_with (λ (row : list A) x, <[c := x]> row) g v).
Proof.
  intros Hs Hv. split.
  - rewrite length_zip_with. destruct Hs. lia.
  - apply Forall_forall. intros row Hin.
    apply list_elem_of_lookup in Hin as [r Hrow].
    rewrite lookup_zip_with in Hrow.
    apply bind_Some in Hrow as (row' & Hrow' & Hrow).
    apply bind_Some in Hrow as (x & Hx & Hrow). simplify_eq.
    rewrite length_insert. by eapply has_shape_row.
Qed.

Lemma set_row_shape {A : Type} n m (g : grid A) r (v : list A) :
  has_shape n m g → length v = m → has_shape n m (<[r := v]> g).
Proof.
  intros [Hl Hf] Hv. split; [by rewrite length_insert|].
  by apply Forall_insert.
Qed.

Lemma at_row (g : grid R) r c row : g !! r = Some row → g.[r, c] = row.[c].
Proof. intros H. unfold at_, at1. by rewrite (cell_row g r c row). Qed.



Lemma inlet_col_grid n m inlet (dP P : grid R) :
  has_shape n m P → has_shape n m dP → (0 < m)%nat →
  ∃ P', (d ← get_col 0 dP; set_col 0 (map (λ x, inlet - x) d) P) = Some P'
        ∧ has_shape n m P' ∧ col_marched n inlet dP P' 1.
Proof.
  intros HP HdP Hm.
  destruct (get_col_Some n m dP 0 HdP Hm) as (d & Hd & Hld & Hdc).
  rewrite Hd. cbn [mbind option_bind].
  rewrite (set_col_Some n m) by (by rewrite ?length_map).
  eexists; split; [reflexivity|]. split.
  - apply set_col_shape; [done | by rewrite length_map].
  - intros r c Hr Hc. assert (c = 0%nat) as -> by lia.
    apply at_cell. rewrite (cell_set_col n m) by (by rewrite ?length_map).
    rewrite decide_True by done.
    rewrite list_lookup_fmap, Hdc by done.
    destruct (cell_is_Some n m dP r 0 HdP Hr Hm) as [x Hx].
    rewrite Hx. simpl. by rewrite (at_cell dP r 0 x).
Qed.

Lemma march_col_grid n m inlet (dP P : grid R) k :
  has_shape n m P → has_shape n m dP → (1 ≤ k)%nat → (k < m)%nat →
  col_marched n inlet dP P k →
  ∃ P', (prev ← get_col (k - 1) P; d ← get_col k dP;
         set_col k (zip_with Rminus prev d) P) = Some P'
        ∧ has_shape n m P' ∧ col_marched n inlet dP P' (S k).
Proof.
  intros HP HdP Hk1 Hkm Hmarch.
  destruct (get_col_Some n m P (k - 1) HP) as (prev & Hprev & Hlp & Hpc); [lia|].
  destruct (get_col_Some n m dP k HdP Hkm) as (d & Hd & Hld & Hdc).
  rewrite Hprev, Hd. cbn [mbind option_bind].
  assert (Hlz : length (zip_with Rminus prev d) = n)
    by (rewrite length_zip_with; lia).
  rewrite (set_col_Some n m) by done.
  eexists; split; [reflexivity|]. split; [by apply set_col_shape|].
  assert (Hat : ∀ r c, (r < n)%nat →
    (zip_with (λ (row : list R) x, <[k := x]> row) P (zip_with Rminus prev d)).[r, c]
    = if decide (c = k) then P.[r, (k - 1)%nat] - dP.[r, k] else P.[r, c]).
  { intros r c Hr. unfold at_ at 1. rewrite (cell_set_col n m) by done.
    case_decide; [|done].
    rewrite lookup_zip_with, Hpc, Hdc by done.
    destruct (cell_is_Some n m P r (k - 1) HP Hr) as [x Hx]; [lia|].
    destruct (cell_is_Some n m dP r k HdP Hr Hkm) as [y Hy].
    rewrite Hx, Hy. simpl. by rewrite (at_cell P _ _ x), (at_cell dP _ _ y). }
  intros r c Hr Hc. rewrite Hat by done.
  case_decide as Hck.
  - subst c. destruct k as [|k']; [lia|].
    rewrite Hat by done. rewrite decide_False by lia.
    by replace (S k' - 1)%nat with k' by lia.
  - rewrite (Hmarch r c) by lia.
    destruct c as [|c']; [done|].
    rewrite Hat by done. by rewrite decide_False by lia.
Qed.

Lemma inlet_row_grid n m inlet (dP P : grid R) :
  has_shape n m P → has_shape n m dP → (0 < n)%nat →
  ∃ P', (d ← get_row 0 dP; set_row 0 (map (λ x, inlet - x) d) P) = Some P'
        ∧ has_shape n m P' ∧ row_marched m inlet dP P' 1.
Proof.
  intros HP HdP Hn.
  destruct (has_shape_lookup n m dP 0 HdP Hn) as (d & Hd & Hld).
  unfold get_row. rewrite Hd. cbn [mbind option_bind].
  rewrite (set_row_Some n m) by (by rewrite ?length_map).
  eexists; split; [reflexivity|]. split.
  - apply set_row_shape; [done | by rewrite length_map].
  - intros r c Hr Hc. assert (r = 0%nat) as -> by lia.
    apply at_cell. rewrite cell_insert_row by (destruct HP; lia).
    rewrite decide_True by done.
    rewrite list_lookup_fmap.
    destruct (lookup_lt_is_Some_2 d c) as [x Hx]; [lia|].
    rewrite Hx. simpl. rewrite (at_row dP 0 c d Hd). unfold at1.
    by rewrite Hx.
Qed.

Lemma march_row_grid n m inlet (dP P : grid R) k :
  has_shape n m P → has_shape n m dP → (1 ≤ k)%nat → (k < n)%nat →
  row_marched m inlet dP P k →
  ∃ P', (prev ← get_row (k - 1) P; d ← get_row k dP;
         set_row k (zip_with Rminus prev d) P) = Some P'
        ∧ has_shape n m P' ∧ row_marched m inlet dP P' (S k).
Proof.
  intros HP HdP Hk1 Hkn Hmarch.
  destruct (has_shape_lookup n m P (k - 1) HP) as (prev & Hprev & Hlp); [lia|].
  destruct (has_shape_lookup n m dP k HdP Hkn) as (d & Hd & Hld).
  unfold get_row. rewrite Hprev, Hd. cbn [mbind option_bind].
  assert (Hlz : length (zip_with Rminus prev d) = m)
    by (rewrite length_zip_with; lia).
  rewrite (set_row_Some n m) by done.
  eexists; split; [reflexivity|]. split; [by apply set_row_shape|].
  assert (Hat : ∀ r c, (c < m)%nat →
    (<[k := zip_with Rminus prev d]> P).[r, c]
    = if decide (r = k) then P.[(k - 1)%nat, c] - dP.[k, c] else P.[r, c]).
  { intros r c Hc. unfold at_ at 1.
    rewrite cell_insert_row by (destruct HP; lia).
    case_decide; [|done].
    rewrite lookup_zip_with.
    destruct (lookup_lt_is_Some_2 prev c) as [x Hx]; [lia|].
    destruct (lookup_lt_is_Some_2 d c) as [y Hy]; [lia|].
    rewrite Hx, Hy. simpl.
    rewrite (at_row P _ c prev Hprev), (at_row dP _ c d Hd).
    unfold at1. by rewrite Hx, Hy. }
  intros r c Hr Hc. rewrite Hat by done.
  case_decide as Hrk.
  - subst r. destruct k as [|k']; [lia|].
    rewrite Hat by done. rewrite decide_False by lia.
    by replace (S k' - 1)%nat with k' by lia.
  - rewrite (Hmarch r c) by lia.
    destruct r as [|r']; [done|].
    rewrite Hat by done. by rewrite decide_False by lia.
Qed.

(** What a fully marched field satisfies when every loss is positive. *)
Lemma col_marched_decreasing n m inlet (dP P : grid R) :
  col_marched n inlet dP P m →
  (∀ r c, (r < n)%nat → (c < m)%nat → 0 < dP.[r, c]) →
  ∀ r c, (r < n)%nat → (c < m)%nat →
    P.[r, c] < inlet
    ∧ match c with O => True | S c' => P.[r, c] < P.[r, c'] end.
Proof.
  intros Hmarch Hpos r c Hr. induction c as [|c' IH]; intros Hc.
  - rewrite (Hmarch r 0%nat) by done. specialize (Hpos r 0%nat Hr Hc).
    split; [lra | done].
  - destruct IH as [IH _]; [lia|].
    rewrite (Hmarch r (S c')) by done. specialize (Hpos r (S c') Hr Hc).
    split; lra.
Qed.

Lemma row_marched_decreasing n m inlet (dP P : grid R) :
  row_marched m inlet dP P n →
  (∀ r c, (r < n)%nat → (c < m)%nat → 0 < dP.[r, c]) →
  ∀ r c, (r < n)%nat → (c < m)%nat →
    P.[r, c] < inlet
    ∧ match r with O => True | S r' => P.[r, c] < P.[r', c] end.
Proof.
  intros Hmarch Hpos r. induction r as [|r' IH]; intros c Hr Hc.
  - rewrite (Hmarch 0%nat c) by done. specialize (Hpos 0%nat c Hr Hc).
    split; [lra | done].
  - destruct (IH c) as [IH' _]; [lia | done |].
    rewrite (Hmarch (S r') c) by done. specialize (Hpos (S r') c Hr Hc).
    split; lra.
Qed.

(** ** The cold branch of the pressure update *)

Lemma for_each_range_inv {St : Type} (body : nat → St → option St)
    (I : nat → St → Prop) (a b : nat) (s : St) :
  (a ≤ b)%nat → I a s →
  (∀ k s, (a ≤ k < b)%nat → I k s → ∃ s', body k s = Some s' ∧ I (S k) s') →
  ∃ s', for_each body (range a b) s = Some s' ∧ I b s'.
Proof.
  unfold range. intros Hab. remember (b - a)%nat as d eqn:Hd.
  revert a s Hab Hd. induction d as [|d IH]; intros a s Hab Hd Ha Hstep.
  - assert (a = b) as -> by lia. by exists s.
  - simpl. destruct (Hstep a s) as (s1 & Hs1 & HI1); [lia | done |].
    rewrite Hs1. cbn [mbind option_bind].
    apply IH; [lia | lia | done |].
    intros k s2 Hk. apply Hstep. lia.
Qed.



Lemma cold_inv_set s k s' p P' k' :
  cold_inv s k s' →
  has_shape (rows s) (columns s) P' → marched s p k' P' →
  cold_inv s (λ q, if pass_eqb q p then k' else k q) (set_arr f_P p P' s').
Proof.
  intros (Hr & Hu & Hf & Hd & Hp) Hsh Hm.
  do 4 (split; [done|]). intros q.
  cbn [arr set_arr]. change (attr_eqb f_P f_P) with true. cbn [andb].
  destruct (pass_eqb q p) eqn:E; [|apply Hp].
  assert (q = p) as -> by (destruct q, p; simplify_eq/=; done). done.
Qed.

Lemma deltaP_shape p s : has_shape (rows s) (columns s) (deltaP p s).
Proof. destruct p; apply elementwise_shape. Qed.

Lemma cold_inv_dims s k s' :
  cold_inv s k s' → rows s' = rows s ∧ columns s' = columns s.
Proof. intros (_ & _ & _ & Hd & _). unfold rows, columns. by rewrite Hd. Qed.

Lemma inlet_row_inv s k s' p :
  flow_axis p = 0%nat → (0 < rows s)%nat → cold_inv s k s' →
  ∃ s'', inlet_row p (inlet_pressure p s) (deltaP p s) s' = Some s''
         ∧ cold_inv s (λ q, if pass_eqb q p then 1%nat else k q) s''.
Proof.
  intros Hax Hn Hinv. pose proof Hinv as (_ & _ & _ & _ & Hp).
  destruct (Hp p) as [Hsh _].
  destruct (inlet_row_grid _ _ (inlet_pressure p s) (deltaP p s) _
              Hsh (deltaP_shape p s) Hn) as (P' & HP' & Hsh' & Hm').
  unfold inlet_row.
  apply bind_Some in HP' as (d & Hd & HP'). rewrite Hd.
  cbn [mbind option_bind]. rewrite HP'. cbn [mbind option_bind].
  eexists; split; [reflexivity|].
  apply cold_inv_set; [done | done |]. unfold marched. by rewrite Hax.
Qed.

Lemma inlet_col_inv s k s' p :
  flow_axis p = 1%nat → (0 < columns s)%nat → cold_inv s k s' →
  ∃ s'', inlet_col p (inlet_pressure p s) (deltaP p s) s' = Some s''
         ∧ cold_inv s (λ q, if pass_eqb q p then 1%nat else k q) s''.
Proof.
  intros Hax Hm Hinv. pose proof Hinv as (_ & _ & _ & _ & Hp).
  destruct (Hp p) as [Hsh _].
  destruct (inlet_col_grid _ _ (inlet_pressure p s) (deltaP p s) _
              Hsh (deltaP_shape p s) Hm) as (P' & HP' & Hsh' & Hm').
  unfold inlet_col.
  apply bind_Some in HP' as (d & Hd & HP'). rewrite Hd.
  cbn [mbind option_bind]. rewrite HP'. cbn [mbind option_bind].
  eexists; split; [reflexivity|].
  apply cold_inv_set; [done | done |]. unfold marched. by rewrite Hax.
Qed.

Lemma march_row_inv s k s' p i :
  flow_axis p = 0%nat → (1 ≤ i)%nat → (i < rows s)%nat →
  cold_inv s k s' → k p = i →
  ∃ s'', march_row p (deltaP p s) i s' = Some s''
         ∧ cold_inv s (λ q, if pass_eqb q p then S i else k q) s''.
Proof.
  intros Hax Hi1 Hin Hinv Hk. pose proof Hinv as (_ & _ & _ & _ & Hp).
  destruct (Hp p) as [Hsh Hmar]. unfold marched in Hmar.
  rewrite Hax, Hk in Hmar.
  destruct (march_row_grid _ _ (inlet_pressure p s) (deltaP p s) _ i
              Hsh (deltaP_shape p s) Hi1 Hin Hmar) as (P' & HP' & Hsh' & Hm').
  unfold march_row.
  apply bind_Some in HP' as (prev & Hprev & HP').
  apply bind_Some in HP' as (d & Hd & HP').
  rewrite Hprev. cbn [mbind option_bind]. rewrite Hd.
  cbn [mbind option_bind]. rewrite HP'. cbn [mbind option_bind].
  eexists; split; [reflexivity|].
  apply cold_inv_set; [done | done |]. unfold marched. by rewrite Hax.
Qed.

Lemma march_col_inv s k s' p i :
  flow_axis p = 1%nat → (1 ≤ i)%nat → (i < columns s)%nat →
  cold_inv s k s' → k p = i →
  ∃ s'', march_col p (deltaP p s) i s' = Some s''
         ∧ cold_inv s (λ q, if pass_eqb q p then S i else k q) s''.
Proof.
  intros Hax Hi1 Hin Hinv Hk. pose proof Hinv as (_ & _ & _ & _ & Hp).
  destruct (Hp p) as [Hsh Hmar]. unfold marched in Hmar.
  rewrite Hax, Hk in Hmar.
  destruct (march_col_grid _ _ (inlet_pressure p s) (deltaP p s) _ i
              Hsh (deltaP_shape p s) Hi1 Hin Hmar) as (P' & HP' & Hsh' & Hm').
  unfold march_col.
  apply bind_Some in HP' as (prev & Hprev & HP').
  apply bind_Some in HP' as (d & Hd & HP').
  rewrite Hprev. cbn [mbind option_bind]. rewrite Hd.
  cbn [mbind option_bind]. rewrite HP'. cbn [mbind option_bind].
  eexists; split; [reflexivity|].
  apply cold_inv_set; [done | done |]. unfold marched. by rewrite Hax.
Qed.

Lemma cold_inv_ext s k k' s' :
  (∀ p, k p = k' p) → cold_inv s k s' → cold_inv s k' s'.
Proof.
  intros Hk (Hr & Hu & Hf & Hd & Hp). do 4 (split; [done|]). intros p.
  rewrite <- Hk. apply Hp.
Qed.


(** The cold branch succeeds and marches every field to its last index. *)
Lemma update_pressures_cold_marched s :
  (0 < rows s)%nat → (0 < columns s)%nat →
  (∀ p, has_shape (rows s) (columns s) (arr s f_P p)) →
  ∃ s', update_pressures_cold s = Some s'
        ∧ cold_inv s (reached (columns s) (rows s)) s'.
Proof.
  intros Hn Hm Hsh.
  assert (H0 : cold_inv s (λ _, 0%nat) s).
  { do 4 (split; [done|]). intros p. split; [apply Hsh|].
    unfold marched. destruct (flow_axis p); intros r c; lia. }
  unfold update_pressures_cold.
  destruct (inlet_row_inv s _ s utility1 eq_refl Hn H0) as (s1 & E1 & I1).
  change (inlet_pressure utility1 s) with (inlet_P (utility s)) in E1.
  rewrite E1. cbn [mbind option_bind]. clear E1.
  destruct (inlet_col_inv s _ s1 reactant2 eq_refl Hm I1) as (s2 & E2 & I2).
  change (inlet_pressure reactant2 s) with (inlet_P (reactant s)) in E2.
  pose proof I1 as (Hr1 & Hu1 & Hf1 & _).
  rewrite Hr1, E2. cbn [mbind option_bind]. clear E2.
  destruct (inlet_col_inv s _ s2 fuel3 eq_refl Hm I2) as (s3 & E3 & I3).
  change (inlet_pressure fuel3 s) with (inlet_P (fuel s)) in E3.
  pose proof I2 as (Hr2 & Hu2 & Hf2 & _).
  rewrite Hf2, E3. cbn [mbind option_bind]. clear E3.
  destruct (inlet_col_inv s _ s3 reactant4 eq_refl Hm I3) as (s4 & E4 & I4).
  change (inlet_pressure reactant4 s) with (inlet_P (reactant s)) in E4.
  pose proof I3 as (Hr3 & Hu3 & Hf3 & _).
  rewrite Hr3, E4. cbn [mbind option_bind]. clear E4.
  destruct (inlet_row_inv s _ s4 utility5 eq_refl Hn I4) as (s5 & E5 & I5).
  change (inlet_pressure utility5 s) with (inlet_P (utility s)) in E5.
  pose proof I4 as (Hr4 & Hu4 & Hf4 & _).
  rewrite Hu4, E5. cbn [mbind option_bind]. clear E5.
  apply (cold_inv_ext _ _ (reached 1 1)) in I5; [|by intros []].
  destruct (cold_inv_dims _ _ _ I5) as [Hrows5 Hcols5].
  rewrite Hcols5.
  destruct (for_each_range_inv
    (λ i s0, s0 ← march_col reactant2 (deltaP reactant2 s) i s0;
             s0 ← march_col reactant4 (deltaP reactant4 s) i s0;
             march_col fuel3 (deltaP fuel3 s) i s0)
    (λ kc s0, cold_inv s (reached kc 1) s0) 1 (columns s) s5)
    as (s6 & E6 & I6); [lia | done | |].
  { intros i s0 Hi Hinv.
    destruct (march_col_inv s _ s0 reactant2 i eq_refl
                ltac:(lia) ltac:(lia) Hinv eq_refl) as (t1 & F1 & J1).
    rewrite F1. cbn [mbind option_bind].
    destruct (march_col_inv s _ t1 reactant4 i eq_refl
                ltac:(lia) ltac:(lia) J1 eq_refl) as (t2 & F2 & J2).
    rewrite F2. cbn [mbind option_bind].
    destruct (march_col_inv s _ t2 fuel3 i eq_refl
                ltac:(lia) ltac:(lia) J2 eq_refl) as (t3 & F3 & J3).
    exists t3. split; [done|].
    eapply cold_inv_ext; [|exact J3]. by intros []. }
  rewrite E6. cbn [mbind option_bind].
  destruct (cold_inv_dims _ _ _ I6) as [Hrows6 Hcols6].
  rewrite Hrows6.
  destruct (for_each_range_inv
    (λ i s0, s0 ← march_row utility1 (deltaP utility1 s) i s0;
             march_row utility5 (deltaP utility5 s) i s0)
    (λ kr s0, cold_inv s (reached (columns s) kr) s0) 1 (rows s) s6)
    as (s7 & E7 & I7); [lia | done | |].
  { intros i s0 Hi Hinv.
    destruct (march_row_inv s _ s0 utility1 i eq_refl
                ltac:(lia) ltac:(lia) Hinv eq_refl) as (t1 & F1 & J1).
    rewrite F1. cbn [mbind option_bind].
    destruct (march_row_inv s _ t1 utility5 i eq_refl
                ltac:(lia) ltac:(lia) J1 eq_refl) as (t2 & F2 & J2).
    exists t2. split; [done|].
    eapply cold_inv_ext; [|exact J2]. by intros []. }
  exists s7. split; [exact E7 | exact I7].
Qed.

Lemma dh_pos s p :
  0 < reactant_diameter (dimensions s) → 0 < utility_diameter (dimensions s) →
  0 < dh p s.
Proof.
  intros Hr Hu. pose proof PI_RGT_0 as Hpi.
  destruct p; unfold dh, fuel_dh, utility_dh, reactant_dh;
    apply Rdiv_lt_0_compat; nra.
Qed.

Lemma deltaP_cell p s r c :
  (r < rows s)%nat → (c < columns s)%nat →
  (deltaP p s).[r, c]
  = 2 * (arr s f_f p).[r, c] * pitch p s / dh p s
    * (arr s f_u p).[r, c] ^ 2 * (arr s f_rho p).[r, c].
Proof.
  intros Hr Hc. destruct p; unfold deltaP; by rewrite at_elementwise.
Qed.

Lemma deltaP_pos p s r c :
  0 < reactant_diameter (dimensions s) → 0 < utility_diameter (dimensions s) →
  0 <= wall_thickness (dimensions s) →
  (r < rows s)%nat → (c < columns s)%nat →
  0 < (arr s f_f p).[r, c] → 0 < (arr s f_u p).[r, c] →
  0 < (arr s f_rho p).[r, c] →
  0 < (deltaP p s).[r, c].
Proof.
  intros Hdr Hdu Hw Hr Hc Hf Hu Hrho. rewrite deltaP_cell by done.
  pose proof (dh_pos s p Hdr Hdu) as Hdh.
  assert (Hp : 0 < pitch p s)
    by (destruct p; unfold pitch, deltax, deltaz; lra).
  assert (Hq : 0 < 2 * (arr s f_f p).[r, c] * pitch p s / dh p s)
    by (apply Rdiv_lt_0_compat; nra).
  assert (Hu2 : 0 < (arr s f_u p).[r, c] ^ 2) by nra.
  apply Rmult_lt_0_compat; [apply Rmult_lt_0_compat|]; done.
Qed.

(** Over the exact reals no loss is absorbed, and the inequalities between
    the pressures are strict: after a pressure update taken in the cold
    branch on an instance of valid geometry whose friction factors,
    velocities and densities are positive at every cell, the pressure of
    every pass at every cell is below the inlet pressure of its stream and,
    off the inlet edge, below the pressure of the cell upstream of it.  In
    binary64 a loss below half a unit in the last place of a pressure
    leaves it unchanged; what holds there is stated on [Rounded] below. *)
Lemma update_pressures_cold_decreasing_exact (s : PCHE) :
  0 < reactant_diameter (dimensions s) →
  0 < utility_diameter (dimensions s) →
  0 <= wall_thickness (dimensions s) →
  (0 < rows s)%nat → (0 < columns s)%nat →
  (∀ p, has_shape (rows s) (columns s) (arr s f_P p)) →
  is_cold s = Some true →
  (∀ p r c, (r < rows s)%nat → (c < columns s)%nat →
     0 < (arr s f_f p).[r, c] ∧ 0 < (arr s f_u p).[r, c]
     ∧ 0 < (arr s f_rho p).[r, c]) →
  ∃ s', update_pressures s = Some s'
    ∧ ∀ p r c, (r < rows s)%nat → (c < columns s)%nat →
        (arr s' f_P p).[r, c] < inlet_pressure p s
        ∧ (on_inlet_edge p r c = false →
           (arr s' f_P p).[r, c]
           < (arr s' f_P p).[(upstream p r c).1, (upstream p r c).2]).
Proof.
  intros Hdr Hdu Hw Hn Hm Hsh Hcold Hpos.
  destruct (update_pressures_cold_marched s Hn Hm Hsh) as (s' & Hs' & Hinv).
  exists s'. split.
  { unfold update_pressures. rewrite Hcold. exact Hs'. }
  destruct Hinv as (_ & _ & _ & _ & Hp).
  assert (HdP : ∀ p r c, (r < rows s)%nat → (c < columns s)%nat →
                         0 < (deltaP p s).[r, c]).
  { intros p r c Hr Hc. destruct (Hpos p r c Hr Hc) as (Hf & Hu & Hrho).
    by apply deltaP_pos. }
  intros p r c Hr Hc. destruct (Hp p) as [_ Hmar]. unfold marched in Hmar.
  unfold on_inlet_edge, upstream, reached in *.
  destruct (flow_axis p); cbn [fst snd].
  - destruct (row_marched_decreasing _ _ _ _ _ Hmar (HdP p) r c Hr Hc)
      as [H1 H2].
    split; [done|]. destruct r; [done|].
    intros _. by rewrite Nat.sub_succ, Nat.sub_0_r.
  - destruct (col_marched_decreasing _ _ _ _ _ Hmar (HdP p) r c Hr Hc)
      as [H1 H2].
    split; [done|]. destruct c; [done|].
    intros _. by rewrite Nat.sub_succ, Nat.sub_0_r.
Qed.

(** ** The warm branch of the pressure update *)


Lemma lookup_roll_list_1_any {B : Type} (v : list B) i :
  (i < length v)%nat → roll_list 1 v !! i = v !! rolled_from (length v) i.
Proof.
  intros Hi. destruct i as [|i']; [|by apply lookup_roll_list_1].
  rewrite roll_list_1. cbn [rolled_from].
  rewrite lookup_app_l by (rewrite length_drop; lia).
  rewrite lookup_drop. f_equal. lia.
Qed.

Lemma at_roll_axis0 n m (g : grid R) r c :
  has_shape n m g → (r < n)%nat →
  (np_roll 1 0 g).[r, c] = g.[rolled_from n r, c].
Proof.
  intros [Hl _] Hr. change (np_roll 1 0 g) with (roll_list 1 g).
  unfold at_, cell. rewrite lookup_roll_list_1_any by lia. by rewrite Hl.
Qed.

Lemma at_roll_axis1 n m (g : grid R) r c :
  has_shape n m g → (r < n)%nat → (c < m)%nat →
  (np_roll 1 1 g).[r, c] = g.[r, rolled_from m c].
Proof.
  intros Hs Hr Hc. change (np_roll 1 1 g) with (map (roll_list 1) g).
  destruct (has_shape_lookup n m g r Hs Hr) as (row & Hrow & Hl).
  unfold at_, cell. rewrite list_lookup_fmap, Hrow. simpl.
  rewrite lookup_roll_list_1_any by lia. by rewrite Hl.
Qed.

(** The warm update of a utility pass on a square grid: the field rolled
    along the rows minus the loss, with column 0 overwritten by the inlet
    pressure minus the losses of row 0. *)
Lemma warm_utility_grid n inlet (dP P : grid R) :
  has_shape n n P → has_shape n n dP → (0 < n)%nat →
  ∃ P', (d ← get_row 0 dP;
         set_col 0 (map (λ x, inlet - x) d)
           (elementwise n n (λ r c, (np_roll 1 0 P).[r, c] - dP.[r, c])))
        = Some P'
        ∧ has_shape n n P'
        ∧ ∀ r c, (r < n)%nat → (c < n)%nat →
            P'.[r, c] = if decide (c = 0)%nat then inlet - dP.[0, r]
                        else P.[rolled_from n r, c] - dP.[r, c].
Proof.
  intros HP HdP Hn.
  destruct (has_shape_lookup n n dP 0 HdP Hn) as (d & Hd & Hld).
  unfold get_row. rewrite Hd. cbn [mbind option_bind].
  rewrite (set_col_Some n n)
    by (by rewrite ?length_map; auto using elementwise_shape).
  eexists; split; [reflexivity|]. split.
  - apply set_col_shape; [apply elementwise_shape | by rewrite length_map].
  - intros r c Hr Hc. unfold at_ at 1.
    rewrite (cell_set_col n n)
      by (by rewrite ?length_map; auto using elementwise_shape).
    case_decide.
    + rewrite list_lookup_fmap.
      destruct (lookup_lt_is_Some_2 d r) as [x Hx]; [lia|].
      rewrite Hx. simpl. rewrite (at_row dP 0 r d Hd). unfold at1.
      by rewrite Hx.
    + rewrite cell_elementwise by done. cbn [from_option id].
      by rewrite (at_roll_axis0 n n).
Qed.

(** The warm update of a reactant or fuel pass on a square grid: the field
    rolled along the columns minus the loss, with row 0 overwritten by the
    inlet pressure minus the losses of column 0. *)
Lemma warm_reactant_grid n inlet (dP P : grid R) :
  has_shape n n P → has_shape n n dP → (0 < n)%nat →
  ∃ P', (d ← get_col 0 dP;
         set_row 0 (map (λ x, inlet - x) d)
           (elementwise n n (λ r c, (np_roll 1 1 P).[r, c] - dP.[r, c])))
        = Some P'
        ∧ has_shape n n P'
        ∧ ∀ r c, (r < n)%nat → (c < n)%nat →
            P'.[r, c] = if decide (r = 0)%nat then inlet - dP.[c, 0]
                        else P.[r, rolled_from n c] - dP.[r, c].
Proof.
  intros HP HdP Hn.
  destruct (get_col_Some n n dP 0 HdP Hn) as (d & Hd & Hld & Hdc).
  rewrite Hd. cbn [mbind option_bind].
  rewrite (set_row_Some n n)
    by (by rewrite ?length_map; auto using elementwise_shape).
  eexists; split; [reflexivity|]. split.
  - apply set_row_shape; [apply elementwise_shape | by rewrite length_map].
  - intros r c Hr Hc. unfold at_ at 1.
    rewrite cell_insert_row by (by rewrite length_elementwise).
    case_decide.
    + rewrite list_lookup_fmap, Hdc by done.
      destruct (cell_is_Some n n dP c 0 HdP Hc Hn) as [x Hx].
      rewrite Hx. simpl. by rewrite (at_cell dP c 0 x).
    + rewrite cell_elementwise by done. cbn [from_option id].
      by rewrite (at_roll_axis1 n n).
Qed.

Lemma rows_set_arr a p v s : rows (set_arr a p v s) = rows s.
Proof. reflexivity. Qed.

Lemma columns_set_arr a p v s : columns (set_arr a p v s) = columns s.
Proof. reflexivity. Qed.

(** Normalises the state after one assignment of the warm branch. *)
Ltac warm_state s Hsq :=
  cbn [mbind option_bind arr set_arr rows columns dimensions utility
       reactant fuel attr_eqb pass_eqb attr_index pass_index Nat.eqb andb];
  rewrite ?rows_set_arr, ?columns_set_arr, <- ?Hsq.

(** What the warm branch computes on a square grid. *)
Lemma update_pressures_warm_cells (s : PCHE) :
  rows s = columns s → (0 < rows s)%nat →
  (∀ p, has_shape (rows s) (columns s) (arr s f_P p)) →
  ∃ s', update_pressures_warm s = Some s'
    ∧ ∀ p r c, (r < rows s)%nat → (c < columns s)%nat →
        (arr s' f_P p).[r, c]
        = match p with
          | utility1 | utility5 =>
              if decide (c = 0)%nat
              then inlet_P (utility s) - (deltaP p s).[0, r]
              else (arr s f_P p).[rolled_from (rows s) r, c]
                   - (deltaP p s).[r, c]
          | reactant2 | reactant4 | fuel3 =>
              if decide (r = 0)%nat
              then inlet_P (reactant s) - (deltaP p s).[c, 0]
              else (arr s f_P p).[r, rolled_from (columns s) c]
                   - (deltaP p s).[r, c]
          end.
Proof.
  intros Hsq Hn Hsh.
  assert (Hsh' : ∀ p, has_shape (rows s) (rows s) (arr s f_P p))
    by (intros p; rewrite Hsq at 2; apply Hsh).
  assert (HdP : ∀ p, has_shape (rows s) (rows s) (deltaP p s))
    by (intros p; rewrite Hsq at 2; apply deltaP_shape).
  unfold update_pressures_warm, warm_roll.
  warm_state s Hsq.
  destruct (warm_utility_grid (rows s) (inlet_P (utility s))
              (deltaP utility1 s) (arr s f_P utility1))
    as (P1 & E1 & S1 & C1'); [done | done | done |].
  apply bind_Some in E1 as (d1 & D1 & E1). rewrite D1.
  warm_state s Hsq. rewrite E1. warm_state s Hsq.
  destruct (warm_reactant_grid (rows s) (inlet_P (reactant s))
              (deltaP reactant2 s) (arr s f_P reactant2))
    as (P2 & E2 & S2 & C2'); [done | done | done |].
  apply bind_Some in E2 as (d2 & D2 & E2). rewrite D2.
  warm_state s Hsq. rewrite E2. warm_state s Hsq.
  destruct (warm_reactant_grid (rows s) (inlet_P (reactant s))
              (deltaP fuel3 s) (arr s f_P fuel3))
    as (P3 & E3 & S3 & C3'); [done | done | done |].
  apply bind_Some in E3 as (d3 & D3 & E3). rewrite D3.
  warm_state s Hsq. rewrite E3. warm_state s Hsq.
  destruct (warm_reactant_grid (rows s) (inlet_P (reactant s))
              (deltaP reactant4 s) (arr s f_P reactant4))
    as (P4 & E4 & S4 & C4'); [done | done | done |].
  apply bind_Some in E4 as (d4 & D4 & E4). rewrite D4.
  warm_state s Hsq. rewrite E4. warm_state s Hsq.
  destruct (warm_utility_grid (rows s) (inlet_P (utility s))
              (deltaP utility5 s) (arr s f_P utility5))
    as (P5 & E5 & S5 & C5'); [done | done | done |].
  apply bind_Some in E5 as (d5 & D5 & E5). rewrite D5.
  warm_state s Hsq. rewrite E5. warm_state s Hsq.
  eexists; split; [reflexivity|].
  intros p r c Hr Hc.
  destruct p; cbn [arr set_arr attr_eqb pass_eqb attr_index pass_index
                   Nat.eqb andb]; auto.
Qed.

Lemma broadcast_to_None {A : Type} n (v : list A) :
  length v ≠ n → length v ≠ 1%nat → broadcast_to n v = None.
Proof.
  intros Hn H1. unfold broadcast_to. rewrite decide_False by done.
  by destruct v as [|x [|y v]].
Qed.

(** On a grid that is not square (and has more than one column) the warm
    branch raises at its first slice assignment: [utility1_P[:, 0]] has
    [rows] cells and is assigned the [columns] losses of row 0. *)
Lemma update_pressures_warm_not_square (s : PCHE) :
  rows s ≠ columns s → columns s ≠ 1%nat → (0 < rows s)%nat →
  update_pressures_warm s = None.
Proof.
  intros Hne H1 Hn. unfold update_pressures_warm.
  destruct (has_shape_lookup _ _ _ 0 (deltaP_shape utility1 s) Hn)
    as (d & Hd & Hld).
  unfold get_row. rewrite Hd. cbn [mbind option_bind].
  unfold set_col, warm_roll. rewrite length_elementwise.
  rewrite broadcast_to_None by (rewrite length_map; lia). done.
Qed.

(** ** Flow correlations *)

Lemma less_equal_true x y : x <= y → less_equal x y = 1.
Proof. intros H. unfold less_equal. by destruct (Rle_dec x y). Qed.

Lemma less_equal_false x y : x > y → less_equal x y = 0.
Proof. intros H. unfold less_equal. destruct (Rle_dec x y); [lra | done]. Qed.

Lemma greater_true x y : x > y → greater x y = 1.
Proof. intros H. unfold greater. by destruct (Rgt_dec x y). Qed.

Lemma greater_false x y : x <= y → greater x y = 0.
Proof. intros H. unfold greater. destruct (Rgt_dec x y); [lra | done]. Qed.

(** Exactly one of the two masks is 1. *)
Lemma masks_exclusive x y :
  (less_equal x y = 1 ∧ greater x y = 0) ∨ (less_equal x y = 0 ∧ greater x y = 1).
Proof.
  destruct (Rle_dec x y) as [H|H].
  - left. by rewrite less_equal_true, greater_false.
  - right. rewrite less_equal_false, greater_true by lra. done.
Qed.


(** The boundary value itself is laminar. *)
Lemma frictionfactor_cell_2300 Lplus :
  frictionfactor_cell Lplus 2300 = laminar_f Lplus 2300.
Proof.
  unfold frictionfactor_cell.
  rewrite less_equal_true, greater_false by lra. ring.
Qed.

Lemma frictionfactor_cell_2301 Lplus :
  frictionfactor_cell Lplus 2301 = turbulent_f 2301.
Proof.
  unfold frictionfactor_cell.
  rewrite less_equal_false, greater_true by lra. ring.
Qed.

(** ** Mole fractions *)

Lemma dict_get_elem_of {V : Type} (d : dict V) k v :
  dict_get d k = Some v → (k, v) ∈ d.
Proof.
  induction d as [|[k0 v0] d IH]; simpl; [done|].
  destruct (String.eqb k0 k) eqn:E.
  - apply String.eqb_eq in E as ->. intros [= ->]. left.
  - intros H. right. by apply IH.
Qed.

Lemma dict_get_NoDup {V : Type} (d : dict V) k v :
  NoDup (keys d) → (k, v) ∈ d → dict_get d k = Some v.
Proof.
  induction d as [|[k0 v0] d IH]; simpl; intros Hnd Hin.
  - by apply elem_of_nil in Hin.
  - apply NoDup_cons in Hnd as [Hk0 Hnd].
    apply elem_of_cons in Hin as [[= -> ->]|Hin].
    + by rewrite String.eqb_refl.
    + destruct (String.eqb k0 k) eqn:E; [|by apply IH].
      apply String.eqb_eq in E as ->. exfalso. apply Hk0.
      apply list_elem_of_fmap. by exists (k, v).
Qed.

Lemma thermo_of_inv tbl comp sp st :
  thermo_of tbl comp sp = Some st →
  st_name st = sp ∧ dict_get comp sp = Some (st_w st)
  ∧ dict_get (MW_list tbl) sp = Some (st_MW st).
Proof.
  unfold thermo_of. intros H.
  repeat (apply bind_Some in H as (? & ? & H)). by simplify_eq.
Qed.

Lemma sum_list_app v w : sum_list (v ++ w) = sum_list v + sum_list w.
Proof. induction v as [|x v IH]; simpl; [lra | rewrite IH; lra]. Qed.

Lemma sum_list_div (v : list R) t :
  sum_list (map (λ x, x / t) v) = sum_list v / t.
Proof. induction v as [|x v IH]; simpl; [lra | rewrite IH; lra]. Qed.

Lemma sum_list_nonneg (v : list R) : Forall (λ x, 0 <= x) v → 0 <= sum_list v.
Proof. induction 1; simpl; lra. Qed.

Lemma sum_list_pos (v : list R) x :
  Forall (λ x, 0 <= x) v → x ∈ v → 0 < x → 0 < sum_list v.
Proof.
  intros Hv Hin Hx. induction Hv as [|y v Hy Hv IH]; simpl.
  - by apply elem_of_nil in Hin.
  - pose proof (sum_list_nonneg v Hv).
    apply elem_of_cons in Hin as [->|Hin]; [lra|]. specialize (IH Hin). lra.
Qed.

(** What [mol_frac_and_cp] stores for a stream. *)
Lemma mol_frac_and_cp_stream s s' i :
  mol_frac_and_cp s = Some s' →
  ∃ species,
    mapM (thermo_of (tables s) (composition (stream_in s i)))
         (keys (composition (stream_in s i))) = Some species
    ∧ molefrac s' i
      = zip (map st_name species)
            (map (λ sp, nmol sp / sum_list (map nmol species)) species)
    ∧ MW s' i
      = foldl (λ acc sp, acc + nmol sp / sum_list (map nmol species) * st_MW sp)
              0 species.
Proof.
  unfold mol_frac_and_cp. intros H.
  apply bind_Some in H as (sr & Hr & H).
  apply bind_Some in H as (su & Hu & H).
  apply bind_Some in H as (sf & Hf & H).
  injection H as <-.
  destruct i; eexists; (split; [eassumption|]); by split.
Qed.

(** C7 (mole-fraction normalization).  For each stream whose composition
    has non-negative mass fractions, one of them positive, over species of
    positive molecular weight, the mole fractions stored by
    [mol_frac_and_cp] are non-negative and sum to 1. *)
Theorem molefrac_normalized (s s' : PCHE) (i : stream_id) :
  mol_frac_and_cp s = Some s' →
  NoDup (keys (composition (stream_in s i))) →
  (∀ k w, (k, w) ∈ composition (stream_in s i) → 0 <= w) →
  (∃ k w, (k, w) ∈ composition (stream_in s i) ∧ 0 < w) →
  (∀ k w mw, (k, w) ∈ composition (stream_in s i) →
             dict_get (MW_list (tables s)) k = Some mw → 0 < mw) →
  Forall (λ kx : string * R, 0 <= kx.2) (molefrac s' i)
  ∧ sum_list (map snd (molefrac s' i)) = 1.
Proof.
  intros Hs' Hnd Hw (k1 & w1 & Hin1 & Hpos1) Hmw.
  destruct (mol_frac_and_cp_stream s s' i Hs') as (species & Hsp & Hmf & _).
  rewrite Hmf. clear Hmf Hs'.
  apply mapM_Some in Hsp.
  set (comp := composition (stream_in s i)) in *.
  assert (Hnm : Forall (λ x, 0 <= x) (map nmol species)).
  { apply Forall_fmap, Forall_forall. intros sp Hin.
    apply list_elem_of_lookup in Hin as [j Hj].
    destruct (Forall2_lookup_r _ _ _ _ _ Hsp Hj) as (k & Hk & Hth).
    apply thermo_of_inv in Hth as (_ & Hgw & Hgm).
    apply dict_get_elem_of in Hgw.
    pose proof (Hw _ _ Hgw) as Hw0. pose proof (Hmw _ _ _ Hgw Hgm) as Hmw0.
    unfold nmol. apply Rmult_le_pos; [done|].
    by apply Rlt_le, Rinv_0_lt_compat. }
  assert (Htot : 0 < sum_list (map nmol species)).
  { assert (Hk1 : k1 ∈ keys comp)
      by (apply list_elem_of_fmap; by exists (k1, w1)).
    apply list_elem_of_lookup in Hk1 as [j Hj].
    destruct (Forall2_lookup_l _ _ _ _ _ Hsp Hj) as (sp & Hspj & Hth).
    apply thermo_of_inv in Hth as (_ & Hgw & Hgm).
    rewrite (dict_get_NoDup comp k1 w1 Hnd Hin1) in Hgw.
    injection Hgw as Hgw.
    apply (sum_list_pos _ (nmol sp)); [done | |].
    - apply list_elem_of_fmap. exists sp. split; [done|].
      apply list_elem_of_lookup. by exists j.
    - unfold nmol. rewrite <- Hgw.
      apply Rdiv_lt_0_compat; [done|]. by eapply Hmw. }
  assert (Hlen : length (map st_name species)
                 = length (map (λ sp, nmol sp / sum_list (map nmol species))
                               species))
    by (by rewrite !length_map).
  split.
  - apply Forall_forall. intros [k x] Hin. simpl.
    apply elem_of_zip_r in Hin.
    apply list_elem_of_fmap in Hin as (sp & -> & Hin).
    apply Rmult_le_pos; [|by apply Rlt_le, Rinv_0_lt_compat].
    rewrite Forall_forall in Hnm. apply Hnm.
    apply list_elem_of_fmap. by exists sp.
  - rewrite snd_zip by lia.
    rewrite <- (map_map nmol (λ x, x / sum_list (map nmol species))).
    rewrite sum_list_div. field. lra.
Qed.

(** ** Heat exchange between adjacent entities *)

(** The summands of [exchange] add up to the source expressions. *)
Lemma Q_exchange (s : PCHE) (r c : nat) (p : pass) :
  Q_fluid_cell p s r c
  = sum_passes (λ q, exchange s r c (Fluid p) (Plate q))
  ∧ Q_plate_cell p s r c + Q_interplate_cell p s r c
    = sum_passes (λ q, exchange s r c (Plate p) (Fluid q))
      + sum_passes (λ q, exchange s r c (Plate p) (Plate q)).
Proof.
  destruct p;
    unfold Q_fluid_cell, Q_plate_cell, Q_interplate_cell, sum_passes, exchange;
    split; ring.
Qed.

Lemma arr_set_arr_other a p v s a' p' :
  attr_eqb a' a = false → arr (set_arr a p v s) a' p' = arr s a' p'.
Proof. intros H. cbn [arr set_arr]. by rewrite H. Qed.

Lemma arr_set_arr_same a p v s p' :
  arr (set_arr a p v s) a p'
  = if pass_eqb p' p then v else arr s a p'.
Proof.
  cbn [arr set_arr]. unfold attr_eqb. by rewrite Nat.eqb_refl.
Qed.

Lemma pass_eqb_eq p q : pass_eqb p q = true → p = q.
Proof. destruct p, q; simplify_eq/=; done. Qed.

Lemma dimensions_assign_each a e s :
  dimensions (assign_each a e s) = dimensions s.
Proof. reflexivity. Qed.

Lemma rows_assign_each a e s : rows (assign_each a e s) = rows s.
Proof. reflexivity. Qed.

Lemma columns_assign_each a e s : columns (assign_each a e s) = columns s.
Proof. reflexivity. Qed.

(** [assign_each] for expressions that read the assigned attribute, if at
    all, only at the pass being assigned. *)
Lemma assign_each_arr a e s :
  (∀ p q v s' r c, q ≠ p → e p (set_arr a q v s') r c = e p s' r c) →
  ∀ p, arr (assign_each a e s) a p
       = elementwise (rows s) (columns s) (e p s).
Proof.
  intros He p. unfold assign_each.
  rewrite !arr_set_arr_same, !rows_set_arr, !columns_set_arr.
  destruct p; cbn [pass_eqb pass_index Nat.eqb];
    apply elementwise_ext; intros r c; rewrite ?He by discriminate;
    reflexivity.
Qed.

Lemma assign_each_other a e s a' p :
  attr_eqb a' a = false → arr (assign_each a e s) a' p = arr s a' p.
Proof. intros Ha. unfold assign_each. by rewrite !arr_set_arr_other. Qed.

(** The geometry is a function of the dimensions. *)
Lemma geometry_eq s s' :
  dimensions s = dimensions s' →
  hx_area_1 s = hx_area_1 s' ∧ hx_area_2 s = hx_area_2 s'
  ∧ hx_area_3 s = hx_area_3 s' ∧ hx_area_4 s = hx_area_4 s'
  ∧ hx_area_5 s = hx_area_5 s' ∧ hx_area_6 s = hx_area_6 s'.
Proof.
  intros Hd.
  unfold hx_area_2, hx_area_5, hx_area_1, hx_area_3, hx_area_4, hx_area_6,
    deltax, deltaz.
  by rewrite Hd.
Qed.

(** The cell expressions of the heat-transfer block read the temperatures
    and the convective coefficients only. *)
Lemma Q_cells_eq s s' p r c :
  dimensions s = dimensions s' →
  (∀ q, arr s f_T q = arr s' f_T q) →
  (∀ q, arr s f_plate_T q = arr s' f_plate_T q) →
  (∀ q, arr s f_h q = arr s' f_h q) →
  Q_fluid_cell p s r c = Q_fluid_cell p s' r c
  ∧ Q_plate_cell p s r c = Q_plate_cell p s' r c
  ∧ Q_interplate_cell p s r c = Q_interplate_cell p s' r c.
Proof.
  intros Hd HT HpT Hh.
  destruct (geometry_eq s s' Hd) as (A1 & A2 & A3 & A4 & A5 & A6).
  unfold Q_fluid_cell, Q_plate_cell, Q_interplate_cell.
  rewrite !HT, !HpT, !Hh, A1, A2, A3, A4, A5, A6. done.
Qed.

Lemma Q_fluid_cell_set a q v s p r c :
  attr_eqb f_T a = false → attr_eqb f_plate_T a = false →
  attr_eqb f_h a = false →
  Q_fluid_cell p (set_arr a q v s) r c = Q_fluid_cell p s r c
  ∧ Q_plate_cell p (set_arr a q v s) r c = Q_plate_cell p s r c
  ∧ Q_interplate_cell p (set_arr a q v s) r c = Q_interplate_cell p s r c.
Proof.
  intros HT HpT Hh. apply Q_cells_eq; [done|..];
    intros q'; by rewrite arr_set_arr_other.
Qed.

Lemma Q_cell_assign_each a e s p r c :
  attr_eqb f_T a = false → attr_eqb f_plate_T a = false →
  attr_eqb f_h a = false →
  Q_fluid_cell p (assign_each a e s) r c = Q_fluid_cell p s r c
  ∧ Q_plate_cell p (assign_each a e s) r c = Q_plate_cell p s r c
  ∧ Q_interplate_cell p (assign_each a e s) r c = Q_interplate_cell p s r c.
Proof.
  intros HT HpT Hh. apply Q_cells_eq; [apply dimensions_assign_each|..];
    intros q'; by rewrite assign_each_other.
Qed.


Lemma add_interplate_set p q v s r c :
  q ≠ p →
  add_interplate p (set_arr f_Q_plate q v s) r c = add_interplate p s r c.
Proof.
  intros Hq. unfold add_interplate.
  destruct (Q_fluid_cell_set f_Q_plate q v s p r c) as (_ & _ & ->);
    [done..|].
  rewrite arr_set_arr_same.
  destruct (pass_eqb p q) eqn:E; [by apply pass_eqb_eq in E|done].
Qed.

Lemma heat_transfer_unfold s :
  heat_transfer s
  = assign_each f_Q_plate add_interplate
      (assign_each f_Q_plate Q_plate_cell
         (assign_each f_Q_fluid Q_fluid_cell s)).
Proof. reflexivity. Qed.

(** The heat rates stored by the heat-transfer block of [transient_solver]. *)
Lemma heat_transfer_cells (s : PCHE) (p : pass) (r c : nat) :
  (r < rows s)%nat → (c < columns s)%nat →
  (arr (heat_transfer s) f_Q_fluid p).[r, c] = Q_fluid_cell p s r c
  ∧ (arr (heat_transfer s) f_Q_plate p).[r, c]
    = Q_plate_cell p s r c + Q_interplate_cell p s r c.
Proof.
  intros Hr Hc. rewrite heat_transfer_unfold.
  set (s1 := assign_each f_Q_fluid Q_fluid_cell s).
  set (s2 := assign_each f_Q_plate Q_plate_cell s1).
  assert (R1 : rows s1 = rows s) by apply rows_assign_each.
  assert (K1 : columns s1 = columns s) by apply columns_assign_each.
  assert (R2 : rows s2 = rows s1) by apply rows_assign_each.
  assert (K2 : columns s2 = columns s1) by apply columns_assign_each.
  assert (F : ∀ q, arr s1 f_Q_fluid q
                   = elementwise (rows s) (columns s) (Q_fluid_cell q s)).
  { apply assign_each_arr. intros q q' v s' r' c' _.
    by apply Q_fluid_cell_set. }
  assert (G : ∀ q, arr s2 f_Q_plate q
                   = elementwise (rows s) (columns s) (Q_plate_cell q s1)).
  { intros q. rewrite <- R1, <- K1. apply assign_each_arr.
    intros q1 q' v s' r' c' _. by apply Q_fluid_cell_set. }
  destruct (Q_cell_assign_each f_Q_fluid Q_fluid_cell s p r c)
    as (_ & E2 & E3); [done..|].
  destruct (Q_cell_assign_each f_Q_plate Q_plate_cell s1 p r c)
    as (_ & _ & E3'); [done..|].
  subst s1 s2. split.
  - rewrite !assign_each_other by done. rewrite F.
    by apply at_elementwise.
  - rewrite assign_each_arr
      by (intros; by apply add_interplate_set).
    rewrite R2, K2, R1, K1.
    rewrite at_elementwise by done. unfold add_interplate.
    rewrite G, at_elementwise by done.
    by rewrite E3', E3, E2.
Qed.

(** Every pair whose two sides use one coefficient and one area cancels. *)
Lemma exchange_balanced (s : PCHE) (r c : nat) (x y : entity) :
  balanced_pair x y = true →
  exchange s r c x y = - exchange s r c y x.
Proof.
  destruct x as [[]|[]], y as [[]|[]]; cbn [balanced_pair];
    intros H; try discriminate H; unfold exchange; ring.
Qed.

(** The three pairs that do not cancel: the fluid of pass 5 and utility
    plate 5 ([hx_area_5] on the fluid side, [hx_area_1] on the plate side),
    and utility plate 5 with utility plate 1 and with reactant plate 4
    ([hx_area_5] on the side of plate 5, [hx_area_2] on the other). *)
Lemma exchange_imbalance (s : PCHE) (r c : nat) :
  exchange s r c (Fluid utility5) (Plate utility5)
  + exchange s r c (Plate utility5) (Fluid utility5)
  = (arr s f_h utility5).[r, c] * (hx_area_5 s - hx_area_1 s)
    * ((arr s f_plate_T utility5).[r, c] - (arr s f_T utility5).[r, c])
  ∧ exchange s r c (Plate utility1) (Plate utility5)
    + exchange s r c (Plate utility5) (Plate utility1)
    = metalk * (hx_area_2 s - hx_area_5 s)
      * ((arr s f_plate_T utility5).[r, c] - (arr s f_plate_T utility1).[r, c])
  ∧ exchange s r c (Plate reactant4) (Plate utility5)
    + exchange s r c (Plate utility5) (Plate reactant4)
    = metalk * (hx_area_2 s - hx_area_5 s)
      * ((arr s f_plate_T utility5).[r, c] - (arr s f_plate_T reactant4).[r, c]).
Proof. unfold exchange. repeat split; ring. Qed.

(** ** What a call of the right-hand side reads and writes *)



Lemma agree_weaken est est' mix mix' s1 s2 :
  (∀ a p, est' a p = true → est a p = true) →
  (mix' = true → mix = true) →
  agree est mix s1 s2 → agree est' mix' s1 s2.
Proof.
  intros He Hm (Hr & Hu & Hf & Hd & Ht & Harr & Hmix).
  do 5 (split; [done|]). split; [|by auto].
  intros a p Ha. apply Harr. by apply He.
Qed.

Lemma agree_refl est mix s : agree est mix s s.
Proof. by repeat split. Qed.

Lemma agree_sym est mix s1 s2 : agree est mix s1 s2 → agree est mix s2 s1.
Proof.
  intros (Hr & Hu & Hf & Hd & Ht & Harr & Hmix).
  do 5 (split; [done|]). split.
  - intros a p Ha. symmetry. by apply Harr.
  - intros Hm i. destruct (Hmix Hm i). by split.
Qed.

Lemma agree_trans est mix s1 s2 s3 :
  agree est mix s1 s2 → agree est mix s2 s3 → agree est mix s1 s3.
Proof.
  intros (Hr & Hu & Hf & Hd & Ht & Harr & Hmix)
         (Hr' & Hu' & Hf' & Hd' & Ht' & Harr' & Hmix').
  do 5 (split; [congruence|]). split.
  - intros a p Ha. rewrite Harr by done. by apply Harr'.
  - intros Hm i. destruct (Hmix Hm i), (Hmix' Hm i). split; congruence.
Qed.

Lemma agree_rows est mix s1 s2 :
  agree est mix s1 s2 → rows s1 = rows s2 ∧ columns s1 = columns s2.
Proof. intros (_ & _ & _ & Hd & _). unfold rows, columns. by rewrite Hd. Qed.

Lemma attr_eqb_eq a b : attr_eqb a b = true → a = b.
Proof.
  unfold attr_eqb. intros H. apply Nat.eqb_eq in H.
  destruct a as [| | |[]| | | | | | | | | | | |],
           b as [| | |[]| | | | | | | | | | | |]; simplify_eq/=; done.
Qed.

Lemma assign_each_agree a e est mix s1 s2 :
  (∀ p q v s' r c, q ≠ p → e p (set_arr a q v s') r c = e p s' r c) →
  (∀ p r c, e p s1 r c = e p s2 r c) →
  agree est mix s1 s2 →
  agree (λ a' p', attr_eqb a' a || est a' p') mix
        (assign_each a e s1) (assign_each a e s2).
Proof.
  intros Hind He Hag. pose proof (agree_rows _ _ _ _ Hag) as [Hrows Hcols].
  destruct Hag as (Hr & Hu & Hf & Hd & Ht & Harr & Hmix).
  do 5 (split; [done|]). split; [|done].
  intros a' p' Hor. destruct (attr_eqb a' a) eqn:E.
  - apply attr_eqb_eq in E as ->.
    rewrite !assign_each_arr by done. rewrite Hrows, Hcols.
    apply elementwise_ext. apply He.
  - rewrite !assign_each_other by done. by apply Harr.
Qed.

(** The blocks of [transient_solver], one after the other. *)
Lemma store_T_agree est mix T s1 s2 :
  agree est mix s1 s2 →
  option_Forall2
    (agree (λ a p, attr_eqb a f_T || attr_eqb a f_plate_T || est a p) mix)
    (store_T T s1) (store_T T s2).
Proof.
  intros Hag. pose proof (agree_rows _ _ _ _ Hag) as [Hrows Hcols].
  destruct Hag as (Hr & Hu & Hf & Hd & Ht & Harr & Hmix).
  unfold store_T. rewrite Hrows, Hcols.
  destruct (unwrap_T (rows s2) (columns s2) T)
    as [[[[[[[[[[g1 g2] g3] g4] g5] g6] g7] g8] g9] g10]|];
    cbn [mbind option_bind]; constructor.
  do 5 (split; [done|]). split; [|done].
  intros a p Ha. cbn [arr set_arr].
  destruct a as [| | |[]| | | | | | | | | | | |];
    cbn [attr_eqb attr_index Nat.eqb andb orb] in *;
    try (by apply Harr); by destruct p.
Qed.

Lemma mol_frac_and_cp_agree est mix s1 s2 :
  (∀ p, est f_T p = true) →
  agree est mix s1 s2 →
  option_Forall2
    (agree (λ a p, match a with f_cp_a _ => true | _ => est a p end) true)
    (mol_frac_and_cp s1) (mol_frac_and_cp s2).
Proof.
  intros HT Hag. pose proof (agree_rows _ _ _ _ Hag) as [Hrows Hcols].
  destruct Hag as (Hr & Hu & Hf & Hd & Ht & Harr & Hmix).
  unfold mol_frac_and_cp, stream_in. rewrite Hr, Hu, Hf, Ht, Hrows, Hcols.
  destruct (mapM _ (keys (composition (reactant s2)))) as [sr|];
    cbn [mbind option_bind]; [|constructor].
  destruct (mapM _ (keys (composition (utility s2)))) as [su|];
    cbn [mbind option_bind]; [|constructor].
  destruct (mapM _ (keys (composition (fuel s2)))) as [sf|];
    cbn [mbind option_bind]; constructor.
  do 5 (split; [done|]). split; [|done].
  intros a p Ha. cbn [arr].
  destruct a; try (by apply Harr).
  apply elementwise_ext. intros r c. by rewrite !Harr by apply HT.
Qed.


Lemma update_property_agree p est s1 s2 :
  est f_P p = true → est f_T p = true →
  (∀ k, est (f_cp_a k) p = true) →
  agree est true s1 s2 →
  option_Forall2
    (agree (λ a q, is_property a && pass_eqb q p || est a q) true)
    (update_property p s1) (update_property p s2).
Proof.
  intros HP HT Hcp Hag. pose proof (agree_rows _ _ _ _ Hag) as [Hrows Hcols].
  destruct Hag as (Hr & Hu & Hf & Hd & Ht & Harr & Hmix).
  specialize (Hmix eq_refl).
  assert (Hmf : ∀ i, molefrac s1 i = molefrac s2 i) by (intros i; apply Hmix).
  assert (Hmw : ∀ i, MW s1 i = MW s2 i) by (intros i; apply Hmix).
  unfold update_property, properties, stream_in.
  cbn [tables set_arr molefrac MW].
  rewrite !rows_set_arr, !columns_set_arr.
  rewrite Hr, Hu, Hf, Ht, Hrows, Hcols, !Hmf, !Hmw.
  rewrite (Harr f_P p HP), (Harr f_T p HT), !(Harr (f_cp_a _) p (Hcp _)).
  destruct (mapM _ _) as [species|]; cbn [mbind option_bind]; constructor.
  do 5 (split; [done|]). split; [|done].
  intros a q Ha. cbn [arr set_arr].
  destruct a as [| | |[]| | | | | | | | | | | |];
    cbn [attr_eqb attr_index Nat.eqb andb orb is_property] in *;
    try (by apply Harr);
    (destruct (pass_eqb q p); cbn [orb andb] in *; [done | by apply Harr]).
Qed.


Lemma update_property_done p k est s1 s2 :
  pass_index p = S k →
  (∀ a p, upto 7 a p = true → est a p = true) →
  agree (properties_done k est) true s1 s2 →
  option_Forall2 (agree (properties_done (S k) est) true)
    (update_property p s1) (update_property p s2).
Proof.
  intros Hp Hest Hag.
  assert (Hup : ∀ a q, upto 7 a q = true → properties_done k est a q = true).
  { intros a q Ha. unfold properties_done. rewrite (Hest a q Ha).
    apply orb_true_r. }
  pose proof (update_property_agree p _ _ _
    (Hup f_P p eq_refl) (Hup f_T p eq_refl)
    (λ c, Hup (f_cp_a c) p ltac:(by destruct c)) Hag) as H.
  destruct H as [t t' H|]; constructor.
  eapply agree_weaken; [|done|exact H].
  intros a q. unfold properties_done.
  destruct (is_property a); cbn [andb orb]; [|done].
  destruct (est a q); [by rewrite !orb_true_r|]. rewrite !orb_false_r.
  destruct p, q; simplify_eq/=; try done; destruct k; try done.
Qed.

Lemma update_properties_agree est s1 s2 :
  (∀ a p, upto 7 a p = true → est a p = true) →
  agree est true s1 s2 →
  option_Forall2 (agree (λ a p, is_property a || est a p) true)
    (update_properties s1) (update_properties s2).
Proof.
  intros Hest Hag. unfold update_properties.
  assert (H0 : agree (properties_done 0 est) true s1 s2).
  { eapply agree_weaken; [|done|exact Hag].
    intros a p. unfold properties_done.
    destruct (is_property a), p; cbn; done. }
  destruct (update_property_done utility1 0 est _ _ eq_refl Hest H0)
    as [t1 t1' H1|]; cbn [mbind option_bind]; [|constructor].
  destruct (update_property_done reactant2 1 est _ _ eq_refl Hest H1)
    as [t2 t2' H2|]; cbn [mbind option_bind]; [|constructor].
  destruct (update_property_done fuel3 2 est _ _ eq_refl Hest H2)
    as [t3 t3' H3|]; cbn [mbind option_bind]; [|constructor].
  destruct (update_property_done reactant4 3 est _ _ eq_refl Hest H3)
    as [t4 t4' H4|]; cbn [mbind option_bind]; [|constructor].
  destruct (update_property_done utility5 4 est _ _ eq_refl Hest H4)
    as [t5 t5' H5|]; constructor.
  eapply agree_weaken; [|done|exact H5].
  intros a p. unfold properties_done.
  destruct (is_property a), p; cbn; done.
Qed.

Ltac agree_records Hag s1 s2 :=
  let Hr := fresh "Hr" in let Hu := fresh "Hu" in let Hf := fresh "Hf" in
  let Hd := fresh "Hd" in let Ht := fresh "Ht" in
  let Harr := fresh "Harr" in let Hmix := fresh "Hmix" in
  destruct Hag as (Hr & Hu & Hf & Hd & Ht & Harr & Hmix);
  destruct s1, s2;
  cbn [reactant utility fuel dimensions tables arr molefrac MW] in *;
  subst.

Ltac state_simpl :=
  cbn [arr set_arr reactant utility fuel dimensions tables molefrac MW
       attr_eqb pass_eqb attr_index pass_index Nat.eqb andb orb].

Lemma bulk_velocity_agree est mix s1 s2 :
  (∀ p, est f_rho p = true) →
  agree est mix s1 s2 →
  agree (λ a p, attr_eqb a f_u || est a p) mix
        (bulk_velocity s1) (bulk_velocity s2).
Proof.
  intros Hest Hag. apply assign_each_agree; [by intros [] | | done].
  intros p r c. agree_records Hag s1 s2.
  unfold bulk_velocity_cell. state_simpl.
  rewrite !Harr by apply Hest. reflexivity.
Qed.

Lemma Prandtl_Reynolds_agree est mix s1 s2 :
  (∀ p, est f_mu p = true) → (∀ p, est f_cp p = true) →
  (∀ p, est f_k p = true) → (∀ p, est f_rho p = true) →
  (∀ p, est f_u p = true) →
  agree est mix s1 s2 →
  agree (λ a p, attr_eqb a f_Re || (attr_eqb a f_Pr || est a p)) mix
        (Prandtl_Reynolds s1) (Prandtl_Reynolds s2).
Proof.
  intros Hmu Hcp Hk Hrho Hu Hag. unfold Prandtl_Reynolds.
  apply assign_each_agree; [by intros [] | |].
  - intros p r c. rewrite !assign_each_other by done.
    unfold dh, utility_dh, reactant_dh, fuel_dh, reactant_dh.
    agree_records Hag s1 s2. state_simpl.
    rewrite !Harr by auto. reflexivity.
  - apply assign_each_agree; [by intros [] | | done].
    intros p r c. agree_records Hag s1 s2. state_simpl.
    rewrite !Harr by auto. reflexivity.
Qed.

Lemma ff_Nu_agree est mix s1 s2 p :
  est f_mu p = true → est f_Re p = true → est f_Pr p = true →
  agree est mix s1 s2 → ff_Nu p s1 = ff_Nu p s2.
Proof.
  intros Hmu HRe HPr Hag.
  pose proof (agree_rows _ _ _ _ Hag) as [Hrows Hcols].
  unfold ff_Nu. rewrite Hrows, Hcols.
  assert (HL : ∀ r c, Lplus_cell p s1 r c = Lplus_cell p s2 r c).
  { intros r c. unfold Lplus_cell, reactant_L, utility_L, fuel_L, reactant_L.
    rewrite Hrows, Hcols. unfold deltax, deltaz.
    destruct Hag as (Hr & Hu & Hf & Hd & Ht & Harr & Hmix).
    rewrite Hr, Hu, Hf, Hd, (Harr f_mu p Hmu). reflexivity. }
  assert (Hz : ∀ r c, zstar_cell p s1 r c = zstar_cell p s2 r c).
  { intros r c.
    unfold zstar_cell, reactant_L, utility_L, fuel_L, reactant_L,
      fuel_dh, reactant_dh.
    rewrite Hrows, Hcols. unfold deltax, deltaz.
    destruct Hag as (Hr & Hu & Hf & Hd & Ht & Harr & Hmix).
    rewrite Hd, (Harr f_Re p HRe), (Harr f_Pr p HPr). reflexivity. }
  destruct Hag as (Hr & Hu & Hf & Hd & Ht & Harr & Hmix).
  rewrite (Harr f_Re p HRe), (Harr f_Pr p HPr).
  apply f_equal2; apply elementwise_ext; intros r c;
    rewrite HL, ?Hz; reflexivity.
Qed.




Lemma friction_step_eq p s :
  (let '(frictionfactor, nusselt) := ff_Nu p s in
   set_arr f_Nu p nusselt (set_arr f_f p frictionfactor s))
  = friction_step p s.
Proof. unfold friction_step. by destruct (ff_Nu p s). Qed.

Lemma update_friction_steps s :
  update_friction s
  = friction_step utility5 (friction_step reactant4 (friction_step fuel3
      (friction_step reactant2 (friction_step utility1 s)))).
Proof.
  unfold update_friction. cbv beta zeta.
  rewrite (friction_step_eq utility1 s).
  rewrite (friction_step_eq reactant2).
  rewrite (friction_step_eq fuel3).
  rewrite (friction_step_eq reactant4).
  rewrite (friction_step_eq utility5).
  reflexivity.
Qed.

Lemma friction_step_done p k est mix s1 s2 :
  pass_index p = S k →
  (∀ q, est f_mu q = true) → (∀ q, est f_Re q = true) →
  (∀ q, est f_Pr q = true) →
  agree (friction_done k est) mix s1 s2 →
  agree (friction_done (S k) est) mix (friction_step p s1) (friction_step p s2).
Proof.
  intros Hp Hmu HRe HPr Hag. unfold friction_step.
  rewrite (ff_Nu_agree (friction_done k est) mix s1 s2 p);
    [ | by (unfold friction_done; rewrite ?Hmu, ?HRe, ?HPr, ?orb_true_r)..
      | done].
  destruct Hag as (Hr & Hu & Hf & Hd & Ht & Harr & Hmix).
  do 5 (split; [done|]). split; [|done].
  intros a q Ha. cbn [arr set_arr].
  unfold friction_done in *.
  destruct a as [| | |[]| | | | | | | | | | | |];
    cbn [attr_eqb attr_index Nat.eqb andb orb is_friction] in *;
    try (by apply Harr);
    (destruct (pass_eqb q p) eqn:E; [done|]; apply Harr;
     destruct (est _ q); [by rewrite orb_true_r|];
     rewrite orb_false_r in *;
     destruct p, q; simplify_eq/=; try done; destruct k; done).
Qed.

Lemma update_friction_agree est mix s1 s2 :
  (∀ q, est f_mu q = true) → (∀ q, est f_Re q = true) →
  (∀ q, est f_Pr q = true) →
  agree est mix s1 s2 →
  agree (λ a p, is_friction a || est a p) mix
        (update_friction s1) (update_friction s2).
Proof.
  intros Hmu HRe HPr Hag. rewrite !update_friction_steps.
  assert (H0 : agree (friction_done 0 est) mix s1 s2).
  { eapply agree_weaken; [| |exact Hag]; [|done].
    intros a p. unfold friction_done.
    destruct (is_friction a), p; cbn; done. }
  pose proof (friction_step_done utility1 0 est mix _ _ eq_refl
                Hmu HRe HPr H0) as H1.
  pose proof (friction_step_done reactant2 1 est mix _ _ eq_refl
                Hmu HRe HPr H1) as H2.
  pose proof (friction_step_done fuel3 2 est mix _ _ eq_refl
                Hmu HRe HPr H2) as H3.
  pose proof (friction_step_done reactant4 3 est mix _ _ eq_refl
                Hmu HRe HPr H3) as H4.
  pose proof (friction_step_done utility5 4 est mix _ _ eq_refl
                Hmu HRe HPr H4) as H5.
  eapply agree_weaken; [| |exact H5]; [|done].
  intros a p. unfold friction_done.
  destruct (is_friction a), p; cbn; done.
Qed.

Lemma convective_coefficients_agree est mix s1 s2 :
  (∀ p, est f_Nu p = true) → (∀ p, est f_k p = true) →
  agree est mix s1 s2 →
  agree (λ a p, attr_eqb a f_h || est a p) mix
        (convective_coefficients s1) (convective_coefficients s2).
Proof.
  intros HNu Hk Hag. apply assign_each_agree; [by intros [] | | done].
  intros p r c. unfold dh, utility_dh, reactant_dh, fuel_dh, reactant_dh.
  agree_records Hag s1 s2. state_simpl.
  rewrite !Harr by auto. reflexivity.
Qed.

Lemma heat_transfer_agree est mix s1 s2 :
  (∀ p, est f_T p = true) → (∀ p, est f_plate_T p = true) →
  (∀ p, est f_h p = true) →
  agree est mix s1 s2 →
  agree (λ a p, attr_eqb a f_Q_plate || (attr_eqb a f_Q_fluid || est a p)) mix
        (heat_transfer s1) (heat_transfer s2).
Proof.
  intros HT HpT Hh Hag. unfold heat_transfer.
  assert (Hgeo : ∀ A, (A = hx_area_1 ∨ A = hx_area_2 ∨ A = hx_area_3
                       ∨ A = hx_area_4 ∨ A = hx_area_5 ∨ A = hx_area_6) →
                      A s1 = A s2).
  { destruct Hag as (_ & _ & _ & Hd & _).
    intros A [->|[->|[->|[->|[->| ->]]]]];
      unfold hx_area_1, hx_area_2, hx_area_3, hx_area_4, hx_area_5,
        hx_area_6, hx_area_1, hx_area_4, deltax, deltaz; by rewrite Hd. }
  assert (H1 : agree (λ a p, attr_eqb a f_Q_fluid || est a p) mix
                 (assign_each f_Q_fluid Q_fluid_cell s1)
                 (assign_each f_Q_fluid Q_fluid_cell s2)).
  { apply assign_each_agree; [by intros [] | | done].
    intros p r c. unfold Q_fluid_cell.
    destruct Hag as (Hr & Hu & Hf & Hd & Ht & Harr & Hmix).
    rewrite !Harr by auto. rewrite !Hgeo by tauto. reflexivity. }
  assert (H2 : agree (λ a p, attr_eqb a f_Q_plate
                             || (attr_eqb a f_Q_fluid || est a p)) mix
                 (assign_each f_Q_plate Q_plate_cell
                    (assign_each f_Q_fluid Q_fluid_cell s1))
                 (assign_each f_Q_plate Q_plate_cell
                    (assign_each f_Q_fluid Q_fluid_cell s2))).
  { apply assign_each_agree; [by intros [] | | done].
    intros p r c. unfold Q_plate_cell.
    rewrite !assign_each_other by done.
    destruct Hag as (Hr & Hu & Hf & Hd & Ht & Harr & Hmix).
    rewrite !Harr by auto.
    change (hx_area_1 (assign_each f_Q_fluid Q_fluid_cell ?s))
      with (hx_area_1 s).
    change (hx_area_3 (assign_each f_Q_fluid Q_fluid_cell ?s))
      with (hx_area_3 s).
    change (hx_area_4 (assign_each f_Q_fluid Q_fluid_cell ?s))
      with (hx_area_4 s).
    change (hx_area_6 (assign_each f_Q_fluid Q_fluid_cell ?s))
      with (hx_area_6 s).
    rewrite !Hgeo by tauto. reflexivity. }
  set (e3 := λ (p : pass) (s : PCHE) (r c : nat),
         (arr s f_Q_plate p).[r, c] + Q_interplate_cell p s r c).
  assert (Hind : ∀ p q v s' r c, q ≠ p →
            e3 p (set_arr f_Q_plate q v s') r c = e3 p s' r c).
  { intros p q v s' r c Hq. unfold e3, Q_interplate_cell.
    rewrite arr_set_arr_same.
    destruct (pass_eqb p q) eqn:E; [by apply pass_eqb_eq in E|].
    by destruct p. }
  set (t1 := assign_each f_Q_plate Q_plate_cell
               (assign_each f_Q_fluid Q_fluid_cell s1)) in *.
  set (t2 := assign_each f_Q_plate Q_plate_cell
               (assign_each f_Q_fluid Q_fluid_cell s2)) in *.
  assert (He : ∀ p r c, e3 p t1 r c = e3 p t2 r c).
  { intros p r c. unfold e3.
    destruct H2 as (_ & _ & _ & _ & _ & Harr & _).
    rewrite (Harr f_Q_plate p) by done. f_equal.
    unfold Q_interplate_cell, t1, t2.
    rewrite !assign_each_other by done.
    destruct Hag as (_ & _ & _ & _ & _ & Harr' & _).
    rewrite !Harr' by auto.
    change (hx_area_2 (assign_each ?a ?e (assign_each ?a' ?e' ?s)))
      with (hx_area_2 s).
    change (hx_area_5 (assign_each ?a ?e (assign_each ?a' ?e' ?s)))
      with (hx_area_5 s).
    rewrite !Hgeo by tauto. reflexivity. }
  pose proof (assign_each_agree f_Q_plate e3 _ mix t1 t2 Hind He H2) as H3.
  eapply agree_weaken; [| |exact H3]; [|done].
  intros a p Ha. cbn beta. rewrite Ha. apply orb_true_r.
Qed.

Lemma advective_transfer_agree est mix s1 s2 p :
  est f_T p = true → agree est mix s1 s2 →
  advective_transfer p s1 = advective_transfer p s2.
Proof.
  intros HT Hag. pose proof (agree_rows _ _ _ _ Hag) as [Hrows Hcols].
  destruct Hag as (Hr & Hu & Hf & Hd & Ht & Harr & Hmix).
  unfold advective_transfer.
  destruct p; rewrite (Harr f_T _ HT), ?Hr, ?Hu, ?Hf, Hrows, Hcols;
    reflexivity.
Qed.

Lemma intraplate_cond_agree est mix s1 s2 p :
  est f_plate_T p = true → agree est mix s1 s2 →
  intraplate_cond p s1 = intraplate_cond p s2.
Proof.
  intros HT Hag. pose proof (agree_rows _ _ _ _ Hag) as [Hrows Hcols].
  destruct Hag as (Hr & Hu & Hf & Hd & Ht & Harr & Hmix).
  unfold intraplate_cond, deltax, deltaz.
  rewrite (Harr f_plate_T _ HT), Hd, Hrows, Hcols. reflexivity.
Qed.

Lemma dTdt_fluid_agree est mix s1 s2 p :
  (∀ a, est a p = true) → agree est mix s1 s2 →
  dTdt_fluid p s1 = dTdt_fluid p s2.
Proof.
  intros Hest Hag. pose proof (agree_rows _ _ _ _ Hag) as [Hrows Hcols].
  unfold dTdt_fluid.
  rewrite (advective_transfer_agree est mix s1 s2 p) by done.
  destruct Hag as (Hr & Hu & Hf & Hd & Ht & Harr & Hmix).
  unfold Vcell, pitch, utility_Vcell, reactant_Vcell, fuel_Vcell,
    reactant_Vcell, utility_cs, reactant_cs, deltax, deltaz.
  rewrite !Harr by done. rewrite Hd, Hrows, Hcols. reflexivity.
Qed.

Lemma dTdt_plate_agree est mix s1 s2 p :
  (∀ a, est a p = true) → agree est mix s1 s2 →
  dTdt_plate p s1 = dTdt_plate p s2.
Proof.
  intros Hest Hag. pose proof (agree_rows _ _ _ _ Hag) as [Hrows Hcols].
  unfold dTdt_plate.
  rewrite (intraplate_cond_agree est mix s1 s2 p) by done.
  destruct Hag as (Hr & Hu & Hf & Hd & Ht & Harr & Hmix).
  unfold Plate_Vcell, utilityPlate_Vcell, reactantPlate_Vcell,
    fuelPlate_Vcell, reactantPlate_Vcell, utility_Vcell, reactant_Vcell,
    utility_cs, reactant_cs, deltax, deltay, deltaz.
  rewrite !Harr by done. rewrite Hd, Hrows, Hcols. reflexivity.
Qed.

Lemma derivative_agree est mix s1 s2 :
  (∀ a p, est a p = true) → agree est mix s1 s2 →
  derivative s1 = derivative s2.
Proof.
  intros Hest Hag. unfold derivative.
  rewrite !(dTdt_fluid_agree est mix s1 s2) by done.
  rewrite !(dTdt_plate_agree est mix s1 s2) by done.
  reflexivity.
Qed.


Lemma flow_blocks_agree t3 t3' :
  agree est3 true t3 t3' →
  agree est8 true
    (heat_transfer (convective_coefficients (update_friction
       (Prandtl_Reynolds (bulk_velocity t3)))))
    (heat_transfer (convective_coefficients (update_friction
       (Prandtl_Reynolds (bulk_velocity t3'))))).
Proof.
  intros H3.
  assert (H4 : agree est4 true (bulk_velocity t3) (bulk_velocity t3'))
    by (by apply (bulk_velocity_agree est3)).
  assert (H5 : agree est5 true (Prandtl_Reynolds (bulk_velocity t3))
                 (Prandtl_Reynolds (bulk_velocity t3')))
    by (by apply (Prandtl_Reynolds_agree est4)).
  assert (H6 : agree est6 true
                 (update_friction (Prandtl_Reynolds (bulk_velocity t3)))
                 (update_friction (Prandtl_Reynolds (bulk_velocity t3'))))
    by (by apply (update_friction_agree est5)).
  assert (H7 : agree est7 true
                 (convective_coefficients
                    (update_friction (Prandtl_Reynolds (bulk_velocity t3))))
                 (convective_coefficients
                    (update_friction (Prandtl_Reynolds (bulk_velocity t3')))))
    by (by apply (convective_coefficients_agree est6)).
  by apply (heat_transfer_agree est7).
Qed.

Lemma est8_all a p : est8 a p = true.
Proof. by destruct a as [| | |[]| | | | | | | | | | | |]. Qed.

Lemma est2_upto a p : upto 7 a p = true → est2 a p = true.
Proof. by destruct a as [| | |[]| | | | | | | | | | | |]. Qed.

Lemma fmap_snd_bind {A B : Type} (x : option B) (a : A) :
  snd <$> (d ← x; Some (a, d)) = x.
Proof. by destruct x. Qed.

Lemma fmap_over_bind {A B C : Type} (f : B → C) (g : A → option B)
    (x : option A) :
  f <$> (x ≫= g) = x ≫= (λ a, f <$> g a).
Proof. by destruct x. Qed.

Lemma bind_related {A B : Type} (Rel : A → A → Prop) (x y : option A)
    (f g : A → option B) :
  option_Forall2 Rel x y → (∀ a b, Rel a b → f a = g b) →
  x ≫= f = y ≫= g.
Proof. intros [a b Hab|] Hfg; [by apply Hfg | done]. Qed.

(** The vector returned by [transient_solver] depends on the state only
    through the configuration and the five pressure fields. *)
Lemma transient_solver_agree s1 s2 t T :
  agree (upto 0) false s1 s2 →
  snd <$> transient_solver s1 t T = snd <$> transient_solver s2 t T.
Proof.
  intros H0. unfold transient_solver.
  rewrite !fmap_over_bind.
  apply (bind_related (agree est1 false)); [by apply store_T_agree|].
  intros t1 t1' H1.
  rewrite !fmap_over_bind.
  apply (bind_related (agree est2 true));
    [by apply (mol_frac_and_cp_agree est1 false)|].
  intros t2 t2' H2.
  rewrite !fmap_over_bind.
  apply (bind_related (agree est3 true));
    [apply (update_properties_agree est2); [apply est2_upto | done]|].
  intros t3 t3' H3.
  rewrite !fmap_snd_bind.
  apply (derivative_agree est8 true _ _ est8_all
           (flow_blocks_agree t3 t3' H3)).
Qed.

(** ** Frame of a call: the configuration and the pressure fields *)

Lemma agree_upto n m mix mix' s1 s2 :
  (n ≤ m)%nat → (mix' = true → mix = true) →
  agree (upto m) mix s1 s2 → agree (upto n) mix' s1 s2.
Proof.
  intros Hnm Hmix. apply agree_weaken; [|done].
  unfold upto. intros a p Ha. apply Nat.leb_le. apply Nat.leb_le in Ha. lia.
Qed.

Lemma store_T_frame T s s' :
  store_T T s = Some s' → agree (upto 0) false s s'.
Proof.
  unfold store_T. intros H.
  apply bind_Some in H
    as ([[[[[[[[[g1 g2] g3] g4] g5] g6] g7] g8] g9] g10] & _ & H).
  injection H as <-.
  do 5 (split; [done|]). split; [|done].
  intros a p Ha. by destruct a as [| | |[]| | | | | | | | | | | |].
Qed.

Lemma mol_frac_and_cp_frame s s' :
  mol_frac_and_cp s = Some s' → agree (upto 2) false s s'.
Proof.
  unfold mol_frac_and_cp. intros H.
  apply bind_Some in H as (sr & _ & H).
  apply bind_Some in H as (su & _ & H).
  apply bind_Some in H as (sf & _ & H).
  injection H as <-.
  do 5 (split; [done|]). split; [|done].
  intros a p Ha. by destruct a as [| | |[]| | | | | | | | | | | |].
Qed.

Lemma update_property_frame p s s' :
  update_property p s = Some s' → agree (upto 7) true s s'.
Proof.
  unfold update_property, properties. intros H.
  apply bind_Some in H as ([s1 [mu k]] & H1 & H).
  apply bind_Some in H1 as (species & _ & H1).
  injection H1 as <- <- <-. injection H as <-.
  do 5 (split; [done|]). split; [|done].
  intros a q Ha. by destruct a as [| | |[]| | | | | | | | | | | |].
Qed.

Lemma update_properties_frame s s' :
  update_properties s = Some s' → agree (upto 7) true s s'.
Proof.
  unfold update_properties. intros H.
  apply bind_Some in H as (s1 & H1 & H).
  apply bind_Some in H as (s2 & H2 & H).
  apply bind_Some in H as (s3 & H3 & H).
  apply bind_Some in H as (s4 & H4 & H).
  apply update_property_frame in H1, H2, H3, H4, H.
  eauto using agree_trans.
Qed.

Lemma flow_blocks_frame s :
  agree (upto 11) true s
    (heat_transfer (convective_coefficients (update_friction
       (Prandtl_Reynolds (bulk_velocity s))))).
Proof.
  do 5 (split; [done|]). split; [|done].
  intros a p Ha. by destruct a as [| | |[]| | | | | | | | | | | |].
Qed.

Lemma transient_solver_frame s t T s' dTdt :
  transient_solver s t T = Some (s', dTdt) → agree (upto 0) false s s'.
Proof.
  unfold transient_solver. intros H.
  apply bind_Some in H as (s1 & H1 & H).
  apply bind_Some in H as (s2 & H2 & H).
  apply bind_Some in H as (s3 & H3 & H).
  apply bind_Some in H as (d & _ & H).
  injection H as <- <-.
  apply store_T_frame in H1.
  apply mol_frac_and_cp_frame, (agree_upto 0 2 false false) in H2;
    [|lia|done].
  apply update_properties_frame, (agree_upto 0 7 true false) in H3;
    [|lia|done].
  pose proof (agree_upto 0 11 true false _ _ ltac:(lia) ltac:(done)
                (flow_blocks_frame s3)).
  eauto using agree_trans.
Qed.

(** C10 (frame of the right-hand side).  A call of [transient_solver]
    that returns leaves the five stored pressure fields as they were,
    whatever the time and the state vector. *)
Theorem transient_solver_keeps_pressures (s : PCHE) (t : R) (T : list R) :
  match transient_solver s t T with
  | Some (s', _) => ∀ p, arr s' f_P p = arr s f_P p
  | None => True
  end.
Proof.
  destruct (transient_solver s t T) as [[s' dTdt]|] eqn:H; [|done].
  apply transient_solver_frame in H as (_ & _ & _ & _ & _ & Harr & _).
  intros p. symmetry. by apply Harr.
Qed.

Lemma after_calls_agree s s' :
  after_calls s s' → agree (upto 0) false s s'.
Proof.
  induction 1 as [|s1 s2 t T dTdt _ IH H]; [apply agree_refl|].
  eapply agree_trans; [exact IH|]. by eapply transient_solver_frame.
Qed.

(** C9 (determinism of the right-hand side).  Whatever calls of
    [transient_solver] an instance has been through, with whatever
    arguments, a call with the arguments [(t, T)] returns the vector that
    the same call returns on the instance as it was before them, and fails
    exactly when that call fails; in particular a call repeated at once
    returns the same vector. *)
Theorem transient_solver_deterministic (s s' : PCHE) (t : R) (T : list R) :
  after_calls s s' →
  snd <$> transient_solver s' t T = snd <$> transient_solver s t T.
Proof.
  intros H. symmetry. apply transient_solver_agree.
  by apply after_calls_agree.
Qed.

Corollary transient_solver_repeated s t T s1 dTdt :
  transient_solver s t T = Some (s1, dTdt) →
  ∃ s2, transient_solver s1 t T = Some (s2, dTdt).
Proof.
  intros H.
  pose proof (transient_solver_agree s1 s t T
                (agree_sym _ _ _ _ (transient_solver_frame _ _ _ _ _ H))) as Hd.
  rewrite H in Hd. cbn in Hd.
  destruct (transient_solver s1 t T) as [[s2 d2]|]; [|done].
  injection Hd as ->. by exists s2.
Qed.

(** ** Uniform grids and the example instances *)

Lemma full_shape n m x : has_shape n m (full n m x).
Proof.
  unfold full. split; [apply length_replicate|].
  apply Forall_replicate. apply length_replicate.
Qed.

Lemma cell_full n m x r c :
  (r < n)%nat → (c < m)%nat → cell (full n m x) r c = Some x.
Proof.
  intros Hr Hc. unfold cell, full.
  rewrite lookup_replicate_2 by done. simpl. by apply lookup_replicate_2.
Qed.

Lemma at_full n m x r c :
  (r < n)%nat → (c < m)%nat → (full n m x).[r, c] = x.
Proof. intros Hr Hc. unfold at_. by rewrite cell_full. Qed.

Lemma advective_transfer_spec_witness :
  ∃ deltaT, advective_transfer utility1 example_hot = Some deltaT
            ∧ cell deltaT 1 0 = Some 0.
Proof.
  destruct (advective_transfer_spec utility1 example_hot)
    as (deltaT & Hd & _ & Hc & _).
  - apply (full_shape 2 2).
  - repeat constructor.
  - repeat constructor.
  - exists deltaT. split; [exact Hd|].
    rewrite (Hc 1%nat 0%nat) by repeat constructor.
    change (on_inlet_edge utility1 1 0) with false.
    change (arr example_hot f_T utility1) with (full 2 2 1100).
    cbn [upstream flow_axis fst snd Nat.sub].
    rewrite !at_full by repeat constructor. f_equal. lra.
Defined.


(** C1, at an instance.  With the dimensions of the driver, unit
    convective coefficients and utility plate 5 at 710 K over a utility
    fluid at 700 K, the heat rate added to the fluid of pass 5 for its pair
    with utility plate 5 is [hx_area_5 * 10] while the heat rate added to
    the plate for the same pair is [- hx_area_1 * 10]: the two do not
    cancel. *)
Lemma heat_exchange_imbalance_example :
  exchange example_heat 0 0 (Fluid utility5) (Plate utility5) = 2.86e-5
  ∧ exchange example_heat 0 0 (Plate utility5) (Fluid utility5) = -3.9e-5
  ∧ exchange example_heat 0 0 (Fluid utility5) (Plate utility5)
    ≠ - exchange example_heat 0 0 (Plate utility5) (Fluid utility5).
Proof.
  assert (E1 : exchange example_heat 0 0 (Fluid utility5) (Plate utility5)
               = 2.86e-5).
  { unfold exchange.
    change (arr example_heat f_h utility5) with (full 2 2 1).
    change (arr example_heat f_plate_T utility5) with (full 2 2 710).
    change (arr example_heat f_T utility5) with (full 2 2 700).
    rewrite !at_full by repeat constructor.
    unfold hx_area_5, hx_area_4, deltax, deltaz.
    change (dimensions example_heat) with example_dims.
    unfold example_dims.
    cbn [utility_diameter reactant_diameter wall_thickness]. lra. }
  assert (E2 : exchange example_heat 0 0 (Plate utility5) (Fluid utility5)
               = -3.9e-5).
  { unfold exchange.
    change (arr example_heat f_h utility5) with (full 2 2 1).
    change (arr example_heat f_plate_T utility5) with (full 2 2 710).
    change (arr example_heat f_T utility5) with (full 2 2 700).
    rewrite !at_full by repeat constructor.
    unfold hx_area_1, deltaz.
    change (dimensions example_heat) with example_dims.
    unfold example_dims.
    cbn [utility_diameter reactant_diameter wall_thickness]. lra. }
  rewrite E1, E2. repeat split. lra.
Qed.

(** ** The first pressure update of an instance is cold *)

Lemma sum_list_replicate n x : sum_list (replicate n x) = INR n * x.
Proof.
  induction n as [|n IH]; [simpl; lra|].
  rewrite S_INR. cbn [replicate sum_list foldr]. fold (sum_list (replicate n x)).
  rewrite IH. lra.
Qed.

Lemma grid_sum_full n m x : grid_sum (full n m x) = INR n * (INR m * x).
Proof.
  unfold grid_sum, ravel, full. induction n as [|n IH]; [simpl; lra|].
  rewrite S_INR. cbn [replicate concat].
  rewrite sum_list_app, IH, sum_list_replicate. lra.
Qed.

Lemma length_ravel {A : Type} n m (g : grid A) :
  has_shape n m g → length (ravel g) = (n * m)%nat.
Proof.
  unfold ravel. intros [Hl Hf]. subst n.
  induction Hf as [|row g Hrow Hf IH]; [done|].
  cbn [concat length]. rewrite length_app, IH, Hrow. lia.
Qed.

Lemma grid_mean_full n m x :
  (0 < n)%nat → (0 < m)%nat → grid_mean (full n m x) = x.
Proof.
  intros Hn Hm. unfold grid_mean.
  rewrite grid_sum_full, (length_ravel n m) by apply full_shape.
  rewrite mult_INR.
  assert (0 < INR n) by (apply lt_0_INR; lia).
  assert (0 < INR m) by (apply lt_0_INR; lia).
  field. split; lra.
Qed.

Lemma is_cold_full s n m x :
  arr s f_P reactant2 = full n m x → (0 < n)%nat → (0 < m)%nat →
  is_cold s = Some true.
Proof.
  intros HP Hn Hm. unfold is_cold.
  rewrite HP, cell_full by done. cbn [mbind option_bind].
  rewrite grid_mean_full by done. by destruct (Req_dec_T x x).
Qed.

Lemma molefrac_normalized_witness :
  ∃ s', mol_frac_and_cp example = Some s'
        ∧ sum_list (map snd (molefrac s' Utility)) = 1.
Proof.
  destruct (mol_frac_and_cp example) as [s'|] eqn:E; [|discriminate E].
  exists s'. split; [reflexivity|].
  apply (molefrac_normalized example s' Utility E).
  - apply NoDup_singleton.
  - intros k w Hin. apply list_elem_of_singleton in Hin.
    injection Hin as _ ->. lra.
  - exists "CO2"%string, 1. split; [apply list_elem_of_singleton; reflexivity | lra].
  - intros k w mw Hin Hmw. apply list_elem_of_singleton in Hin.
    injection Hin as -> _. injection Hmw as <-. lra.
Defined.

(** C2, at an instance.  On a 2 by 2 instance whose pressure fields have
    been updated before, the warm branch leaves the cell in row 0, column 1
    of utility pass 1 (a cell of the inlet row) at the rolled pressure of
    the last row minus the loss instead of resetting it from the inlet
    pressure, and it resets row 0 of the fuel pass from the inlet pressure
    of the reactant, not of the fuel. *)
Lemma update_pressures_warm_example :
  ∃ s', update_pressures example_warm = Some s'
    ∧ (arr s' f_P utility1).[0, 1]
      = 100700 - (deltaP utility1 example_warm).[0, 1]
    ∧ (arr s' f_P utility1).[0, 1]
      ≠ inlet_pressure utility1 example_warm
        - (deltaP utility1 example_warm).[0, 1]
    ∧ (arr s' f_P fuel3).[0, 0]
      = inlet_P (reactant example_warm) - (deltaP fuel3 example_warm).[0, 0]
    ∧ (arr s' f_P fuel3).[0, 0]
      ≠ inlet_pressure fuel3 example_warm
        - (deltaP fuel3 example_warm).[0, 0].
Proof.
  assert (Hwarm : is_cold example_warm = Some false).
  { unfold is_cold.
    change (arr example_warm f_P reactant2)
      with [[101000; 100900]; [100800; 100700]].
    change (cell [[101000; 100900]; [100800; 100700]] 0 0)
      with (Some 101000).
    cbn [mbind option_bind].
    destruct (Req_dec_T _ _) as [E|E]; [exfalso | reflexivity].
    unfold grid_mean, grid_sum, ravel, sum_list in E.
    cbn [concat app foldr length INR] in E. lra. }
  destruct (update_pressures_warm_cells example_warm)
    as (s' & Hs' & Hcells).
  - reflexivity.
  - repeat constructor.
  - intros []; (split; [reflexivity | repeat constructor]).
  - exists s'. split.
    { unfold update_pressures. rewrite Hwarm. exact Hs'. }
    pose proof (Hcells utility1 0%nat 1%nat) as Hu.
    pose proof (Hcells fuel3 0%nat 0%nat) as Hf.
    cbn beta iota in Hu, Hf.
    rewrite decide_False in Hu by discriminate.
    rewrite decide_True in Hf by reflexivity.
    change ((arr example_warm f_P utility1).[
              rolled_from (rows example_warm) 0, 1]) with 100700 in Hu.
    rewrite Hu, Hf by repeat constructor.
    change (inlet_pressure utility1 example_warm) with 101325.
    change (inlet_pressure fuel3 example_warm) with 202650.
    change (inlet_P (reactant example_warm)) with 101325.
    repeat split; lra.
Qed.

(** ** Heat-capacity coefficients and heat capacity *)

Lemma pass_eqb_refl p : pass_eqb p p = true.
Proof. by destruct p. Qed.

(** A coefficient stored by [mol_frac_and_cp], at one cell. *)
Lemma mol_frac_and_cp_coefficient s s' k p r c :
  mol_frac_and_cp s = Some s' →
  (r < rows s)%nat → (c < columns s)%nat →
  ∃ species,
    mapM (thermo_of (tables s) (composition (stream_in s (stream_of p))))
         (keys (composition (stream_in s (stream_of p)))) = Some species
    ∧ (arr s' (f_cp_a k) p).[r, c]
      = cp_accumulate k species (arr s f_T p).[r, c]
          (arr s f_T (greater_mask_pass k p)).[r, c]
        / sum_list (map nmol species).
Proof.
  unfold mol_frac_and_cp. intros H Hr Hc.
  apply bind_Some in H as (sr & Hsr & H).
  apply bind_Some in H as (su & Hsu & H).
  apply bind_Some in H as (sf & Hsf & H).
  injection H as <-. cbn [arr].
  rewrite at_elementwise by done.
  destruct p; cbn [stream_of]; eexists; (split; [eassumption|reflexivity]).
Qed.

(** The heat capacity stored by [properties], at one cell. *)
Lemma properties_cp_cell fluid s s' mu k r c :
  properties fluid s = Some (s', (mu, k)) →
  (r < rows s)%nat → (c < columns s)%nat →
  (arr s' f_cp fluid).[r, c]
  = ((arr s (f_cp_a a1) fluid).[r, c]
     + (arr s (f_cp_a a2) fluid).[r, c] * (arr s f_T fluid).[r, c]
     + (arr s (f_cp_a a3) fluid).[r, c] * (arr s f_T fluid).[r, c] ^ 2
     + (arr s (f_cp_a a4) fluid).[r, c] * (arr s f_T fluid).[r, c] ^ 3
     + (arr s (f_cp_a a5) fluid).[r, c] * (arr s f_T fluid).[r, c] ^ 4)
    * GC / MW s (cp_MW_stream fluid) * 1000.
Proof.
  unfold properties. intros H Hr Hc.
  apply bind_Some in H as (species & _ & H).
  injection H as <- _ _.
  rewrite arr_set_arr_same, pass_eqb_refl.
  by rewrite at_elementwise.
Qed.

(** C3, at an instance.  With pure carbon dioxide as utility, utility
    pass 1 at 1100 K and utility pass 5 at 700 K, the first coefficient of
    pass 5 is the sum of the low-temperature and of the high-temperature
    coefficient (both sets contribute at one cell), while its second
    coefficient is the low-temperature one alone; and the heat capacity of
    the fuel pass (methane, 16.04) is converted with the molecular weight of
    the utility stream (44.01). *)
Lemma heat_capacity_example :
  ∃ s', mol_frac_and_cp example_hot = Some s'
    ∧ (arr s' (f_cp_a a1) utility5).[0, 0] = 2.35677352 + 3.85746029
    ∧ (arr s' (f_cp_a a2) utility5).[0, 0] = 8.98459677e-03
    ∧ MW s' Utility = 44.01 ∧ MW s' Fuel = 16.04
    ∧ ∀ s'' mu k, properties fuel3 s' = Some (s'', (mu, k)) →
        (arr s'' f_cp fuel3).[0, 0]
        = ((arr s' (f_cp_a a1) fuel3).[0, 0]
           + (arr s' (f_cp_a a2) fuel3).[0, 0] * (arr s' f_T fuel3).[0, 0]
           + (arr s' (f_cp_a a3) fuel3).[0, 0] * (arr s' f_T fuel3).[0, 0] ^ 2
           + (arr s' (f_cp_a a4) fuel3).[0, 0] * (arr s' f_T fuel3).[0, 0] ^ 3
           + (arr s' (f_cp_a a5) fuel3).[0, 0] * (arr s' f_T fuel3).[0, 0] ^ 4)
          * GC / 44.01 * 1000.
Proof.
  destruct (mol_frac_and_cp example_hot) as [s'|] eqn:E; [|discriminate E].
  exists s'. split; [reflexivity|].
  assert (Hco2 :
    mapM (thermo_of (tables example_hot)
            (composition (stream_in example_hot Utility)))
         (keys (composition (stream_in example_hot Utility)))
    = Some [SpeciesThermo "CO2" 1 44.01
              (Coef5 2.35677352 8.98459677e-03 (-7.12356269e-06)
                     2.45919022e-09 (-1.43699548e-13))
              (Coef5 3.85746029 4.41437026e-03 (-2.21481404e-06)
                     5.23490188e-10 (-4.72084164e-14))]) by reflexivity.
  assert (Hch4 :
    mapM (thermo_of (tables example_hot)
            (composition (stream_in example_hot Fuel)))
         (keys (composition (stream_in example_hot Fuel)))
    = Some [SpeciesThermo "CH4" 1 16.04
              (Coef5 5.14987613 (-1.36709788e-02) 4.91800599e-05
                     (-4.84743026e-08) 1.66693956e-11)
              (Coef5 7.48514950e-02 1.33909467e-02 (-5.73285809e-06)
                     1.22292535e-09 (-1.01815230e-13))]) by reflexivity.
  assert (Hrows : (0 < rows example_hot)%nat) by repeat constructor.
  assert (Hcols : (0 < columns example_hot)%nat) by repeat constructor.
  assert (Hmw : MW s' Utility = 44.01).
  { destruct (mol_frac_and_cp_stream _ _ Utility E) as (sp & Hsp & _ & ->).
    rewrite Hco2 in Hsp. injection Hsp as <-.
    unfold nmol. cbn [foldl map sum_list foldr st_w st_MW]. field; lra. }
  repeat split.
  - destruct (mol_frac_and_cp_coefficient _ _ a1 utility5 0 0 E Hrows Hcols)
      as (sp & Hsp & ->).
    change (stream_of utility5) with Utility in Hsp.
    rewrite Hco2 in Hsp. injection Hsp as <-.
    change (arr example_hot f_T utility5) with (full 2 2 700).
    change (arr example_hot f_T (greater_mask_pass a1 utility5))
      with (full 2 2 1100).
    rewrite !at_full by repeat constructor.
    unfold cp_accumulate, nmol.
    cbn [foldl map sum_list foldr st_w st_MW st_low st_high coef c_a1].
    rewrite less_equal_true, greater_true by lra. field; lra.
  - destruct (mol_frac_and_cp_coefficient _ _ a2 utility5 0 0 E Hrows Hcols)
      as (sp & Hsp & ->).
    change (stream_of utility5) with Utility in Hsp.
    rewrite Hco2 in Hsp. injection Hsp as <-.
    change (arr example_hot f_T utility5) with (full 2 2 700).
    change (arr example_hot f_T (greater_mask_pass a2 utility5))
      with (full 2 2 700).
    rewrite !at_full by repeat constructor.
    unfold cp_accumulate, nmol.
    cbn [foldl map sum_list foldr st_w st_MW st_low st_high coef c_a2].
    rewrite less_equal_true, greater_false by lra. field; lra.
  - exact Hmw.
  - destruct (mol_frac_and_cp_stream _ _ Fuel E) as (sp & Hsp & _ & ->).
    rewrite Hch4 in Hsp. injection Hsp as <-.
    unfold nmol. cbn [foldl map sum_list foldr st_w st_MW]. field; lra.
  - intros s'' mu k Hprop.
    assert (Hrows' : (0 < rows s')%nat).
    { destruct (mol_frac_and_cp_frame _ _ E) as (_ & _ & _ & Hd & _).
      unfold rows. rewrite <- Hd. exact Hrows. }
    assert (Hcols' : (0 < columns s')%nat).
    { destruct (mol_frac_and_cp_frame _ _ E) as (_ & _ & _ & Hd & _).
      unfold columns. rewrite <- Hd. exact Hcols. }
    rewrite (properties_cp_cell fuel3 s' s'' mu k 0 0 Hprop Hrows' Hcols').
    change (cp_MW_stream fuel3) with Utility. by rewrite Hmw.
Qed.

(** ** When a call of the right-hand side returns *)

(** The slices of a vector that is long enough reshape to the grid. *)
Lemma unwrap_T_Some {A : Type} n m (T : list A) :
  (10 * n * m ≤ length T)%nat →
  ∃ g, unwrap_T n m T = Some g ∧ Forall (has_shape n m) (grids g).
Proof.
  intros Hlen. unfold unwrap_T.
  set (rc := (n * m)%nat).
  assert (Hv : (10 * rc ≤ length T)%nat) by (subst rc; lia).
  assert (Hs : ∀ a b, (b - a = rc)%nat → (b ≤ length T)%nat →
    reshape n m (slice a b T) = Some (chunks n m (slice a b T))).
  { intros a b Hab Hb. apply reshape_Some. rewrite length_slice; lia. }
  assert (Hc : ∀ a b, (b - a = rc)%nat → (b ≤ length T)%nat →
    has_shape n m (chunks n m (slice a b T))).
  { intros a b Hab Hb. apply chunks_shape. rewrite length_slice; lia. }
  rewrite !Hs by lia. cbn [mbind option_bind].
  eexists; split; [reflexivity|].
  cbn [grids]. repeat constructor; apply Hc; lia.
Qed.

(** A vector that is too short makes a reshape fail. *)
Lemma unwrap_T_short {A : Type} n m (T : list A) :
  (length T < 10 * n * m)%nat → unwrap_T n m T = None.
Proof.
  intros Hlen. unfold unwrap_T.
  set (rc := (n * m)%nat).
  assert (Hv : (length T < 10 * rc)%nat) by (subst rc; lia).
  assert (Hs : ∀ a b, (b - a = rc)%nat → (b ≤ length T)%nat →
    reshape n m (slice a b T) = Some (chunks n m (slice a b T))).
  { intros a b Hab Hb. apply reshape_Some. rewrite length_slice; lia. }
  assert (Hn : ∀ a b, (b - a = rc)%nat → (length T < b)%nat →
    reshape n m (slice a b T) = None).
  { intros a b Hab Hb. unfold reshape, slice.
    rewrite decide_False; [done|].
    rewrite length_take, length_drop. fold rc. lia. }
  destruct (decide (1 * rc ≤ length T)%nat);
    [rewrite (Hs 0%nat rc) by lia | by rewrite (Hn 0%nat rc) by lia].
  cbn [mbind option_bind].
  destruct (decide (2 * rc ≤ length T)%nat);
    [rewrite (Hs rc) by lia | by rewrite (Hn rc) by lia].
  cbn [mbind option_bind].
  destruct (decide (3 * rc ≤ length T)%nat);
    [rewrite (Hs (2 * rc)%nat) by lia | by rewrite (Hn (2 * rc)%nat) by lia].
  cbn [mbind option_bind].
  destruct (decide (4 * rc ≤ length T)%nat);
    [rewrite (Hs (3 * rc)%nat) by lia | by rewrite (Hn (3 * rc)%nat) by lia].
  cbn [mbind option_bind].
  destruct (decide (5 * rc ≤ length T)%nat);
    [rewrite (Hs (4 * rc)%nat) by lia | by rewrite (Hn (4 * rc)%nat) by lia].
  cbn [mbind option_bind].
  destruct (decide (6 * rc ≤ length T)%nat);
    [rewrite (Hs (5 * rc)%nat) by lia | by rewrite (Hn (5 * rc)%nat) by lia].
  cbn [mbind option_bind].
  destruct (decide (7 * rc ≤ length T)%nat);
    [rewrite (Hs (6 * rc)%nat) by lia | by rewrite (Hn (6 * rc)%nat) by lia].
  cbn [mbind option_bind].
  destruct (decide (8 * rc ≤ length T)%nat);
    [rewrite (Hs (7 * rc)%nat) by lia | by rewrite (Hn (7 * rc)%nat) by lia].
  cbn [mbind option_bind].
  destruct (decide (9 * rc ≤ length T)%nat);
    [rewrite (Hs (8 * rc)%nat) by lia | by rewrite (Hn (8 * rc)%nat) by lia].
  cbn [mbind option_bind].
  by rewrite (Hn (9 * rc)%nat) by lia.
Qed.

Lemma T_shaped_agree mix s s' :
  agree (upto 2) mix s s' → T_shaped s → T_shaped s'.
Proof.
  intros Hag Hs p. destruct (agree_rows _ _ _ _ Hag) as [<- <-].
  destruct Hag as (_ & _ & _ & _ & _ & Harr & _).
  rewrite <- !Harr by done. apply Hs.
Qed.

Lemma store_T_Some T s :
  (10 * rows s * columns s ≤ length T)%nat →
  ∃ s', store_T T s = Some s' ∧ T_shaped s'.
Proof.
  intros Hlen. unfold store_T.
  destruct (unwrap_T_Some (rows s) (columns s) T Hlen) as (g & -> & Hg).
  destruct g as [[[[[[[[[g1 g2] g3] g4] g5] g6] g7] g8] g9] g10].
  cbn [mbind option_bind]. eexists; split; [reflexivity|].
  cbn [grids] in Hg.
  repeat match goal with
         | H : Forall _ (_ :: _) |- _ => apply Forall_cons in H as [? H]
         end.
  intros p. cbv zeta. rewrite !rows_set_arr, !columns_set_arr.
  split; destruct p;
    repeat first
      [ rewrite arr_set_arr_same; cbn [pass_eqb pass_index Nat.eqb]
      | rewrite arr_set_arr_other by reflexivity ];
    assumption.
Qed.

(** The lookups of a tabulated species succeed. *)
Lemma thermo_of_Some tbl comp sp :
  tabulated tbl sp → is_Some (dict_get comp sp) →
  is_Some (thermo_of tbl comp sp).
Proof.
  intros [Hf _] [w Hw]. unfold thermo_of.
  repeat match goal with
         | H : Forall _ (_ :: _) |- _ => apply Forall_cons in H as [[? ?] H]
         end.
  repeat match goal with
         | H : dict_get _ sp = Some _ |- _ =>
             rewrite H; cbn [mbind option_bind]; clear H
         end.
  by eexists.
Qed.

Lemma data_of_Some tbl molfractions sp :
  tabulated tbl sp → is_Some (dict_get molfractions sp) →
  is_Some (data_of tbl molfractions sp).
Proof.
  intros [Hf [z Hz]] [w Hw]. unfold data_of.
  repeat match goal with
         | H : Forall _ (_ :: _) |- _ => apply Forall_cons in H as [[? ?] H]
         end.
  repeat match goal with
         | H : dict_get _ sp = Some _ |- _ =>
             rewrite H; cbn [mbind option_bind]; clear H
         end.
  by eexists.
Qed.

Lemma dict_get_keys {V : Type} (d : dict V) k :
  k ∈ keys d → is_Some (dict_get d k).
Proof.
  induction d as [|[k0 v0] d IH]; simpl; intros Hin.
  - by apply elem_of_nil in Hin.
  - destruct (String.eqb k0 k) eqn:E; [by eexists|].
    apply elem_of_cons in Hin as [->|Hin]; [|by apply IH].
    by rewrite String.eqb_refl in E.
Qed.

Lemma dict_get_None_keys {V : Type} (d : dict V) k :
  dict_get d k = None → k ∉ keys d.
Proof.
  intros Hn Hin. apply dict_get_keys in Hin as [v Hv]. congruence.
Qed.

Lemma keys_zip {V : Type} (ks : list string) (vs : list V) :
  length ks = length vs → keys (zip ks vs) = ks.
Proof. intros H. unfold keys. by apply fst_zip; rewrite H. Qed.

Lemma mapM_thermo_names tbl comp ks species :
  mapM (thermo_of tbl comp) ks = Some species → map st_name species = ks.
Proof.
  revert species. induction ks as [|k ks IH]; intros species H.
  - by injection H as <-.
  - cbn [mapM] in H.
    apply bind_Some in H as (st & Hst & H).
    apply bind_Some in H as (sts & Hsts & H). injection H as <-.
    apply thermo_of_inv in Hst as (Hname & _).
    cbn [map]. rewrite Hname. f_equal. by apply IH.
Qed.

(** The mixture data are stored when every species is tabulated, and the
    mole fractions then have the keys of the compositions. *)
Lemma mol_frac_and_cp_Some s :
  species_tabulated s →
  ∃ s', mol_frac_and_cp s = Some s'
        ∧ ∀ i, keys (molefrac s' i) = keys (composition (stream_in s i)).
Proof.
  intros Htab.
  assert (Hl : ∀ i, is_Some
    (mapM (thermo_of (tables s) (composition (stream_in s i)))
          (keys (composition (stream_in s i))))).
  { intros i. apply mapM_is_Some, Forall_forall. intros sp Hin.
    apply thermo_of_Some; [by apply (Htab i) | by apply dict_get_keys]. }
  destruct (Hl Reactant) as [sr Hr], (Hl Utility) as [su Hu],
           (Hl Fuel) as [sf Hf].
  destruct (mol_frac_and_cp s) as [s'|] eqn:E.
  - exists s'. split; [done|]. intros i.
    destruct (mol_frac_and_cp_stream s s' i E) as (sp & Hsp & -> & _).
    rewrite keys_zip by (by rewrite !length_map).
    by eapply mapM_thermo_names.
  - exfalso. unfold mol_frac_and_cp in E.
    rewrite Hr, Hu, Hf in E. discriminate E.
Qed.

(** One property update returns when the species of the pass's stream are
    tabulated and have a mole fraction. *)
Lemma update_property_Some p s :
  (∀ sp, sp ∈ keys (composition (stream_in s (stream_of p))) →
         tabulated (tables s) sp) →
  keys (molefrac s (stream_of p))
  = keys (composition (stream_in s (stream_of p))) →
  is_Some (update_property p s).
Proof.
  intros Htab Hkeys. unfold update_property, properties.
  cbn [tables set_arr].
  destruct (mapM (data_of (tables s) (molefrac s (stream_of p)))
              (keys (composition (stream_in s (stream_of p)))))
    as [species|] eqn:E.
  - cbn [mbind option_bind]. by eexists.
  - exfalso. apply mapM_None_1 in E.
    apply Exists_exists in E as (sp & Hin & Hnone).
    destruct (data_of_Some (tables s) (molefrac s (stream_of p)) sp)
      as [d Hd]; [by apply Htab | | congruence].
    apply dict_get_keys. by rewrite Hkeys.
Qed.

Lemma update_properties_Some s :
  species_tabulated s →
  (∀ i, keys (molefrac s i) = keys (composition (stream_in s i))) →
  is_Some (update_properties s).
Proof.
  intros Htab Hkeys. unfold update_properties.
  assert (Hstep : ∀ p s1, agree (upto 7) true s s1 →
            ∃ s2, update_property p s1 = Some s2 ∧ agree (upto 7) true s s2).
  { intros p s1 Hag.
    destruct (update_property_Some p s1) as [s2 H2].
    - destruct Hag as (Hr & Hu & Hf & _ & Ht & _).
      intros sp Hin. rewrite <- Ht. apply (Htab (stream_of p)).
      revert Hin. unfold stream_in. by rewrite Hr, Hu, Hf.
    - destruct Hag as (Hr & Hu & Hf & _ & _ & _ & Hmix).
      destruct (Hmix eq_refl (stream_of p)) as [<- _].
      rewrite Hkeys. unfold stream_in. by rewrite Hr, Hu, Hf.
    - exists s2. split; [done|].
      eapply agree_trans; [exact Hag|].
      by apply (update_property_frame p). }
  destruct (Hstep utility1 s (agree_refl _ _ _)) as (s1 & -> & H1).
  cbn [mbind option_bind].
  destruct (Hstep reactant2 s1 H1) as (s2 & -> & H2).
  cbn [mbind option_bind].
  destruct (Hstep fuel3 s2 H2) as (s3 & -> & H3).
  cbn [mbind option_bind].
  destruct (Hstep reactant4 s3 H3) as (s4 & -> & H4).
  cbn [mbind option_bind].
  destruct (Hstep utility5 s4 H4) as (s5 & -> & H5).
  by eexists.
Qed.

(** ** Conduction within a plate *)

Lemma roll_list_m1 {B : Type} (v : list B) :
  roll_list (-1) v = drop 1 v ++ take 1 v.
Proof.
  unfold roll_list. destruct v as [|x v]; [done|].
  replace (Z.to_nat (-1 mod Z.of_nat (length (x :: v))))
    with (length (x :: v) - 1)%nat.
  - by replace (length (x :: v) - (length (x :: v) - 1))%nat with 1%nat
      by (cbn [length]; lia).
  - cbn [length].
    replace (-1 mod Z.of_nat (S (length v)))%Z with (Z.of_nat (length v)).
    + lia.
    + apply (Z.mod_unique _ _ (-1)); lia.
Qed.

Lemma lookup_roll_list_m1 {B : Type} (v : list B) i :
  (S i < length v)%nat → roll_list (-1) v !! i = v !! S i.
Proof.
  intros Hi. rewrite roll_list_m1.
  rewrite lookup_app_l by (rewrite length_drop; lia).
  by rewrite lookup_drop.
Qed.

Lemma at_roll_back_axis0 n m (g : grid R) r c :
  has_shape n m g → (S r < n)%nat → (np_roll (-1) 0 g).[r, c] = g.[S r, c].
Proof.
  intros [Hl _] Hr. change (np_roll (-1) 0 g) with (roll_list (-1) g).
  unfold at_, cell. by rewrite lookup_roll_list_m1 by lia.
Qed.

Lemma at_roll_back_axis1 n m (g : grid R) r c :
  has_shape n m g → (r < n)%nat → (S c < m)%nat →
  (np_roll (-1) 1 g).[r, c] = g.[r, S c].
Proof.
  intros Hs Hr Hc.
  change (np_roll (-1) 1 g) with (map (roll_list (-1)) g).
  destruct (has_shape_lookup n m g r Hs Hr) as (row & Hrow & Hl).
  unfold at_, cell. rewrite list_lookup_fmap, Hrow. simpl.
  by rewrite lookup_roll_list_m1 by lia.
Qed.

Lemma at_set_col n m (g : grid R) c v r c' :
  has_shape n m g → (c < m)%nat → length v = n → (r < n)%nat →
  (zip_with (λ (row : list R) x, <[c := x]> row) g v).[r, c']
  = if decide (c' = c) then v.[r] else g.[r, c'].
Proof.
  intros Hs Hc Hv Hr. unfold at_, at1.
  rewrite (cell_set_col n m) by done. by case_decide.
Qed.

Lemma at_insert_row (g : grid R) r v r' c :
  (r < length g)%nat →
  (<[r := v]> g).[r', c] = if decide (r' = r) then v.[c] else g.[r', c].
Proof.
  intros Hr. unfold at_, at1. rewrite cell_insert_row by done.
  by case_decide.
Qed.

Lemma at1_zip_with (f : R → R → R) (a b : list R) i :
  (i < length a)%nat → (i < length b)%nat →
  (zip_with f a b).[i] = f a.[i] b.[i].
Proof.
  intros Ha Hb. unfold at1. rewrite lookup_zip_with.
  destruct (lookup_lt_is_Some_2 a i Ha) as [x ->].
  destruct (lookup_lt_is_Some_2 b i Hb) as [y ->]. done.
Qed.

Lemma at1_col (g : grid R) c col r :
  col !! r = cell g r c → col.[r] = g.[r, c].
Proof. intros H. unfold at1, at_. by rewrite H. Qed.

Lemma shape1_shape {A : Type} n m (g : grid A) :
  has_shape n m g → (0 < n)%nat → shape1 g = m.
Proof.
  intros [Hl Hf] Hn. destruct g as [|row g]; [simpl in Hl; lia|].
  by apply Forall_cons in Hf as [? _].
Qed.

(** The grid returned by [intraplate_cond], cell by cell: the sum of the
    second differences of the plate temperature along the columns and along
    the rows, times the diffusivity of the metal. *)
Lemma intraplate_cond_cells (plate : pass) (s : PCHE) :
  has_shape (rows s) (columns s) (arr s f_plate_T plate) →
  (2 ≤ rows s)%nat → (2 ≤ columns s)%nat →
  ∃ g,
    intraplate_cond plate s = Some g
    ∧ has_shape (rows s) (columns s) g
    ∧ ∀ r c, (r < rows s)%nat → (c < columns s)%nat →
        g.[r, c]
        = (second_difference (deltax s) (columns s)
             (λ j, (arr s f_plate_T plate).[r, j]) c
           + second_difference (deltaz s) (rows s)
               (λ i, (arr s f_plate_T plate).[i, c]) r)
          * (metalk / (metalrho * metalcp)).
Proof.
  set (temps := arr s f_plate_T plate). set (n := rows s). set (m := columns s).
  intros Hs Hn Hm. unfold intraplate_cond. fold temps n m.
  rewrite (shape1_shape n m) by (done || lia).
  pose proof Hs as [Hlen _].
  rewrite Hlen. unfold from_end.
  rewrite !decide_True by lia. cbn [mbind option_bind]. cbv beta zeta.
  destruct (get_col_Some n m temps 1 Hs) as (x1 & -> & Lx1 & Cx1); [lia|].
  destruct (get_col_Some n m temps 0 Hs) as (x0 & -> & Lx0 & Cx0); [lia|].
  destruct (get_col_Some n m temps (m - 2) Hs) as (xm2 & Exm2 & Lxm2 & Cxm2);
    [lia|].
  destruct (get_col_Some n m temps (m - 1) Hs) as (xm1 & Exm1 & Lxm1 & Cxm1);
    [lia|].
  cbn [mbind option_bind].
  rewrite (set_col_Some n m)
    by (first [apply elementwise_shape | rewrite length_zip_with | idtac]; lia).
  cbn [mbind option_bind]. rewrite Exm2, Exm1. cbn [mbind option_bind].
  rewrite (set_col_Some n m)
    by (first [ apply set_col_shape;
                  [apply elementwise_shape | rewrite length_zip_with; lia]
              | rewrite length_zip_with; lia | lia ]).
  cbn [mbind option_bind]. unfold get_row.
  destruct (has_shape_lookup n m temps 1 Hs) as (z1 & Ez1 & Lz1); [lia|].
  rewrite Ez1.
  destruct (has_shape_lookup n m temps 0 Hs) as (z0 & Ez0 & Lz0); [lia|].
  destruct (has_shape_lookup n m temps (n - 2) Hs) as (zm2 & Ezm2 & Lzm2);
    [lia|].
  destruct (has_shape_lookup n m temps (n - 1) Hs) as (zm1 & Ezm1 & Lzm1);
    [lia|].
  cbn [mbind option_bind]. rewrite Ez0. cbn [mbind option_bind].
  rewrite (set_row_Some n m)
    by (first [apply elementwise_shape | rewrite length_zip_with | idtac]; lia).
  cbn [mbind option_bind]. rewrite Ezm2, Ezm1. cbn [mbind option_bind].
  rewrite (set_row_Some n m)
    by (first [ apply set_row_shape;
                  [apply elementwise_shape | rewrite length_zip_with; lia]
              | rewrite length_zip_with; lia | lia ]).
  cbn [mbind option_bind].
  eexists. split; [reflexivity|]. split; [apply elementwise_shape|].
  intros r c Hr Hc. rewrite at_elementwise by done. f_equal. f_equal.
  - (* along the columns *)
    rewrite (at_set_col n m)
      by (first [ apply set_col_shape;
                    [apply elementwise_shape | rewrite length_zip_with; lia]
                | rewrite length_zip_with; lia | lia ]).
    rewrite (at_set_col n m)
      by (first [apply elementwise_shape | rewrite length_zip_with | idtac];
          lia).
    unfold second_difference.
    destruct (decide (c = 0)%nat) as [->|Hc0].
    + rewrite decide_False by lia.
      rewrite at1_zip_with by lia.
      by rewrite (at1_col temps 1 x1 r), (at1_col temps 0 x0 r)
        by (by rewrite ?Cx1, ?Cx0).
    + destruct (decide (c = m - 1)%nat) as [->|Hcm].
      * rewrite at1_zip_with by lia.
        by rewrite (at1_col temps (m - 2) xm2 r), (at1_col temps (m - 1) xm1 r)
          by (by rewrite ?Cxm2, ?Cxm1).
      * rewrite at_elementwise by done.
        rewrite (at_roll_back_axis1 n m), (at_roll_axis1 n m) by (done || lia).
        destruct c as [|c']; [done|]. cbn [rolled_from].
        by replace (S c' + 1)%nat with (S (S c')) by lia;
           replace (S c' - 1)%nat with c' by lia.
  - (* along the rows *)
    rewrite at_insert_row
      by (rewrite length_insert, length_elementwise; lia).
    rewrite at_insert_row by (rewrite length_elementwise; lia).
    unfold second_difference.
    destruct (decide (r = 0)%nat) as [->|Hr0].
    + rewrite decide_False by lia.
      rewrite at1_zip_with by lia.
      by rewrite <- (at_row temps 1 c z1 Ez1), <- (at_row temps 0 c z0 Ez0).
    + destruct (decide (r = n - 1)%nat) as [->|Hrn].
      * rewrite at1_zip_with by lia.
        by rewrite <- (at_row temps (n - 2) c zm2 Ezm2),
                   <- (at_row temps (n - 1) c zm1 Ezm1).
      * rewrite at_elementwise by done.
        rewrite (at_roll_back_axis0 n m), (at_roll_axis0 n m) by (done || lia).
        destruct r as [|r']; [done|]. cbn [rolled_from].
        by replace (S r' + 1)%nat with (S (S r')) by lia;
           replace (S r' - 1)%nat with r' by lia.
Qed.

(** ** The derivative is returned *)

Lemma intraplate_cond_small (plate : pass) (s : PCHE) :
  (length (arr s f_plate_T plate) < 2)%nat
  ∨ (shape1 (arr s f_plate_T plate) < 2)%nat →
  intraplate_cond plate s = None.
Proof.
  intros H. unfold intraplate_cond, from_end.
  repeat case_decide; cbn [mbind option_bind]; try done; lia.
Qed.

Lemma dTdt_fluid_Some p s :
  has_shape (rows s) (columns s) (arr s f_T p) →
  (0 < rows s)%nat → (0 < columns s)%nat →
  ∃ g, dTdt_fluid p s = Some g ∧ has_shape (rows s) (columns s) g.
Proof.
  intros Hs Hn Hm. unfold dTdt_fluid.
  destruct (advective_transfer_cells p s Hs Hn Hm) as (deltaT & -> & _).
  cbn [mbind option_bind]. eexists; split; [reflexivity|].
  apply elementwise_shape.
Qed.

Lemma dTdt_plate_Some p s :
  has_shape (rows s) (columns s) (arr s f_plate_T p) →
  (2 ≤ rows s)%nat → (2 ≤ columns s)%nat →
  ∃ g, dTdt_plate p s = Some g ∧ has_shape (rows s) (columns s) g.
Proof.
  intros Hs Hn Hm. unfold dTdt_plate.
  destruct (intraplate_cond_cells p s Hs Hn Hm) as (cond & -> & _).
  cbn [mbind option_bind]. eexists; split; [reflexivity|].
  apply elementwise_shape.
Qed.

Lemma length_concatenate_ravel {A : Type} n m
    (g : grid A * grid A * grid A * grid A * grid A *
         grid A * grid A * grid A * grid A * grid A) :
  Forall (has_shape n m) (grids g) →
  length (concatenate_ravel g) = (10 * n * m)%nat.
Proof.
  destruct g as [[[[[[[[[g1 g2] g3] g4] g5] g6] g7] g8] g9] g10].
  cbn [grids concatenate_ravel]. intros Hg.
  repeat match goal with
         | H : Forall _ (_ :: _) |- _ => apply Forall_cons in H as [? H]
         end.
  rewrite !length_app.
  rewrite !(length_ravel n m) by done. lia.
Qed.

Lemma derivative_Some s :
  T_shaped s → (2 ≤ rows s)%nat → (2 ≤ columns s)%nat →
  ∃ dTdt, derivative s = Some dTdt
          ∧ length dTdt = (10 * rows s * columns s)%nat.
Proof.
  intros HT Hn Hm. unfold derivative.
  destruct (dTdt_fluid_Some utility1 s) as (g1 & -> & S1);
    [apply HT | lia | lia |].
  destruct (dTdt_fluid_Some reactant2 s) as (g2 & -> & S2);
    [apply HT | lia | lia |].
  destruct (dTdt_fluid_Some fuel3 s) as (g3 & -> & S3);
    [apply HT | lia | lia |].
  destruct (dTdt_fluid_Some reactant4 s) as (g4 & -> & S4);
    [apply HT | lia | lia |].
  destruct (dTdt_fluid_Some utility5 s) as (g5 & -> & S5);
    [apply HT | lia | lia |].
  destruct (dTdt_plate_Some utility1 s) as (g6 & -> & S6);
    [apply HT | lia | lia |].
  destruct (dTdt_plate_Some reactant2 s) as (g7 & -> & S7);
    [apply HT | lia | lia |].
  destruct (dTdt_plate_Some fuel3 s) as (g8 & -> & S8);
    [apply HT | lia | lia |].
  destruct (dTdt_plate_Some reactant4 s) as (g9 & -> & S9);
    [apply HT | lia | lia |].
  destruct (dTdt_plate_Some utility5 s) as (g10 & -> & S10);
    [apply HT | lia | lia |].
  cbn [mbind option_bind]. eexists; split; [reflexivity|].
  apply length_concatenate_ravel. cbn [grids].
  repeat (apply Forall_cons; split; [assumption|]). by apply Forall_nil.
Qed.

Lemma species_tabulated_agree est mix s s' :
  agree est mix s s' → species_tabulated s → species_tabulated s'.
Proof.
  intros (Hr & Hu & Hf & _ & Ht & _) Htab i sp.
  rewrite <- Ht. unfold stream_in. rewrite <- Hr, <- Hu, <- Hf. apply Htab.
Qed.

Lemma bind_Some_intro {A B : Type} (m : option A) (f : A → option B) a b :
  m = Some a → f a = Some b → m ≫= f = Some b.
Proof. intros -> H. exact H. Qed.

(** A call returns, with a vector as long as the ten grids, when the state
    vector is long enough, the grid has two rows and two columns at least,
    and every species is tabulated. *)
Lemma transient_solver_Some s t T :
  (10 * rows s * columns s ≤ length T)%nat →
  (2 ≤ rows s)%nat → (2 ≤ columns s)%nat →
  species_tabulated s →
  ∃ s' dTdt, transient_solver s t T = Some (s', dTdt)
             ∧ length dTdt = (10 * rows s * columns s)%nat.
Proof.
  intros Hlen Hn Hm Htab.
  destruct (store_T_Some T s Hlen) as (s1 & E1 & HT1).
  pose proof (store_T_frame _ _ _ E1) as F1.
  pose proof (species_tabulated_agree _ _ _ _ F1 Htab) as Htab1.
  destruct (mol_frac_and_cp_Some s1 Htab1) as (s2 & E2 & K2).
  pose proof (mol_frac_and_cp_frame _ _ E2) as F2.
  destruct (update_properties_Some s2) as [s3 E3].
  { exact (species_tabulated_agree _ _ _ _ F2 Htab1). }
  { intros i. rewrite K2. destruct F2 as (Hr & Hu & Hf & _).
    unfold stream_in. by rewrite Hr, Hu, Hf. }
  pose proof (update_properties_frame _ _ E3) as F3.
  pose proof (flow_blocks_frame s3) as F4.
  remember (heat_transfer (convective_coefficients (update_friction
              (Prandtl_Reynolds (bulk_velocity s3))))) as s8 eqn:E8.
  assert (HT8 : T_shaped s8).
  { apply (T_shaped_agree false s3);
      [apply (agree_upto 2 11 true false); [lia | done | exact F4]|].
    apply (T_shaped_agree false s2);
      [apply (agree_upto 2 7 true false); [lia | done | exact F3]|].
    by apply (T_shaped_agree false s1). }
  assert (Hrows : rows s8 = rows s ∧ columns s8 = columns s).
  { destruct (agree_rows _ _ _ _ F1) as [-> ->].
    destruct (agree_rows _ _ _ _ F2) as [-> ->].
    destruct (agree_rows _ _ _ _ F3) as [-> ->].
    destruct (agree_rows _ _ _ _ F4) as [-> ->]. done. }
  destruct Hrows as [Hrows Hcols].
  destruct (derivative_Some s8 HT8) as (dTdt & E & L); [lia | lia |].
  exists s8, dTdt. split; [|by rewrite L, Hrows, Hcols].
  unfold transient_solver.
  apply (bind_Some_intro _ _ s1); [exact E1|].
  apply (bind_Some_intro _ _ s2); [exact E2|].
  apply (bind_Some_intro _ _ s3); [exact E3|].
  cbv zeta. rewrite <- E8.
  by apply (bind_Some_intro _ _ dTdt).
Qed.

(** ** The example instance goes through a call *)

Lemma example_tabulated : species_tabulated example.
Proof.
  intros i sp Hin.
  assert (sp = "CO2"%string ∨ sp = "CH4"%string) as [-> | ->].
  { destruct i; apply list_elem_of_singleton in Hin; auto. }
  all: split;
    [repeat (apply Forall_cons; split; [by eexists|]); by apply Forall_nil
    |by eexists].
Qed.

Lemma transient_solver_deterministic_witness :
  ∃ s1 dTdt,
    transient_solver example 0 example_T = Some (s1, dTdt)
    ∧ snd <$> transient_solver s1 1 example_T
      = snd <$> transient_solver example 1 example_T.
Proof.
  destruct (transient_solver_Some example 0 example_T)
    as (s1 & dTdt & E & _).
  - reflexivity.
  - repeat constructor.
  - repeat constructor.
  - exact example_tabulated.
  - exists s1, dTdt. split; [exact E|].
    apply (transient_solver_deterministic example s1 1 example_T).
    exact (after_call example example s1 0 example_T dTdt
             (after_none example) E).
Defined.

(** ** The state packer, continued *)

Lemma slice_take {A : Type} a b k (v : list A) :
  (b ≤ k)%nat → slice a b (take k v) = slice a b v.
Proof.
  intros Hb. unfold slice.
  destruct (decide (a ≤ k)%nat) as [Ha|Ha].
  - replace k with (a + (k - a))%nat at 1 by lia.
    rewrite <- take_drop_commute, take_take. f_equal. lia.
  - replace (b - a)%nat with 0%nat by lia. done.
Qed.

Lemma lookup_slice {A : Type} a b (v : list A) i :
  (i < b - a)%nat → slice a b v !! i = v !! (a + i)%nat.
Proof.
  intros Hi. unfold slice. rewrite lookup_take_lt by done.
  by rewrite lookup_drop.
Qed.

Lemma cell_chunks {A : Type} n m (v : list A) r c :
  (r < n)%nat → (c < m)%nat → cell (chunks n m v) r c = v !! (r * m + c)%nat.
Proof.
  revert v r. induction n as [|n IH]; intros v r Hr Hc; [lia|].
  cbn [chunks]. destruct r as [|r'].
  - unfold cell. cbn. by rewrite lookup_take_lt.
  - change (cell (take m v :: chunks n m (drop m v)) (S r') c)
      with (cell (chunks n m (drop m v)) r' c).
    rewrite IH by lia. rewrite lookup_drop. f_equal. lia.
Qed.

(** X1.  [unwrap_T] returns exactly when the state vector holds at least
    [10 * rows * columns] entries: a shorter vector makes one of the ten
    reshapes fail, a longer one is accepted. *)
Theorem unwrap_T_returns_iff {A : Type} (n_rows n_columns : nat)
    (Tvector : list A) :
  is_Some (unwrap_T n_rows n_columns Tvector)
  ↔ (10 * n_rows * n_columns ≤ length Tvector)%nat.
Proof.
  split.
  - intros [g Hg].
    destruct (decide (10 * n_rows * n_columns ≤ length Tvector)%nat)
      as [|Hshort]; [done|].
    rewrite unwrap_T_short in Hg by lia. discriminate Hg.
  - intros Hlen.
    destruct (unwrap_T_Some n_rows n_columns Tvector Hlen) as (g & -> & _).
    by eexists.
Qed.

(** X2.  The entries of the state vector beyond the first
    [10 * rows * columns] are never read: [unwrap_T] gives the same result
    on the vector cut to that length. *)
Theorem unwrap_T_ignores_excess {A : Type} (n_rows n_columns : nat)
    (Tvector : list A) :
  unwrap_T n_rows n_columns (take (10 * n_rows * n_columns) Tvector)
  = unwrap_T n_rows n_columns Tvector.
Proof.
  unfold unwrap_T.
  replace (10 * n_rows * n_columns)%nat with (10 * (n_rows * n_columns))%nat
    by lia.
  set (rc := (n_rows * n_columns)%nat).
  by rewrite !slice_take by lia.
Qed.

(** The cells of the grids returned by [unwrap_T]. *)
Lemma unwrap_T_cell {A : Type} (n_rows n_columns : nat)
    (Tvector : list A) g (k : nat) (gk : list (list A)) (r c : nat) :
  unwrap_T n_rows n_columns Tvector = Some g →
  grids g !! k = Some gk →
  (r < n_rows)%nat → (c < n_columns)%nat →
  cell gk r c
  = Tvector !! (k * (n_rows * n_columns) + r * n_columns + c)%nat.
Proof.
  intros Hg Hk Hr Hc. unfold unwrap_T in Hg.
  set (rc := (n_rows * n_columns)%nat) in *.
  assert (Hrc : (r * n_columns + c < rc)%nat) by (subst rc; nia).
  repeat match type of Hg with
         | (mbind _ (reshape _ _ _)) = Some _ =>
             let g' := fresh "g" in
             let H := fresh "Hg" in
             apply bind_Some in Hg as (g' & H & Hg);
             apply reshape_inv in H as [_ ->]
         end.
  injection Hg as <-. cbn [grids] in Hk.
  do 10 (destruct k as [|k];
         [injection Hk as <-; rewrite cell_chunks by done;
          rewrite lookup_slice by lia; f_equal; lia|]).
  discriminate Hk.
Qed.

Lemma length_grids {A : Type}
    (g : grid A * grid A * grid A * grid A * grid A *
         grid A * grid A * grid A * grid A * grid A) :
  length (grids g) = 10%nat.
Proof. by destruct g as [[[[[[[[[g1 g2] g3] g4] g5] g6] g7] g8] g9] g10]. Qed.

(** X3.  [unwrap_T] returns ten grids and reads them from the state vector
    in row-major order: the cell in row [r] and column [c] of the [k]-th
    grid (from 0) holds the entry [k * rows * columns + r * columns + c] of
    the vector. *)
Theorem unwrap_T_row_major {A : Type} (n_rows n_columns : nat)
    (Tvector : list A) g (k r c : nat) :
  unwrap_T n_rows n_columns Tvector = Some g →
  (k < 10)%nat → (r < n_rows)%nat → (c < n_columns)%nat →
  ∃ gk x,
    grids g !! k = Some gk ∧ cell gk r c = Some x
    ∧ Tvector !! (k * (n_rows * n_columns) + r * n_columns + c)%nat = Some x.
Proof.
  intros Hg Hk Hr Hc.
  destruct (lookup_lt_is_Some_2 (grids g) k) as [gk Hgk];
    [by rewrite length_grids|].
  pose proof (unwrap_T_cell _ _ _ _ _ _ _ _ Hg Hgk Hr Hc) as Hcell.
  destruct (unwrap_T_Some n_rows n_columns Tvector) as (g' & Hg' & Hsh).
  { destruct (decide (10 * n_rows * n_columns ≤ length Tvector)%nat)
      as [|Hshort]; [done|].
    rewrite unwrap_T_short in Hg by lia. discriminate Hg. }
  rewrite Hg in Hg'. injection Hg' as <-.
  rewrite Forall_lookup in Hsh.
  destruct (cell_is_Some _ _ gk r c (Hsh k gk Hgk) Hr Hc) as [x Hx].
  exists gk, x. split; [done|]. split; [done|]. by rewrite <- Hcell.
Qed.

Lemma unwrap_T_row_major_witness :
  ∃ g gk, unwrap_T 1 2 (seq 0 20) = Some g
          ∧ grids g !! 3%nat = Some gk ∧ cell gk 0 1 = Some 7%nat.
Proof.
  eexists.
  destruct (unwrap_T_row_major 1 2 (seq 0 20) _ 3 0 1 eq_refl)
    as (gk & x & Hgk & Hx & HT); [repeat constructor..|].
  exists gk. split; [reflexivity|]. split; [exact Hgk|].
  rewrite Hx, <- HT. reflexivity.
Defined.

(** X4.  The module-level [convert_T_vector], called with the dimension
    list of an instance, unpacks a vector exactly as the method [unwrap_T]
    of that instance does. *)
Theorem convert_T_vector_unwrap_T {A : Type} (s : PCHE) (T_vector : list A) :
  convert_T_vector T_vector (dimensions s)
  = unwrap_T (rows s) (columns s) T_vector.
Proof.
  unfold convert_T_vector, unwrap_T, rows, columns. cbv zeta.
  by rewrite !Nat.mul_assoc.
Qed.

(** ** Conduction within a plate, continued *)

(** X5.  On a plate temperature grid of the instance's shape with at least
    two rows and two columns, [intraplate_cond] returns a grid of that shape
    whose cell [(r, c)] is the metal's diffusivity times the sum of the
    second differences of the temperature along the columns (pitch
    [deltax]) and along the rows (pitch [deltaz]): the three-point stencil
    inside the plate and twice the one-sided difference on the four edges;
    the values rolled in from the opposite edge are never used. *)
Theorem intraplate_cond_stencil (plate : pass) (s : PCHE) :
  has_shape (rows s) (columns s) (arr s f_plate_T plate) →
  (2 ≤ rows s)%nat → (2 ≤ columns s)%nat →
  ∃ g,
    intraplate_cond plate s = Some g
    ∧ has_shape (rows s) (columns s) g
    ∧ ∀ r c, (r < rows s)%nat → (c < columns s)%nat →
        cell g r c
        = Some ((second_difference (deltax s) (columns s)
                   (λ j, (arr s f_plate_T plate).[r, j]) c
                 + second_difference (deltaz s) (rows s)
                     (λ i, (arr s f_plate_T plate).[i, c]) r)
                * (metalk / (metalrho * metalcp))).
Proof.
  intros Hs Hn Hm.
  destruct (intraplate_cond_cells plate s Hs Hn Hm) as (g & Hg & Hsh & Hc).
  exists g. split; [exact Hg|]. split; [exact Hsh|].
  intros r c Hr Hcc.
  destruct (cell_is_Some _ _ g r c Hsh Hr Hcc) as [x Hx].
  rewrite Hx. f_equal. rewrite <- (Hc r c Hr Hcc). symmetry. by apply at_cell.
Qed.

Lemma intraplate_cond_stencil_witness :
  ∃ g, intraplate_cond utility1 example_heat = Some g ∧ has_shape 2 2 g.
Proof.
  destruct (intraplate_cond_stencil utility1 example_heat)
    as (g & Hg & Hsh & _).
  - apply (full_shape 2 2).
  - repeat constructor.
  - repeat constructor.
  - exists g. split; [exact Hg | exact Hsh].
Defined.

Lemma second_difference_constant d n (T : nat → R) x i :
  (2 ≤ n)%nat → (i < n)%nat → (∀ j, (j < n)%nat → T j = x) →
  second_difference d n T i = 0.
Proof.
  intros Hn Hi HT. unfold second_difference.
  repeat case_decide; rewrite !HT by lia; unfold Rdiv; ring.
Qed.

(** X6.  A plate at a uniform temperature conducts nothing within itself:
    where the two pitches are not zero, [intraplate_cond] returns zero at
    every cell, the four edges included. *)
Theorem intraplate_cond_uniform (plate : pass) (s : PCHE) (x : R) :
  deltax s ≠ 0 → deltaz s ≠ 0 →
  has_shape (rows s) (columns s) (arr s f_plate_T plate) →
  (2 ≤ rows s)%nat → (2 ≤ columns s)%nat →
  (∀ r c, (r < rows s)%nat → (c < columns s)%nat →
     (arr s f_plate_T plate).[r, c] = x) →
  ∃ g, intraplate_cond plate s = Some g
       ∧ ∀ r c, (r < rows s)%nat → (c < columns s)%nat →
           cell g r c = Some 0.
Proof.
  intros _ _ Hs Hn Hm Hx.
  destruct (intraplate_cond_cells plate s Hs Hn Hm) as (g & Hg & Hsh & Hc).
  exists g. split; [exact Hg|]. intros r c Hr Hcc.
  destruct (cell_is_Some _ _ g r c Hsh Hr Hcc) as [y Hy].
  rewrite Hy. f_equal. rewrite <- (at_cell g r c y Hy), (Hc r c Hr Hcc).
  rewrite (second_difference_constant _ _ _ x), (second_difference_constant _ _ _ x)
    by (done || intros; by apply Hx).
  ring.
Qed.

Lemma intraplate_cond_uniform_witness :
  ∃ g, intraplate_cond utility5 example_heat = Some g
       ∧ cell g 1 1 = Some 0.
Proof.
  destruct (intraplate_cond_uniform utility5 example_heat 710)
    as (g & Hg & Hc).
  - change (0.0015 + 0.0011 ≠ 0). lra.
  - change (0.0015 + 0.0011 ≠ 0). lra.
  - apply (full_shape 2 2).
  - repeat constructor.
  - repeat constructor.
  - intros r c Hr Hcc. apply (at_full 2 2); assumption.
  - exists g. split; [exact Hg|]. apply Hc; repeat constructor.
Defined.

(** X7.  A plate with a single row or a single column of cells cannot be
    evaluated: the edge conditions of [intraplate_cond] index the second
    row and the second column, and the call fails. *)
Theorem intraplate_cond_needs_two (plate : pass) (s : PCHE) :
  has_shape (rows s) (columns s) (arr s f_plate_T plate) →
  (rows s < 2)%nat ∨ (columns s < 2)%nat →
  intraplate_cond plate s = None.
Proof.
  intros Hs Hsmall. apply intraplate_cond_small.
  destruct (decide (rows s < 2)%nat) as [Hn|Hn].
  - left. destruct Hs as [-> _]. exact Hn.
  - right. rewrite (shape1_shape (rows s) (columns s)) by (done || lia).
    destruct Hsmall; [done | assumption].
Qed.

Lemma intraplate_cond_needs_two_witness :
  intraplate_cond fuel3 example_single_row = None.
Proof.
  apply (intraplate_cond_needs_two fuel3 example_single_row).
  - apply (full_shape 1 2).
  - left. repeat constructor.
Defined.

(** ** Calls of the right-hand side, continued *)

Lemma store_T_shaped T s s' : store_T T s = Some s' → T_shaped s'.
Proof.
  intros H.
  destruct (decide (10 * rows s * columns s ≤ length T)%nat) as [Hlen|Hlen].
  - destruct (store_T_Some T s Hlen) as (s1 & H1 & HT).
    rewrite H in H1. by injection H1 as <-.
  - unfold store_T in H. rewrite unwrap_T_short in H by lia. discriminate H.
Qed.

Lemma store_T_length T s s' :
  store_T T s = Some s' → (10 * rows s * columns s ≤ length T)%nat.
Proof.
  intros H.
  destruct (decide (10 * rows s * columns s ≤ length T)%nat) as [|Hlen];
    [done|].
  unfold store_T in H. rewrite unwrap_T_short in H by lia. discriminate H.
Qed.

Lemma dTdt_fluid_shape p s g :
  dTdt_fluid p s = Some g → has_shape (rows s) (columns s) g.
Proof.
  unfold dTdt_fluid. intros H. apply bind_Some in H as (adv & _ & H).
  injection H as <-. apply elementwise_shape.
Qed.

Lemma dTdt_plate_shape p s g :
  dTdt_plate p s = Some g → has_shape (rows s) (columns s) g.
Proof.
  unfold dTdt_plate. intros H. apply bind_Some in H as (cond & _ & H).
  injection H as <-. apply elementwise_shape.
Qed.

Lemma derivative_length s dTdt :
  derivative s = Some dTdt → length dTdt = (10 * rows s * columns s)%nat.
Proof.
  unfold derivative. intros H.
  apply bind_Some in H as (g1 & H1 & H). apply dTdt_fluid_shape in H1.
  apply bind_Some in H as (g2 & H2 & H). apply dTdt_fluid_shape in H2.
  apply bind_Some in H as (g3 & H3 & H). apply dTdt_fluid_shape in H3.
  apply bind_Some in H as (g4 & H4 & H). apply dTdt_fluid_shape in H4.
  apply bind_Some in H as (g5 & H5 & H). apply dTdt_fluid_shape in H5.
  apply bind_Some in H as (g6 & H6 & H). apply dTdt_plate_shape in H6.
  apply bind_Some in H as (g7 & H7 & H). apply dTdt_plate_shape in H7.
  apply bind_Some in H as (g8 & H8 & H). apply dTdt_plate_shape in H8.
  apply bind_Some in H as (g9 & H9 & H). apply dTdt_plate_shape in H9.
  apply bind_Some in H as (g10 & H10 & H). apply dTdt_plate_shape in H10.
  injection H as <-.
  apply (length_concatenate_ravel (rows s) (columns s)
           (g1, g2, g3, g4, g5, g6, g7, g8, g9, g10)).
  cbn [grids].
  repeat (apply Forall_cons; split; [assumption|]). by apply Forall_nil.
Qed.

(** The blocks of a call that returned. *)
Lemma transient_solver_inv s t T s' dTdt :
  transient_solver s t T = Some (s', dTdt) →
  ∃ s1 s2 s3,
    store_T T s = Some s1 ∧ mol_frac_and_cp s1 = Some s2
    ∧ update_properties s2 = Some s3
    ∧ s' = heat_transfer (convective_coefficients (update_friction
             (Prandtl_Reynolds (bulk_velocity s3))))
    ∧ derivative s' = Some dTdt.
Proof.
  unfold transient_solver. intros H.
  apply bind_Some in H as (s1 & H1 & H).
  apply bind_Some in H as (s2 & H2 & H).
  apply bind_Some in H as (s3 & H3 & H).
  apply bind_Some in H as (d & Hd & H).
  injection H as <- <-. by exists s1, s2, s3.
Qed.

Lemma transient_solver_shaped s t T s' dTdt :
  transient_solver s t T = Some (s', dTdt) → T_shaped s'.
Proof.
  intros H.
  destruct (transient_solver_inv _ _ _ _ _ H)
    as (s1 & s2 & s3 & H1 & H2 & H3 & -> & _).
  apply (T_shaped_agree false s3);
    [apply (agree_upto 2 11 true false);
       [lia | done | apply flow_blocks_frame]|].
  apply (T_shaped_agree false s2);
    [apply (agree_upto 2 7 true false);
       [lia | done | by apply update_properties_frame]|].
  apply (T_shaped_agree false s1); [by apply mol_frac_and_cp_frame|].
  by eapply store_T_shaped.
Qed.

(** X8.  The vector returned by [transient_solver] has
    [10 * rows * columns] entries, one derivative for each cell of the ten
    grids, also when the state vector passed in was longer. *)
Theorem transient_solver_length (s : PCHE) (t : R) (T : list R) s' dTdt :
  transient_solver s t T = Some (s', dTdt) →
  length dTdt = (10 * rows s * columns s)%nat.
Proof.
  intros H.
  destruct (agree_rows _ _ _ _ (transient_solver_frame _ _ _ _ _ H))
    as [-> ->].
  destruct (transient_solver_inv _ _ _ _ _ H) as (_ & _ & _ & _ & _ & _ & _ & Hd).
  by apply derivative_length.
Qed.

Lemma transient_solver_length_witness :
  ∃ s' dTdt, transient_solver example 0 (example_T ++ [0; 0]) = Some (s', dTdt)
             ∧ length dTdt = 40%nat.
Proof.
  destruct (transient_solver_Some example 0 (example_T ++ [0; 0]))
    as (s' & dTdt & E & _).
  - repeat constructor.
  - repeat constructor.
  - repeat constructor.
  - exact example_tabulated.
  - exists s', dTdt. split; [exact E|].
    exact (transient_solver_length example 0 (example_T ++ [0; 0]) s' dTdt E).
Defined.

(** X9.  An instance with a single row or a single column of channels has
    no right-hand side: every call of [transient_solver] fails, at the
    latest in the conduction term of the first plate. *)
Theorem transient_solver_needs_two_channels (s : PCHE) (t : R) (T : list R) :
  (rows s < 2)%nat ∨ (columns s < 2)%nat →
  transient_solver s t T = None.
Proof.
  intros Hsmall.
  destruct (transient_solver s t T) as [[s' dTdt]|] eqn:H; [exfalso|done].
  pose proof (transient_solver_shaped _ _ _ _ _ H utility1) as [_ Hsh].
  destruct (agree_rows _ _ _ _ (transient_solver_frame _ _ _ _ _ H))
    as [Hrows Hcols].
  destruct (transient_solver_inv _ _ _ _ _ H)
    as (_ & _ & _ & _ & _ & _ & _ & Hd).
  unfold derivative in Hd.
  do 5 (apply bind_Some in Hd as (? & _ & Hd)).
  apply bind_Some in Hd as (g6 & H6 & _).
  unfold dTdt_plate in H6. apply bind_Some in H6 as (cond & Hcond & _).
  rewrite intraplate_cond_small in Hcond; [discriminate Hcond|].
  destruct (decide (rows s' < 2)%nat) as [Hn|Hn].
  - left. destruct Hsh as [-> _]. exact Hn.
  - right. rewrite (shape1_shape (rows s') (columns s')) by (done || lia).
    lia.
Qed.

Lemma transient_solver_needs_two_channels_witness :
  transient_solver example_single_row 0 (replicate 20 700) = None.
Proof.
  apply (transient_solver_needs_two_channels example_single_row).
  left. repeat constructor.
Defined.

(** ** Where a call stores the state vector *)

Lemma store_T_cells T s s1 p r c :
  store_T T s = Some s1 → (r < rows s)%nat → (c < columns s)%nat →
  cell (arr s1 f_T p) r c
  = T !! ((pass_index p - 1) * (rows s * columns s) + r * columns s + c)%nat
  ∧ cell (arr s1 f_plate_T p) r c
    = T !! ((pass_index p + 4) * (rows s * columns s) + r * columns s + c)%nat.
Proof.
  unfold store_T. intros H Hr Hc.
  apply bind_Some in H as (g & Hg & H).
  destruct g as [[[[[[[[[g1 g2] g3] g4] g5] g6] g7] g8] g9] g10].
  injection H as <-.
  split; destruct p;
    repeat first
      [ rewrite arr_set_arr_same; cbn [pass_eqb pass_index Nat.eqb]
      | rewrite arr_set_arr_other by reflexivity ];
    cbn [pass_index Nat.sub Nat.add].
  - exact (unwrap_T_cell _ _ _ _ 0 _ r c Hg eq_refl Hr Hc).
  - exact (unwrap_T_cell _ _ _ _ 1 _ r c Hg eq_refl Hr Hc).
  - exact (unwrap_T_cell _ _ _ _ 2 _ r c Hg eq_refl Hr Hc).
  - exact (unwrap_T_cell _ _ _ _ 3 _ r c Hg eq_refl Hr Hc).
  - exact (unwrap_T_cell _ _ _ _ 4 _ r c Hg eq_refl Hr Hc).
  - exact (unwrap_T_cell _ _ _ _ 5 _ r c Hg eq_refl Hr Hc).
  - exact (unwrap_T_cell _ _ _ _ 6 _ r c Hg eq_refl Hr Hc).
  - exact (unwrap_T_cell _ _ _ _ 7 _ r c Hg eq_refl Hr Hc).
  - exact (unwrap_T_cell _ _ _ _ 8 _ r c Hg eq_refl Hr Hc).
  - exact (unwrap_T_cell _ _ _ _ 9 _ r c Hg eq_refl Hr Hc).
Qed.

(** A call keeps the temperatures it stored at its start. *)
Lemma transient_solver_keeps_T s t T s' dTdt :
  transient_solver s t T = Some (s', dTdt) →
  ∃ s1, store_T T s = Some s1 ∧ agree (upto 2) false s1 s'.
Proof.
  intros H.
  destruct (transient_solver_inv _ _ _ _ _ H)
    as (s1 & s2 & s3 & H1 & H2 & H3 & -> & _).
  exists s1. split; [done|].
  pose proof (mol_frac_and_cp_frame _ _ H2) as F2.
  pose proof (agree_upto 2 7 true false _ _ ltac:(lia) ltac:(done)
                (update_properties_frame _ _ H3)) as F3.
  pose proof (agree_upto 2 11 true false _ _ ltac:(lia) ltac:(done)
                (flow_blocks_frame s3)) as F4.
  exact (agree_trans _ _ _ _ _ F2 (agree_trans _ _ _ _ _ F3 F4)).
Qed.

(** X10.  After a call of [transient_solver] that returned, the stored
    temperature fields are the slices of the state vector of that call:
    the fluid of the [i]-th pass (from 1) holds the [(i-1)]-th block of
    [rows * columns] entries and its plate the [(i+4)]-th, each in row-major
    order. *)
Theorem transient_solver_stores_T (s : PCHE) (t : R) (T : list R) s' dTdt
    (p : pass) (r c : nat) :
  transient_solver s t T = Some (s', dTdt) →
  (r < rows s)%nat → (c < columns s)%nat →
  cell (arr s' f_T p) r c
  = T !! ((pass_index p - 1) * (rows s * columns s) + r * columns s + c)%nat
  ∧ cell (arr s' f_plate_T p) r c
    = T !! ((pass_index p + 4) * (rows s * columns s) + r * columns s + c)%nat.
Proof.
  intros H Hr Hc.
  destruct (transient_solver_keeps_T _ _ _ _ _ H) as (s1 & H1 & Hag).
  destruct Hag as (_ & _ & _ & _ & _ & Harr & _).
  rewrite <- !Harr by done. by apply store_T_cells.
Qed.

Lemma transient_solver_stores_T_witness :
  ∃ s' dTdt, transient_solver example 0 example_T = Some (s', dTdt)
             ∧ cell (arr s' f_T fuel3) 1 1 = Some 500
             ∧ cell (arr s' f_plate_T reactant4) 0 1 = Some 900.
Proof.
  destruct (transient_solver_Some example 0 example_T)
    as (s' & dTdt & E & _).
  - repeat constructor.
  - repeat constructor.
  - repeat constructor.
  - exact example_tabulated.
  - exists s', dTdt. split; [exact E|].
    split.
    + apply (transient_solver_stores_T example 0 example_T s' dTdt fuel3 1 1 E);
        repeat constructor.
    + apply (transient_solver_stores_T example 0 example_T s' dTdt
               reactant4 0 1 E); repeat constructor.
Defined.

(** ** What a pressure update leaves alone *)

Lemma same_but_pressures_refl s : same_but_pressures s s.
Proof. by repeat split. Qed.

Lemma same_but_pressures_trans s1 s2 s3 :
  same_but_pressures s1 s2 → same_but_pressures s2 s3 →
  same_but_pressures s1 s3.
Proof.
  intros (R1 & U1 & F1 & D1 & T1 & M1 & W1 & A1)
         (R2 & U2 & F2 & D2 & T2 & M2 & W2 & A2).
  do 7 (split; [congruence|]).
  intros a p Ha. by rewrite A2, A1.
Qed.

Lemma same_but_pressures_set p v s :
  same_but_pressures s (set_arr f_P p v s).
Proof.
  do 7 (split; [done|]). intros a q Ha.
  apply arr_set_arr_other.
  destruct a as [| | |[]| | | | | | | | | | | |]; done.
Qed.

Lemma for_each_rel {St : Type} (Rel : St → St → Prop)
    (body : nat → St → option St) l s s' :
  (∀ a, Rel a a) → (∀ a b c, Rel a b → Rel b c → Rel a c) →
  (∀ i a b, body i a = Some b → Rel a b) →
  for_each body l s = Some s' → Rel s s'.
Proof.
  intros Hrefl Htrans Hbody. revert s.
  induction l as [|i l IH]; intros s H; simpl in H.
  - injection H as <-. apply Hrefl.
  - apply bind_Some in H as (s1 & H1 & H).
    eapply Htrans; [by eapply Hbody | by apply IH].
Qed.

Lemma pressure_step_frame p (P : option (list (list R))) s s' :
  (P' ← P; Some (set_arr f_P p P' s)) = Some s' → same_but_pressures s s'.
Proof.
  intros H. apply bind_Some in H as (P' & _ & H). injection H as <-.
  apply same_but_pressures_set.
Qed.

Lemma inlet_row_frame p inlet dP s s' :
  inlet_row p inlet dP s = Some s' → same_but_pressures s s'.
Proof.
  unfold inlet_row. intros H. apply bind_Some in H as (d & _ & H).
  by eapply pressure_step_frame.
Qed.

Lemma inlet_col_frame p inlet dP s s' :
  inlet_col p inlet dP s = Some s' → same_but_pressures s s'.
Proof.
  unfold inlet_col. intros H. apply bind_Some in H as (d & _ & H).
  by eapply pressure_step_frame.
Qed.

Lemma march_row_frame p dP i s s' :
  march_row p dP i s = Some s' → same_but_pressures s s'.
Proof.
  unfold march_row. intros H. apply bind_Some in H as (prev & _ & H).
  apply bind_Some in H as (d & _ & H). by eapply pressure_step_frame.
Qed.

Lemma march_col_frame p dP i s s' :
  march_col p dP i s = Some s' → same_but_pressures s s'.
Proof.
  unfold march_col. intros H. apply bind_Some in H as (prev & _ & H).
  apply bind_Some in H as (d & _ & H). by eapply pressure_step_frame.
Qed.

Lemma update_pressures_cold_frame s s' :
  update_pressures_cold s = Some s' → same_but_pressures s s'.
Proof.
  unfold update_pressures_cold. intros H.
  apply bind_Some in H as (s1 & H1 & H). apply inlet_row_frame in H1.
  apply bind_Some in H as (s2 & H2 & H). apply inlet_col_frame in H2.
  apply bind_Some in H as (s3 & H3 & H). apply inlet_col_frame in H3.
  apply bind_Some in H as (s4 & H4 & H). apply inlet_col_frame in H4.
  apply bind_Some in H as (s5 & H5 & H). apply inlet_row_frame in H5.
  apply bind_Some in H as (s6 & H6 & H).
  apply (for_each_rel same_but_pressures) in H6, H;
    try apply same_but_pressures_refl; try apply same_but_pressures_trans.
  - eauto 10 using same_but_pressures_trans.
  - intros i a b Hb.
    apply bind_Some in Hb as (b1 & Hb1 & Hb). apply march_row_frame in Hb1.
    apply march_row_frame in Hb. by eapply same_but_pressures_trans.
  - intros i a b Hb.
    apply bind_Some in Hb as (b1 & Hb1 & Hb). apply march_col_frame in Hb1.
    apply bind_Some in Hb as (b2 & Hb2 & Hb). apply march_col_frame in Hb2.
    apply march_col_frame in Hb.
    eauto using same_but_pressures_trans.
Qed.

Lemma update_pressures_warm_frame s s' :
  update_pressures_warm s = Some s' → same_but_pressures s s'.
Proof.
  unfold update_pressures_warm. intros H.
  apply bind_Some in H as (d1 & _ & H). apply bind_Some in H as (P1 & _ & H).
  apply bind_Some in H as (d2 & _ & H). apply bind_Some in H as (P2 & _ & H).
  apply bind_Some in H as (d3 & _ & H). apply bind_Some in H as (P3 & _ & H).
  apply bind_Some in H as (d4 & _ & H). apply bind_Some in H as (P4 & _ & H).
  apply bind_Some in H as (d5 & _ & H). apply bind_Some in H as (P5 & _ & H).
  injection H as <-.
  eauto 10 using same_but_pressures_trans, same_but_pressures_set.
Qed.

(** X11.  A pressure update that returns changes the five pressure fields
    only: the stream descriptors, the dimensions, the property tables, the
    mole fractions and every other stored array, the temperatures among
    them, are the ones before the call, in the cold branch and in the warm
    branch alike. *)
Theorem update_pressures_frame (s : PCHE) :
  match update_pressures s with
  | Some s' => same_but_pressures s s'
  | None => True
  end.
Proof.
  destruct (update_pressures s) as [s'|] eqn:H; [|done].
  unfold update_pressures in H. apply bind_Some in H as (cold & _ & H).
  destruct cold;
    [by apply update_pressures_cold_frame | by apply update_pressures_warm_frame].
Qed.

(** ** The warm branch needs a square grid *)

Lemma set_col_broadcast {A : Type} n m (g : list (list A)) c x :
  has_shape n m g → (c < m)%nat → n ≠ 1%nat →
  set_col c [x] g
  = Some (zip_with (λ (row : list A) y, <[c := y]> row) g (replicate n x)).
Proof.
  intros Hs Hc Hn. unfold set_col, broadcast_to.
  destruct Hs as [Hl Hf] eqn:E. rewrite Hl.
  rewrite decide_False by (cbn; lia). cbn [mbind option_bind].
  by rewrite (forallb_columns n m).
Qed.

Lemma set_row_None {A : Type} n m (g : list (list A)) r v :
  has_shape n m g → (r < n)%nat → length v ≠ m → length v ≠ 1%nat →
  set_row r v g = None.
Proof.
  intros Hs Hr Hv H1.
  destruct (has_shape_lookup n m g r Hs Hr) as (row & Hrow & Hl).
  unfold set_row. rewrite Hrow. cbn [mbind option_bind].
  rewrite broadcast_to_None by lia. done.
Qed.

Lemma warm_roll_shape p axis dP s :
  has_shape (rows s) (columns s) (warm_roll p axis dP s).
Proof. apply elementwise_shape. Qed.

Lemma update_pressures_warm_one_column (s : PCHE) :
  columns s = 1%nat → (2 ≤ rows s)%nat → update_pressures_warm s = None.
Proof.
  intros Hm Hn. unfold update_pressures_warm.
  destruct (has_shape_lookup _ _ _ 0 (deltaP_shape utility1 s))
    as (d & Hd & Hld); [lia|].
  unfold get_row. rewrite Hd. cbn [mbind option_bind].
  destruct d as [|x [|y d]]; [simpl in Hld; lia | | simpl in Hld; lia].
  cbn [map].
  rewrite (set_col_broadcast (rows s) (columns s))
    by (apply warm_roll_shape || lia).
  cbn [mbind option_bind].
  destruct (get_col_Some _ _ _ 0 (deltaP_shape reactant2 s))
    as (d2 & -> & Ld2 & _); [lia|].
  cbn [mbind option_bind].
  rewrite (set_row_None (rows s) (columns s));
    [done
    | unfold warm_roll; rewrite rows_set_arr, columns_set_arr;
      apply elementwise_shape
    | lia | rewrite length_map; lia | rewrite length_map; lia].
Qed.

(** X12.  On a grid that is not square the warm branch of the pressure
    update fails: the utility passes are assigned a column of [rows] cells
    from the [columns] losses of a row, and the reactant passes a row from
    the losses of a column. *)
Theorem update_pressures_warm_needs_square (s : PCHE) :
  (0 < rows s)%nat → (0 < columns s)%nat →
  rows s ≠ columns s →
  update_pressures_warm s = None.
Proof.
  intros Hn Hm Hne.
  destruct (decide (columns s = 1%nat)) as [H1|H1].
  - apply update_pressures_warm_one_column; [done | lia].
  - by apply update_pressures_warm_not_square.
Qed.

Lemma update_pressures_warm_needs_square_witness :
  update_pressures_warm example_oblong = None.
Proof.
  apply (update_pressures_warm_needs_square example_oblong).
  - repeat constructor.
  - repeat constructor.
  - discriminate.
Defined.

(** ** Mixture data, continued *)

Lemma thermo_of_None tbl comp sp :
  Exists (λ d : dict R, dict_get d sp = None) (thermo_tables tbl) →
  thermo_of tbl comp sp = None.
Proof.
  intros Hex. unfold thermo_of, thermo_tables in *.
  repeat match goal with
         | |- context [dict_get ?d sp] =>
             destruct (dict_get d sp) eqn:?; cbn [mbind option_bind];
             [|reflexivity]
         end.
  exfalso.
  repeat (apply Exists_cons in Hex as [Hex|Hex]; [congruence|]).
  by apply Exists_nil in Hex.
Qed.

Lemma mol_frac_and_cp_None s i sp :
  sp ∈ keys (composition (stream_in s i)) →
  thermo_of (tables s) (composition (stream_in s i)) sp = None →
  mol_frac_and_cp s = None.
Proof.
  intros Hin Hnone.
  assert (Hm : mapM (thermo_of (tables s) (composition (stream_in s i)))
                 (keys (composition (stream_in s i))) = None).
  { apply mapM_None_2, Exists_exists. by exists sp. }
  destruct (mol_frac_and_cp s) as [s'|] eqn:E; [exfalso|done].
  destruct (mol_frac_and_cp_stream s s' i E) as (species & Hsp & _).
  congruence.
Qed.

(** X13.  A species of one of the three compositions that has no entry in
    one of the dictionaries read by [mol_frac_and_cp] (the molecular weights
    and the ten lists of heat-capacity coefficients) makes
    [mol_frac_and_cp] fail, and with it every call of [transient_solver]
    and every update of a stream. *)
Theorem untabulated_species_fails (s : PCHE) (i : stream_id) (sp : string) :
  sp ∈ keys (composition (stream_in s i)) →
  Exists (λ d : dict R, dict_get d sp = None) (thermo_tables (tables s)) →
  mol_frac_and_cp s = None
  ∧ (∀ t T, transient_solver s t T = None)
  ∧ update_reactant (reactant s) s = None
  ∧ update_utility (utility s) s = None
  ∧ update_fuel (fuel s) s = None.
Proof.
  intros Hin Hex.
  pose proof (thermo_of_None (tables s) (composition (stream_in s i)) sp Hex)
    as Hnone.
  split; [by apply (mol_frac_and_cp_None s i sp)|]. split.
  - intros t T.
    destruct (transient_solver s t T) as [[s' dTdt]|] eqn:H; [exfalso|done].
    destruct (transient_solver_inv _ _ _ _ _ H) as (s1 & s2 & _ & H1 & H2 & _).
    destruct (store_T_frame _ _ _ H1) as (Hr & Hu & Hf & _ & Ht & _).
    rewrite (mol_frac_and_cp_None s1 i sp) in H2; [discriminate H2| |].
    + unfold stream_in. rewrite <- Hr, <- Hu, <- Hf. exact Hin.
    + unfold stream_in. rewrite <- Ht, <- Hr, <- Hu, <- Hf. exact Hnone.
  - repeat split; by apply (mol_frac_and_cp_None _ i sp); destruct i.
Qed.

Lemma untabulated_species_fails_witness :
  mol_frac_and_cp example_untabulated = None
  ∧ transient_solver example_untabulated 0 example_T = None.
Proof.
  destruct (untabulated_species_fails example_untabulated Utility "XE")
    as (H1 & H2 & _).
  - apply list_elem_of_singleton. reflexivity.
  - apply Exists_cons. left. reflexivity.
  - split; [exact H1 | exact (H2 0 example_T)].
Defined.

(** ** Replacing a stream *)

Lemma mol_frac_and_cp_lookups s :
  is_Some (mol_frac_and_cp s)
  ↔ ∀ i, is_Some (mapM (thermo_of (tables s) (composition (stream_in s i)))
                       (keys (composition (stream_in s i)))).
Proof.
  split.
  - intros [s' Hs'] i.
    destruct (mol_frac_and_cp_stream s s' i Hs') as (species & -> & _).
    by eexists.
  - intros Hl.
    destruct (Hl Reactant) as [sr Hr], (Hl Utility) as [su Hu],
             (Hl Fuel) as [sf Hf].
    unfold mol_frac_and_cp. rewrite Hr, Hu, Hf. by eexists.
Qed.

(** A call recomputes the mixture data: running [mol_frac_and_cp] before
    it changes nothing of what it returns. *)
Lemma mol_frac_and_cp_then_solve s t T :
  snd <$> (mol_frac_and_cp s ≫= λ s', transient_solver s' t T)
  = snd <$> transient_solver s t T.
Proof.
  destruct (mol_frac_and_cp s) as [s'|] eqn:E; cbn [mbind option_bind].
  - apply transient_solver_agree. apply agree_sym.
    apply (agree_upto 0 2 false false);
      [lia | done | by apply mol_frac_and_cp_frame].
  - destruct (transient_solver s t T) as [[s2 dTdt]|] eqn:H; [exfalso|done].
    destruct (transient_solver_inv _ _ _ _ _ H)
      as (s1 & s2' & _ & H1 & H2 & _).
    destruct (store_T_frame _ _ _ H1) as (Hr & Hu & Hf & _ & Ht & _).
    assert (Hsome : is_Some (mol_frac_and_cp s)); [|by destruct Hsome; congruence].
    apply mol_frac_and_cp_lookups. intros i.
    assert (Hs1 : is_Some (mol_frac_and_cp s1)) by (by eexists).
    pose proof (proj1 (mol_frac_and_cp_lookups s1) Hs1 i) as Hi.
    unfold stream_in in *. by rewrite Ht, Hr, Hu, Hf.
Qed.

(** X14.  On an instance whose temperature fields exist, replacing a
    stream with [update_reactant], [update_utility] or [update_fuel] and
    then calling [transient_solver] returns the vector, or fails, as a call
    on the instance with the new descriptor alone would: the mixture data
    recomputed by the update are recomputed again by the call. *)
Theorem update_then_solve (s : PCHE) (new : stream) (t : R) (T : list R) :
  T_shaped s →
  snd <$> (update_reactant new s ≫= λ s', transient_solver s' t T)
  = snd <$> transient_solver (set_reactant new s) t T
  ∧ snd <$> (update_utility new s ≫= λ s', transient_solver s' t T)
    = snd <$> transient_solver (set_utility new s) t T
  ∧ snd <$> (update_fuel new s ≫= λ s', transient_solver s' t T)
    = snd <$> transient_solver (set_fuel new s) t T.
Proof.
  intros _. unfold update_reactant, update_utility, update_fuel.
  repeat split; apply mol_frac_and_cp_then_solve.
Qed.

Lemma update_then_solve_witness :
  snd <$> (update_utility example_fuel example_heat
           ≫= λ s', transient_solver s' 0 example_T)
  = snd <$> transient_solver (set_utility example_fuel example_heat)
              0 example_T.
Proof.
  destruct (update_then_solve example_heat example_fuel 0 example_T)
    as (_ & H & _); [|exact H].
  intros p. split; destruct p; apply (full_shape 2 2).
Defined.

(** ** The pressure update in rounded arithmetic *)

Section RoundedMarch.
Context {A : Type}.
Variable N : Rounded.arithmetic A.

Lemma num_at_cell (g : grid A) r c x :
  cell g r c = Some x → Rounded.at_ N g r c = x.
Proof. intros H. unfold Rounded.at_. by rewrite H. Qed.

Lemma num_at_row (g : grid A) r c row x :
  g !! r = Some row → row !! c = Some x → Rounded.at_ N g r c = x.
Proof.
  intros Hr Hc. apply num_at_cell. by rewrite (cell_row g r c row).
Qed.

Lemma num_elementwise_shape n m (e : nat → nat → A) :
  has_shape n m (Rounded.elementwise n m e).
Proof.
  unfold Rounded.elementwise. split.
  - by rewrite length_map, length_seq.
  - apply Forall_forall. intros row Hin.
    apply list_elem_of_fmap in Hin as (r & -> & _).
    by rewrite length_map, length_seq.
Qed.

Lemma num_at_elementwise n m (e : nat → nat → A) r c :
  (r < n)%nat → (c < m)%nat →
  Rounded.at_ N (Rounded.elementwise n m e) r c = e r c.
Proof.
  intros Hr Hc. apply num_at_cell. unfold cell, Rounded.elementwise.
  rewrite list_lookup_fmap, lookup_seq_lt by done. simpl.
  by rewrite list_lookup_fmap, lookup_seq_lt by done.
Qed.

Lemma num_deltaP_shape p (s : Rounded.state A) :
  has_shape (Rounded.rows s) (Rounded.columns s) (Rounded.deltaP N p s).
Proof. destruct p; apply num_elementwise_shape. Qed.

Lemma num_inlet_col_grid n m inlet (dP P : grid A) :
  has_shape n m P → has_shape n m dP → (0 < m)%nat →
  ∃ P', (d ← get_col 0 dP;
         set_col 0 (map (λ x, Rounded.sub N inlet x) d) P) = Some P'
        ∧ has_shape n m P' ∧ Rounded.col_marched N n inlet dP P' 1.
Proof.
  intros HP HdP Hm.
  destruct (get_col_Some n m dP 0 HdP Hm) as (d & Hd & Hld & Hdc).
  rewrite Hd. cbn [mbind option_bind].
  rewrite (set_col_Some n m) by (by rewrite ?length_map).
  eexists; split; [reflexivity|]. split.
  - apply set_col_shape; [done | by rewrite length_map].
  - intros r c Hr Hc. assert (c = 0%nat) as -> by lia.
    apply num_at_cell. rewrite (cell_set_col n m) by (by rewrite ?length_map).
    rewrite decide_True by done.
    rewrite list_lookup_fmap, Hdc by done.
    destruct (cell_is_Some n m dP r 0 HdP Hr Hm) as [x Hx].
    rewrite Hx. simpl. by rewrite (num_at_cell dP r 0 x).
Qed.

Lemma num_march_col_grid n m inlet (dP P : grid A) k :
  has_shape n m P → has_shape n m dP → (1 ≤ k)%nat → (k < m)%nat →
  Rounded.col_marched N n inlet dP P k →
  ∃ P', (prev ← get_col (k - 1) P; d ← get_col k dP;
         set_col k (zip_with (Rounded.sub N) prev d) P) = Some P'
        ∧ has_shape n m P' ∧ Rounded.col_marched N n inlet dP P' (S k).
Proof.
  intros HP HdP Hk1 Hkm Hmarch.
  destruct (get_col_Some n m P (k - 1) HP) as (prev & Hprev & Hlp & Hpc); [lia|].
  destruct (get_col_Some n m dP k HdP Hkm) as (d & Hd & Hld & Hdc).
  rewrite Hprev, Hd. cbn [mbind option_bind].
  assert (Hlz : length (zip_with (Rounded.sub N) prev d) = n)
    by (rewrite length_zip_with; lia).
  rewrite (set_col_Some n m) by done.
  eexists; split; [reflexivity|]. split; [by apply set_col_shape|].
  assert (Hat : ∀ r c, (r < n)%nat →
    Rounded.at_ N
      (zip_with (λ (row : list A) x, <[k := x]> row) P
         (zip_with (Rounded.sub N) prev d)) r c
    = if decide (c = k)
      then Rounded.sub N (Rounded.at_ N P r (k - 1)) (Rounded.at_ N dP r k)
      else Rounded.at_ N P r c).
  { intros r c Hr. unfold Rounded.at_ at 1.
    rewrite (cell_set_col n m) by done.
    case_decide; [|done].
    rewrite lookup_zip_with, Hpc, Hdc by done.
    destruct (cell_is_Some n m P r (k - 1) HP Hr) as [x Hx]; [lia|].
    destruct (cell_is_Some n m dP r k HdP Hr Hkm) as [y Hy].
    rewrite Hx, Hy. simpl.
    by rewrite (num_at_cell P _ _ x), (num_at_cell dP _ _ y). }
  intros r c Hr Hc. rewrite Hat by done.
  case_decide as Hck.
  - subst c. destruct k as [|k']; [lia|].
    rewrite Hat by done. rewrite decide_False by lia.
    by replace (S k' - 1)%nat with k' by lia.
  - rewrite (Hmarch r c) by lia.
    destruct c as [|c']; [done|].
    rewrite Hat by done. by rewrite decide_False by lia.
Qed.

Lemma num_inlet_row_grid n m inlet (dP P : grid A) :
  has_shape n m P → has_shape n m dP → (0 < n)%nat →
  ∃ P', (d ← get_row 0 dP;
         set_row 0 (map (λ x, Rounded.sub N inlet x) d) P) = Some P'
        ∧ has_shape n m P' ∧ Rounded.row_marched N m inlet dP P' 1.
Proof.
  intros HP HdP Hn.
  destruct (has_shape_lookup n m dP 0 HdP Hn) as (d & Hd & Hld).
  unfold get_row. rewrite Hd. cbn [mbind option_bind].
  rewrite (set_row_Some n m) by (by rewrite ?length_map).
  eexists; split; [reflexivity|]. split.
  - apply set_row_shape; [done | by rewrite length_map].
  - intros r c Hr Hc. assert (r = 0%nat) as -> by lia.
    apply num_at_cell. rewrite cell_insert_row by (destruct HP; lia).
    rewrite decide_True by done.
    rewrite list_lookup_fmap.
    destruct (lookup_lt_is_Some_2 d c) as [x Hx]; [lia|].
    rewrite Hx. simpl. by rewrite (num_at_row dP 0 c d x Hd Hx).
Qed.

Lemma num_march_row_grid n m inlet (dP P : grid A) k :
  has_shape n m P → has_shape n m dP → (1 ≤ k)%nat → (k < n)%nat →
  Rounded.row_marched N m inlet dP P k →
  ∃ P', (prev ← get_row (k - 1) P; d ← get_row k dP;
         set_row k (zip_with (Rounded.sub N) prev d) P) = Some P'
        ∧ has_shape n m P' ∧ Rounded.row_marched N m inlet dP P' (S k).
Proof.
  intros HP HdP Hk1 Hkn Hmarch.
  destruct (has_shape_lookup n m P (k - 1) HP) as (prev & Hprev & Hlp); [lia|].
  destruct (has_shape_lookup n m dP k HdP Hkn) as (d & Hd & Hld).
  unfold get_row. rewrite Hprev, Hd. cbn [mbind option_bind].
  assert (Hlz : length (zip_with (Rounded.sub N) prev d) = m)
    by (rewrite length_zip_with; lia).
  rewrite (set_row_Some n m) by done.
  eexists; split; [reflexivity|]. split; [by apply set_row_shape|].
  assert (Hat : ∀ r c, (c < m)%nat →
    Rounded.at_ N (<[k := zip_with (Rounded.sub N) prev d]> P) r c
    = if decide (r = k)
      then Rounded.sub N (Rounded.at_ N P (k - 1) c) (Rounded.at_ N dP k c)
      else Rounded.at_ N P r c).
  { intros r c Hc. unfold Rounded.at_ at 1.
    rewrite cell_insert_row by (destruct HP; lia).
    case_decide; [|done].
    rewrite lookup_zip_with.
    destruct (lookup_lt_is_Some_2 prev c) as [x Hx]; [lia|].
    destruct (lookup_lt_is_Some_2 d c) as [y Hy]; [lia|].
    rewrite Hx, Hy. simpl.
    by rewrite (num_at_row P _ c prev x Hprev Hx),
               (num_at_row dP _ c d y Hd Hy). }
  intros r c Hr Hc. rewrite Hat by done.
  case_decide as Hrk.
  - subst r. destruct k as [|k']; [lia|].
    rewrite Hat by done. rewrite decide_False by lia.
    by replace (S k' - 1)%nat with k' by lia.
  - rewrite (Hmarch r c) by lia.
    destruct r as [|r']; [done|].
    rewrite Hat by done. by rewrite decide_False by lia.
Qed.

Lemma num_cold_inv_set (s : Rounded.state A) k s' p P' k' :
  Rounded.cold_inv N s k s' →
  has_shape (Rounded.rows s) (Rounded.columns s) P' →
  Rounded.marched N s p k' P' →
  Rounded.cold_inv N s (λ q, if pass_eqb q p then k' else k q)
    (Rounded.set_P p P' s').
Proof.
  intros (Hr & Hc & H1 & H2 & H3 & Hp) Hsh Hm.
  do 5 (split; [done|]). intros q.
  cbn [Rounded.P_of Rounded.set_P].
  destruct (pass_eqb q p) eqn:E; [|apply Hp].
  assert (q = p) as -> by (destruct q, p; simplify_eq/=; done). done.
Qed.

Lemma num_inlet_row_inv (s : Rounded.state A) k s' p :
  flow_axis p = 0%nat → (0 < Rounded.rows s)%nat →
  Rounded.cold_inv N s k s' →
  ∃ s'', Rounded.inlet_row N p (Rounded.inlet_pressure p s)
           (Rounded.deltaP N p s) s' = Some s''
         ∧ Rounded.cold_inv N s (λ q, if pass_eqb q p then 1%nat else k q) s''.
Proof.
  intros Hax Hn Hinv. pose proof Hinv as (_ & _ & _ & _ & _ & Hp).
  destruct (Hp p) as [Hsh _].
  destruct (num_inlet_row_grid _ _ (Rounded.inlet_pressure p s)
              (Rounded.deltaP N p s) _
              Hsh (num_deltaP_shape p s) Hn) as (P' & HP' & Hsh' & Hm').
  unfold Rounded.inlet_row.
  apply bind_Some in HP' as (d & Hd & HP'). rewrite Hd.
  cbn [mbind option_bind]. rewrite HP'. cbn [mbind option_bind].
  eexists; split; [reflexivity|].
  apply num_cold_inv_set; [done | done |].
  unfold Rounded.marched. by rewrite Hax.
Qed.

Lemma num_inlet_col_inv (s : Rounded.state A) k s' p :
  flow_axis p = 1%nat → (0 < Rounded.columns s)%nat →
  Rounded.cold_inv N s k s' →
  ∃ s'', Rounded.inlet_col N p (Rounded.inlet_pressure p s)
           (Rounded.deltaP N p s) s' = Some s''
         ∧ Rounded.cold_inv N s (λ q, if pass_eqb q p then 1%nat else k q) s''.
Proof.
  intros Hax Hm Hinv. pose proof Hinv as (_ & _ & _ & _ & _ & Hp).
  destruct (Hp p) as [Hsh _].
  destruct (num_inlet_col_grid _ _ (Rounded.inlet_pressure p s)
              (Rounded.deltaP N p s) _
              Hsh (num_deltaP_shape p s) Hm) as (P' & HP' & Hsh' & Hm').
  unfold Rounded.inlet_col.
  apply bind_Some in HP' as (d & Hd & HP'). rewrite Hd.
  cbn [mbind option_bind]. rewrite HP'. cbn [mbind option_bind].
  eexists; split; [reflexivity|].
  apply num_cold_inv_set; [done | done |].
  unfold Rounded.marched. by rewrite Hax.
Qed.

Lemma num_march_row_inv (s : Rounded.state A) k s' p i :
  flow_axis p = 0%nat → (1 ≤ i)%nat → (i < Rounded.rows s)%nat →
  Rounded.cold_inv N s k s' → k p = i →
  ∃ s'', Rounded.march_row N p (Rounded.deltaP N p s) i s' = Some s''
         ∧ Rounded.cold_inv N s (λ q, if pass_eqb q p then S i else k q) s''.
Proof.
  intros Hax Hi1 Hin Hinv Hk. pose proof Hinv as (_ & _ & _ & _ & _ & Hp).
  destruct (Hp p) as [Hsh Hmar]. unfold Rounded.marched in Hmar.
  rewrite Hax, Hk in Hmar.
  destruct (num_march_row_grid _ _ (Rounded.inlet_pressure p s)
              (Rounded.deltaP N p s) _ i
              Hsh (num_deltaP_shape p s) Hi1 Hin Hmar)
    as (P' & HP' & Hsh' & Hm').
  unfold Rounded.march_row.
  apply bind_Some in HP' as (prev & Hprev & HP').
  apply bind_Some in HP' as (d & Hd & HP').
  rewrite Hprev. cbn [mbind option_bind]. rewrite Hd.
  cbn [mbind option_bind]. rewrite HP'. cbn [mbind option_bind].
  eexists; split; [reflexivity|].
  apply num_cold_inv_set; [done | done |].
  unfold Rounded.marched. by rewrite Hax.
Qed.

Lemma num_march_col_inv (s : Rounded.state A) k s' p i :
  flow_axis p = 1%nat → (1 ≤ i)%nat → (i < Rounded.columns s)%nat →
  Rounded.cold_inv N s k s' → k p = i →
  ∃ s'', Rounded.march_col N p (Rounded.deltaP N p s) i s' = Some s''
         ∧ Rounded.cold_inv N s (λ q, if pass_eqb q p then S i else k q) s''.
Proof.
  intros Hax Hi1 Hin Hinv Hk. pose proof Hinv as (_ & _ & _ & _ & _ & Hp).
  destruct (Hp p) as [Hsh Hmar]. unfold Rounded.marched in Hmar.
  rewrite Hax, Hk in Hmar.
  destruct (num_march_col_grid _ _ (Rounded.inlet_pressure p s)
              (Rounded.deltaP N p s) _ i
              Hsh (num_deltaP_shape p s) Hi1 Hin Hmar)
    as (P' & HP' & Hsh' & Hm').
  unfold Rounded.march_col.
  apply bind_Some in HP' as (prev & Hprev & HP').
  apply bind_Some in HP' as (d & Hd & HP').
  rewrite Hprev. cbn [mbind option_bind]. rewrite Hd.
  cbn [mbind option_bind]. rewrite HP'. cbn [mbind option_bind].
  eexists; split; [reflexivity|].
  apply num_cold_inv_set; [done | done |].
  unfold Rounded.marched. by rewrite Hax.
Qed.

Lemma num_cold_inv_ext (s : Rounded.state A) k k' s' :
  (∀ p, k p = k' p) → Rounded.cold_inv N s k s' → Rounded.cold_inv N s k' s'.
Proof.
  intros Hk (Hr & Hc & H1 & H2 & H3 & Hp). do 5 (split; [done|]). intros p.
  rewrite <- Hk. apply Hp.
Qed.

(** In any arithmetic the cold branch returns, and leaves every field
    marched from its inlet edge to its last index. *)
Lemma num_update_pressures_cold_marched (s : Rounded.state A) :
  (0 < Rounded.rows s)%nat → (0 < Rounded.columns s)%nat →
  (∀ p, has_shape (Rounded.rows s) (Rounded.columns s) (Rounded.P_of s p)) →
  ∃ s', Rounded.update_pressures_cold N s = Some s'
        ∧ Rounded.cold_inv N s
            (reached (Rounded.columns s) (Rounded.rows s)) s'.
Proof.
  intros Hn Hm Hsh.
  assert (H0 : Rounded.cold_inv N s (λ _, 0%nat) s).
  { do 5 (split; [done|]). intros p. split; [apply Hsh|].
    unfold Rounded.marched. destruct (flow_axis p); intros r c; lia. }
  unfold Rounded.update_pressures_cold.
  destruct (num_inlet_row_inv s _ s utility1 eq_refl Hn H0) as (s1 & E1 & I1).
  change (Rounded.inlet_pressure utility1 s) with (Rounded.utility_3 s) in E1.
  rewrite E1. cbn [mbind option_bind]. clear E1.
  destruct (num_inlet_col_inv s _ s1 reactant2 eq_refl Hm I1)
    as (s2 & E2 & I2).
  change (Rounded.inlet_pressure reactant2 s)
    with (Rounded.reactant_3 s) in E2.
  pose proof I1 as (_ & _ & Hr1 & Hu1 & Hf1 & _).
  rewrite Hr1, E2. cbn [mbind option_bind]. clear E2.
  destruct (num_inlet_col_inv s _ s2 fuel3 eq_refl Hm I2) as (s3 & E3 & I3).
  change (Rounded.inlet_pressure fuel3 s) with (Rounded.fuel_3 s) in E3.
  pose proof I2 as (_ & _ & Hr2 & Hu2 & Hf2 & _).
  rewrite Hf2, E3. cbn [mbind option_bind]. clear E3.
  destruct (num_inlet_col_inv s _ s3 reactant4 eq_refl Hm I3)
    as (s4 & E4 & I4).
  change (Rounded.inlet_pressure reactant4 s)
    with (Rounded.reactant_3 s) in E4.
  pose proof I3 as (_ & _ & Hr3 & Hu3 & Hf3 & _).
  rewrite Hr3, E4. cbn [mbind option_bind]. clear E4.
  destruct (num_inlet_row_inv s _ s4 utility5 eq_refl Hn I4)
    as (s5 & E5 & I5).
  change (Rounded.inlet_pressure utility5 s) with (Rounded.utility_3 s) in E5.
  pose proof I4 as (_ & _ & Hr4 & Hu4 & Hf4 & _).
  rewrite Hu4, E5. cbn [mbind option_bind]. clear E5.
  apply (num_cold_inv_ext _ _ (reached 1 1)) in I5; [|by intros []].
  pose proof I5 as (Hrows5 & Hcols5 & _).
  rewrite Hcols5.
  destruct (for_each_range_inv
    (λ i s0, s0 ← Rounded.march_col N reactant2
                    (Rounded.deltaP N reactant2 s) i s0;
             s0 ← Rounded.march_col N reactant4
                    (Rounded.deltaP N reactant4 s) i s0;
             Rounded.march_col N fuel3 (Rounded.deltaP N fuel3 s) i s0)
    (λ kc s0, Rounded.cold_inv N s (reached kc 1) s0)
    1 (Rounded.columns s) s5)
    as (s6 & E6 & I6); [lia | done | |].
  { intros i s0 Hi Hinv.
    destruct (num_march_col_inv s _ s0 reactant2 i eq_refl
                ltac:(lia) ltac:(lia) Hinv eq_refl) as (t1 & F1 & J1).
    rewrite F1. cbn [mbind option_bind].
    destruct (num_march_col_inv s _ t1 reactant4 i eq_refl
                ltac:(lia) ltac:(lia) J1 eq_refl) as (t2 & F2 & J2).
    rewrite F2. cbn [mbind option_bind].
    destruct (num_march_col_inv s _ t2 fuel3 i eq_refl
                ltac:(lia) ltac:(lia) J2 eq_refl) as (t3 & F3 & J3).
    exists t3. split; [done|].
    eapply num_cold_inv_ext; [|exact J3]. by intros []. }
  rewrite E6. cbn [mbind option_bind].
  pose proof I6 as (Hrows6 & Hcols6 & _).
  rewrite Hrows6.
  destruct (for_each_range_inv
    (λ i s0, s0 ← Rounded.march_row N utility1
                    (Rounded.deltaP N utility1 s) i s0;
             Rounded.march_row N utility5 (Rounded.deltaP N utility5 s) i s0)
    (λ kr s0, Rounded.cold_inv N s (reached (Rounded.columns s) kr) s0)
    1 (Rounded.rows s) s6)
    as (s7 & E7 & I7); [lia | done | |].
  { intros i s0 Hi Hinv.
    destruct (num_march_row_inv s _ s0 utility1 i eq_refl
                ltac:(lia) ltac:(lia) Hinv eq_refl) as (t1 & F1 & J1).
    rewrite F1. cbn [mbind option_bind].
    destruct (num_march_row_inv s _ t1 utility5 i eq_refl
                ltac:(lia) ltac:(lia) J1 eq_refl) as (t2 & F2 & J2).
    exists t2. split; [done|].
    eapply num_cold_inv_ext; [|exact J2]. by intros []. }
  exists s7. split; [exact E7 | exact I7].
Qed.

End RoundedMarch.

(** ** Pressures under a rounding of the reals *)

Section RoundedReals.
Variable rnd : R → R.
Hypothesis rnd_mono : ∀ x y, x <= y → rnd x <= rnd y.
Hypothesis rnd_0 : rnd 0 = 0.
Hypothesis rnd_idem : ∀ x, rnd (rnd x) = rnd x.

Lemma rnd_nonneg x : 0 <= x → 0 <= rnd x.
Proof. intros Hx. rewrite <- rnd_0. by apply rnd_mono. Qed.

(** Subtracting a loss that is not negative from a representable pressure
    gives a representable pressure that is not higher. *)
Lemma rnd_sub_le P dP :
  rnd P = P → 0 <= dP → rnd (P - dP) <= P ∧ rnd (rnd (P - dP)) = rnd (P - dP).
Proof.
  intros HP HdP. split; [|apply rnd_idem].
  rewrite <- HP at 2. apply rnd_mono. lra.
Qed.

Lemma at_rounded (g : grid R) r c :
  Rounded.at_ (Rounded.rounded rnd) g r c = g.[r, c].
Proof.
  unfold Rounded.at_, at_. cbn [Rounded.of_nat Rounded.rounded INR].
  by rewrite rnd_0.
Qed.

Lemma rounded_deltaP_nonneg (s : Rounded.state R) p r c :
  0 <= Rounded.deltax s → 0 <= Rounded.deltaz s →
  0 < Rounded.reactant_dh s → 0 < Rounded.utility_dh s →
  0 < Rounded.fuel_dh s →
  (r < Rounded.rows s)%nat → (c < Rounded.columns s)%nat →
  0 < (Rounded.f_of s p).[r, c] → 0 < (Rounded.u_of s p).[r, c] →
  0 < (Rounded.rho_of s p).[r, c] →
  0 <= (Rounded.deltaP (Rounded.rounded rnd) p s).[r, c].
Proof.
  intros Hdx Hdz Hrd Hud Hfd Hr Hc Hf Hu Hrho.
  rewrite <- at_rounded.
  assert (Hloss : ∀ d dh, 0 <= d → 0 < dh →
    0 <= rnd (rnd (rnd (rnd (rnd (rnd (INR 2) * (Rounded.f_of s p).[r, c])
                             * d) / dh)
                    * rnd ((Rounded.u_of s p).[r, c]
                           * (Rounded.u_of s p).[r, c]))
              * (Rounded.rho_of s p).[r, c])).
  { intros d dh Hd Hdh.
    assert (H2 : 0 <= rnd (INR 2)) by (apply rnd_nonneg, pos_INR).
    set (a := rnd (rnd (INR 2) * (Rounded.f_of s p).[r, c])).
    assert (Ha : 0 <= a) by (apply rnd_nonneg; nra).
    set (b := rnd (a * d)).
    assert (Hb : 0 <= b) by (apply rnd_nonneg; nra).
    set (q := rnd (b / dh)).
    assert (Hq : 0 <= q).
    { apply rnd_nonneg. apply Rmult_le_pos; [done|].
      apply Rlt_le, Rinv_0_lt_compat, Hdh. }
    set (u2 := rnd ((Rounded.u_of s p).[r, c] * (Rounded.u_of s p).[r, c])).
    assert (Hu2 : 0 <= u2) by (apply rnd_nonneg; nra).
    set (e := rnd (q * u2)).
    assert (He : 0 <= e) by (apply rnd_nonneg; nra).
    apply rnd_nonneg. nra. }
  destruct p; unfold Rounded.deltaP;
    rewrite num_at_elementwise by done;
    rewrite !at_rounded; cbn [Rounded.of_nat Rounded.mul Rounded.div
                              Rounded.rounded];
    by apply Hloss.
Qed.

(** What a fully marched field satisfies when no loss is negative. *)
Lemma rounded_col_marched_nonincreasing n m inlet (dP P : grid R) :
  rnd inlet = inlet →
  Rounded.col_marched (Rounded.rounded rnd) n inlet dP P m →
  (∀ r c, (r < n)%nat → (c < m)%nat → 0 <= dP.[r, c]) →
  ∀ r c, (r < n)%nat → (c < m)%nat →
    (P.[r, c] <= inlet ∧ rnd P.[r, c] = P.[r, c])
    ∧ match c with O => True | S c' => P.[r, c] <= P.[r, c'] end.
Proof.
  intros Hin Hmarch Hpos r c Hr. induction c as [|c' IH]; intros Hc.
  - pose proof (Hmarch r 0%nat Hr Hc) as E. rewrite !at_rounded in E.
    cbn [Rounded.sub Rounded.rounded] in E. rewrite E.
    specialize (Hpos r 0%nat Hr Hc).
    destruct (rnd_sub_le inlet dP.[r, 0] Hin Hpos) as [H1 H2]. done.
  - destruct IH as [[IH1 IH2] _]; [lia|].
    pose proof (Hmarch r (S c') Hr Hc) as E. rewrite !at_rounded in E.
    cbn [Rounded.sub Rounded.rounded] in E. rewrite E.
    specialize (Hpos r (S c') Hr Hc).
    destruct (rnd_sub_le P.[r, c'] dP.[r, S c'] IH2 Hpos) as [H1 H2].
    repeat split; [lra | done | done].
Qed.

Lemma rounded_row_marched_nonincreasing n m inlet (dP P : grid R) :
  rnd inlet = inlet →
  Rounded.row_marched (Rounded.rounded rnd) m inlet dP P n →
  (∀ r c, (r < n)%nat → (c < m)%nat → 0 <= dP.[r, c]) →
  ∀ r c, (r < n)%nat → (c < m)%nat →
    (P.[r, c] <= inlet ∧ rnd P.[r, c] = P.[r, c])
    ∧ match r with O => True | S r' => P.[r, c] <= P.[r', c] end.
Proof.
  intros Hin Hmarch Hpos r. induction r as [|r' IH]; intros c Hr Hc.
  - pose proof (Hmarch 0%nat c Hr Hc) as E. rewrite !at_rounded in E.
    cbn [Rounded.sub Rounded.rounded] in E. rewrite E.
    specialize (Hpos 0%nat c Hr Hc).
    destruct (rnd_sub_le inlet dP.[0, c] Hin Hpos) as [H1 H2]. done.
  - destruct (IH c) as [[IH1 IH2] _]; [lia | done |].
    pose proof (Hmarch (S r') c Hr Hc) as E. rewrite !at_rounded in E.
    cbn [Rounded.sub Rounded.rounded] in E. rewrite E.
    specialize (Hpos (S r') c Hr Hc).
    destruct (rnd_sub_le P.[r', c] dP.[S r', c] IH2 Hpos) as [H1 H2].
    repeat split; [lra | done | done].
Qed.

End RoundedReals.

(** C6 (pressure monotonicity), as the code has it.  In the arithmetic of
    the reals rounded after every operation by a rounding that is monotone,
    keeps zero and keeps what it returns, take an instance of valid
    geometry whose inlet pressures are representable and whose friction
    factors, velocities and densities are positive at every cell.  A
    pressure update taken in the cold branch returns, and afterwards the
    pressure of every pass at every cell is no higher than the inlet
    pressure of its stream and, off the inlet edge, no higher than the
    pressure of the cell upstream of it (the row before for the utility
    passes, the column before for the reactant and fuel passes).  The
    rounding to nearest of binary64 is such a rounding as long as no
    result overflows. *)
Theorem update_pressures_cold_nonincreasing
    (rnd : R → R) (s : Rounded.state R) :
  (∀ x y, x <= y → rnd x <= rnd y) →
  rnd 0 = 0 →
  (∀ x, rnd (rnd x) = rnd x) →
  (∀ p, rnd (Rounded.inlet_pressure p s) = Rounded.inlet_pressure p s) →
  0 <= Rounded.deltax s → 0 <= Rounded.deltaz s →
  0 < Rounded.reactant_dh s → 0 < Rounded.utility_dh s →
  0 < Rounded.fuel_dh s →
  (0 < Rounded.rows s)%nat → (0 < Rounded.columns s)%nat →
  (∀ p, has_shape (Rounded.rows s) (Rounded.columns s) (Rounded.P_of s p)) →
  Rounded.is_cold (Rounded.rounded rnd) s = Some true →
  (∀ p r c, (r < Rounded.rows s)%nat → (c < Rounded.columns s)%nat →
     0 < (Rounded.f_of s p).[r, c] ∧ 0 < (Rounded.u_of s p).[r, c]
     ∧ 0 < (Rounded.rho_of s p).[r, c]) →
  ∃ s', Rounded.update_pressures (Rounded.rounded rnd) s = Some s'
    ∧ ∀ p r c, (r < Rounded.rows s)%nat → (c < Rounded.columns s)%nat →
        (Rounded.P_of s' p).[r, c] <= Rounded.inlet_pressure p s
        ∧ (on_inlet_edge p r c = false →
           (Rounded.P_of s' p).[r, c]
           <= (Rounded.P_of s' p).[(upstream p r c).1, (upstream p r c).2]).
Proof.
  intros Hmono H0 Hidem Hin Hdx Hdz Hrd Hud Hfd Hn Hm Hsh Hcold Hpos.
  destruct (num_update_pressures_cold_marched (Rounded.rounded rnd) s
              Hn Hm Hsh) as (s' & Hs' & Hinv).
  exists s'. split.
  { unfold Rounded.update_pressures. rewrite Hcold. exact Hs'. }
  destruct Hinv as (_ & _ & _ & _ & _ & Hp).
  assert (HdP : ∀ p r c,
            (r < Rounded.rows s)%nat → (c < Rounded.columns s)%nat →
            0 <= (Rounded.deltaP (Rounded.rounded rnd) p s).[r, c]).
  { intros p r c Hr Hc. destruct (Hpos p r c Hr Hc) as (Hf & Hu & Hrho).
    by apply rounded_deltaP_nonneg. }
  intros p r c Hr Hc. destruct (Hp p) as [_ Hmar].
  unfold Rounded.marched in Hmar.
  unfold on_inlet_edge, upstream, reached in *.
  destruct (flow_axis p); cbn [fst snd].
  - destruct (rounded_row_marched_nonincreasing rnd Hmono H0 Hidem
                _ _ _ _ _ (Hin p) Hmar (HdP p) r c Hr Hc) as [[H1 _] H2].
    split; [done|]. destruct r; [done|].
    intros _. by rewrite Nat.sub_succ, Nat.sub_0_r.
  - destruct (rounded_col_marched_nonincreasing rnd Hmono H0 Hidem
                _ _ _ _ _ (Hin p) Hmar (HdP p) r c Hr Hc) as [[H1 _] H2].
    split; [done|]. destruct c; [done|].
    intros _. by rewrite Nat.sub_succ, Nat.sub_0_r.
Qed.

(** ** A rounding with a resolution of one pascal *)

Lemma round_unit_eq x z :
  IZR z - / 2 <= x → x < IZR z + / 2 → round_unit x = IZR z.
Proof.
  intros H1 H2. unfold round_unit. f_equal. symmetry.
  apply tech_up; lra.
Qed.

Lemma round_unit_IZR z : round_unit (IZR z) = IZR z.
Proof. apply round_unit_eq; lra. Qed.

Lemma round_unit_0 : round_unit 0 = 0.
Proof. apply (round_unit_IZR 0). Qed.

Lemma round_unit_idem x : round_unit (round_unit x) = round_unit x.
Proof. unfold round_unit at 2 3. apply round_unit_IZR. Qed.

Lemma round_unit_mono x y : x <= y → round_unit x <= round_unit y.
Proof.
  intros Hxy. unfold round_unit. apply IZR_le.
  destruct (Z_le_gt_dec (up (x - / 2)) (up (y - / 2))) as [|Hgt]; [done|].
  exfalso.
  assert (H : (up (y - / 2) + 1 <= up (x - / 2))%Z) by lia.
  apply IZR_le in H. rewrite plus_IZR in H.
  destruct (archimed (x - / 2)) as [_ Hx], (archimed (y - / 2)) as [Hy _].
  lra.
Qed.

Lemma update_pressures_cold_nonincreasing_witness :
  ∃ s', Rounded.update_pressures (Rounded.rounded round_unit) example_coarse
        = Some s'
        ∧ (Rounded.P_of s' utility1).[1, 0] <= (Rounded.P_of s' utility1).[0, 0]
        ∧ (Rounded.P_of s' reactant2).[0, 0] <= 101325.
Proof.
  destruct (update_pressures_cold_nonincreasing round_unit example_coarse)
    as (s' & Hs' & Hdec).
  - exact round_unit_mono.
  - exact round_unit_0.
  - exact round_unit_idem.
  - intros []; apply (round_unit_IZR 101325).
  - change (0 <= 1). lra.
  - change (0 <= 3). lra.
  - change (0 < 8). lra.
  - change (0 < 4). lra.
  - change (0 < 8). lra.
  - repeat constructor.
  - repeat constructor.
  - intros []; apply (full_shape 2 2).
  - change (Rounded.is_cold (Rounded.rounded round_unit) example_coarse)
      with (Some (if Req_dec_T
                       (round_unit
                          (round_unit
                             (round_unit
                                (round_unit
                                   (round_unit (round_unit 0 + 101325)
                                    + 101325) + 101325) + 101325)
                           / round_unit (1 + 1 + 1 + 1)))
                       101325
                  then true else false)).
    rewrite round_unit_0.
    rewrite (round_unit_eq (0 + 101325) 101325) by lra.
    rewrite (round_unit_eq (101325 + 101325) 202650) by lra.
    rewrite (round_unit_eq (202650 + 101325) 303975) by lra.
    rewrite (round_unit_eq (303975 + 101325) 405300) by lra.
    rewrite (round_unit_eq (1 + 1 + 1 + 1) 4) by lra.
    rewrite (round_unit_eq (405300 / 4) 101325) by lra.
    by destruct (Req_dec_T 101325 101325).
  - intros p r c Hr Hc.
    change (Rounded.f_of example_coarse p) with (full 2 2 1).
    change (Rounded.u_of example_coarse p) with (full 2 2 1).
    change (Rounded.rho_of example_coarse p) with (full 2 2 1).
    change (Rounded.rows example_coarse) with 2%nat in Hr.
    change (Rounded.columns example_coarse) with 2%nat in Hc.
    rewrite !at_full by done. repeat split; lra.
  - exists s'. split; [exact Hs'|].
    destruct (Hdec utility1 1%nat 0%nat) as [_ H1]; [repeat constructor..|].
    destruct (Hdec reactant2 0%nat 0%nat) as [H0 _]; [repeat constructor..|].
    split; [exact (H1 eq_refl) | exact H0].
Defined.

(** ** The pressure update in binary64 *)

(** C6, a counterexample in binary64.  The instance [example_creeping]
    has a positive friction factor, velocity and density at every cell, and
    its first pressure update is taken in the cold branch.  The loss of a
    cell of utility pass 1 is positive, about 2.8e-13 Pa, and below half a
    unit in the last place of the inlet pressure 101325 Pa: after the
    update the pressure at cell (0, 0) is the inlet pressure, not a
    pressure below it, and the pressure at cell (1, 0) is the pressure of
    the cell upstream of it, not a pressure below it. *)
Lemma update_pressures_cold_absorbs :
  (∀ p r c, (r < 2)%nat → (c < 2)%nat →
     PrimFloat.ltb 0 (Rounded.at_ Rounded.binary64
                        (Rounded.f_of example_creeping p) r c) = true
     ∧ PrimFloat.ltb 0 (Rounded.at_ Rounded.binary64
                          (Rounded.u_of example_creeping p) r c) = true
     ∧ PrimFloat.ltb 0 (Rounded.at_ Rounded.binary64
                          (Rounded.rho_of example_creeping p) r c) = true)
  ∧ Rounded.is_cold Rounded.binary64 example_creeping = Some true
  ∧ PrimFloat.ltb 0 (Rounded.at_ Rounded.binary64
                       (Rounded.deltaP Rounded.binary64 utility1
                          example_creeping) 0 0) = true
  ∧ ∃ s', Rounded.update_pressures Rounded.binary64 example_creeping = Some s'
      ∧ Rounded.at_ Rounded.binary64 (Rounded.P_of s' utility1) 0 0
        = Rounded.inlet_pressure utility1 example_creeping
      ∧ PrimFloat.ltb
          (Rounded.at_ Rounded.binary64 (Rounded.P_of s' utility1) 0 0)
          (Rounded.inlet_pressure utility1 example_creeping) = false
      ∧ PrimFloat.ltb
          (Rounded.at_ Rounded.binary64 (Rounded.P_of s' utility1) 1 0)
          (Rounded.at_ Rounded.binary64 (Rounded.P_of s' utility1) 0 0)
        = false.
Proof.
  split; [|split; [|split]].
  - intros p r c Hr Hc.
    destruct r as [|[|r]]; [| |lia]; (destruct c as [|[|c]]; [| |lia]);
      destruct p; repeat split; vm_compute; reflexivity.
  - vm_compute. reflexivity.
  - vm_compute. reflexivity.
  - destruct (Rounded.update_pressures Rounded.binary64 example_creeping)
      as [s'|] eqn:E; [|vm_compute in E; discriminate E].
    exists s'. split; [reflexivity|].
    vm_compute in E. injection E as <-.
    repeat split; vm_compute; reflexivity.
Qed.

(** What the rounded reals leave out.  In binary64 a product that overflows
    is an infinity, and an infinity times a square that has underflowed to
    zero is not a number.  On [example_overflow], whose friction factor,
    velocity and density are positive at every cell, the loss is not a
    number, and after the cold update neither is the pressure: it is not
    equal to itself, and not below or equal to the inlet pressure. *)
Lemma update_pressures_cold_overflows :
  (∀ p r c, (r < 2)%nat → (c < 2)%nat →
     PrimFloat.ltb 0 (Rounded.at_ Rounded.binary64
                        (Rounded.f_of example_overflow p) r c) = true
     ∧ PrimFloat.ltb 0 (Rounded.at_ Rounded.binary64
                          (Rounded.u_of example_overflow p) r c) = true
     ∧ PrimFloat.ltb 0 (Rounded.at_ Rounded.binary64
                          (Rounded.rho_of example_overflow p) r c) = true)
  ∧ Rounded.is_cold Rounded.binary64 example_overflow = Some true
  ∧ ∃ s', Rounded.update_pressures Rounded.binary64 example_overflow = Some s'
      ∧ PrimFloat.eqb
          (Rounded.at_ Rounded.binary64 (Rounded.P_of s' utility1) 0 0)
          (Rounded.at_ Rounded.binary64 (Rounded.P_of s' utility1) 0 0)
        = false
      ∧ PrimFloat.leb
          (Rounded.at_ Rounded.binary64 (Rounded.P_of s' utility1) 0 0)
          (Rounded.inlet_pressure utility1 example_overflow) = false.
Proof.
  split; [|split].
  - intros p r c Hr Hc.
    destruct r as [|[|r]]; [| |lia]; (destruct c as [|[|c]]; [| |lia]);
      destruct p; repeat split; vm_compute; reflexivity.
  - vm_compute. reflexivity.
  - destruct (Rounded.update_pressures Rounded.binary64 example_overflow)
      as [s'|] eqn:E; [|vm_compute in E; discriminate E].
    exists s'. split; [reflexivity|].
    vm_compute in E. injection E as <-.
    repeat split; vm_compute; reflexivity.
Qed.

(** ** The exact instance is the model above *)

Lemma same_flow_refl t : same_flow t t.
Proof. by repeat split. Qed.

Lemma same_flow_set t s p P' :
  same_flow t (flow_of s) →
  same_flow (Rounded.set_P p P' t) (flow_of (set_arr f_P p P' s)).
Proof.
  intros (H1 & H2 & H3 & H4 & H5 & H6 & H7 & H8 & H9 & H10 & Hp).
  do 10 (split; [done|]). intros q.
  destruct (Hp q) as (Hf & Hu & Hrho & HP).
  cbn [Rounded.f_of Rounded.u_of Rounded.rho_of Rounded.P_of Rounded.set_P
       flow_of arr set_arr] in *.
  change (attr_eqb f_f f_P) with false.
  change (attr_eqb f_u f_P) with false.
  change (attr_eqb f_rho f_P) with false.
  change (attr_eqb f_P f_P) with true.
  cbn [andb]. repeat split; [done..|].
  by destruct (pass_eqb q p).
Qed.

Lemma same_outcome_bind ot os f g :
  same_outcome ot os →
  (∀ t s, same_flow t (flow_of s) → same_outcome (f t) (g s)) →
  same_outcome (ot ≫= f) (os ≫= g).
Proof.
  intros H Hfg. destruct ot as [t|], os as [s|]; try done. by apply Hfg.
Qed.

Lemma same_outcome_for_each body_t body_s l :
  (∀ i t s, same_flow t (flow_of s) → same_outcome (body_t i t) (body_s i s)) →
  ∀ t s, same_flow t (flow_of s) →
    same_outcome (for_each body_t l t) (for_each body_s l s).
Proof.
  intros Hbody. induction l as [|i l IH]; intros t s H; [done|].
  cbn [for_each]. apply same_outcome_bind; [by apply Hbody | exact IH].
Qed.

Lemma at_exact (g : grid R) r c : Rounded.at_ exact g r c = g.[r, c].
Proof. reflexivity. Qed.

Lemma deltaP_exact t s p :
  same_flow t (flow_of s) → Rounded.deltaP exact p t = deltaP p s.
Proof.
  intros (H1 & H2 & H3 & H4 & H5 & H6 & H7 & _ & _ & _ & Hp).
  destruct (Hp p) as (Hf & Hu & Hrho & _).
  cbn [Rounded.rows Rounded.columns Rounded.deltax Rounded.deltaz
       Rounded.reactant_dh Rounded.utility_dh Rounded.fuel_dh
       Rounded.f_of Rounded.u_of Rounded.rho_of flow_of] in *.
  unfold Rounded.deltaP, deltaP.
  rewrite H1, H2, H3, H4, H5, H6, H7, Hf, Hu, Hrho.
  destruct p; apply (elementwise_ext (rows s) (columns s)); intros r c;
    repeat match goal with
           | |- context [Rounded.at_ exact ?g ?i ?j] =>
               change (Rounded.at_ exact g i j) with (g.[i, j])
           end;
    cbn [Rounded.of_nat Rounded.mul Rounded.div Rounded.rounded exact INR];
    unfold Rdiv; ring.
Qed.

Lemma foldl_Rplus a (v : list R) : foldl Rplus a v = a + sum_list v.
Proof.
  revert a. induction v as [|x v IH]; intros a; cbn [foldl].
  - unfold sum_list. simpl. lra.
  - rewrite IH. unfold sum_list. cbn [foldr]. lra.
Qed.

Lemma mean_exact (g : grid R) : Rounded.mean exact g = grid_mean g.
Proof.
  unfold Rounded.mean, grid_mean, grid_sum.
  cbn [Rounded.of_nat Rounded.add Rounded.div Rounded.rounded exact].
  change (λ x y : R, x + y) with Rplus.
  rewrite foldl_Rplus. f_equal. simpl INR. lra.
Qed.

Lemma is_cold_exact t s :
  same_flow t (flow_of s) → Rounded.is_cold exact t = is_cold s.
Proof.
  intros (_ & _ & _ & _ & _ & _ & _ & _ & _ & _ & Hp).
  destruct (Hp reactant2) as (_ & _ & _ & HP). cbn [Rounded.P_of flow_of] in HP.
  unfold Rounded.is_cold, is_cold. rewrite HP.
  destruct (cell (arr s f_P reactant2) 0 0) as [p00|]; [|done].
  cbn [mbind option_bind]. by rewrite mean_exact.
Qed.

Lemma inlet_row_exact p inlet dP t s :
  same_flow t (flow_of s) →
  same_outcome (Rounded.inlet_row exact p inlet dP t) (inlet_row p inlet dP s).
Proof.
  intros H. pose proof H as (_ & _ & _ & _ & _ & _ & _ & _ & _ & _ & Hp).
  destruct (Hp p) as (_ & _ & _ & HP). cbn [Rounded.P_of flow_of] in HP.
  unfold Rounded.inlet_row, inlet_row. rewrite HP.
  destruct (get_row 0 dP) as [d|]; [|done]. cbn [mbind option_bind].
  change (λ x : R, Rounded.sub exact inlet x) with (λ x : R, inlet - x).
  destruct (set_row 0 (map (λ x, inlet - x) d) (arr s f_P p)) as [P'|];
    [|done].
  cbn [mbind option_bind]. by apply same_flow_set.
Qed.

Lemma inlet_col_exact p inlet dP t s :
  same_flow t (flow_of s) →
  same_outcome (Rounded.inlet_col exact p inlet dP t) (inlet_col p inlet dP s).
Proof.
  intros H. pose proof H as (_ & _ & _ & _ & _ & _ & _ & _ & _ & _ & Hp).
  destruct (Hp p) as (_ & _ & _ & HP). cbn [Rounded.P_of flow_of] in HP.
  unfold Rounded.inlet_col, inlet_col. rewrite HP.
  destruct (get_col 0 dP) as [d|]; [|done]. cbn [mbind option_bind].
  change (λ x : R, Rounded.sub exact inlet x) with (λ x : R, inlet - x).
  destruct (set_col 0 (map (λ x, inlet - x) d) (arr s f_P p)) as [P'|];
    [|done].
  cbn [mbind option_bind]. by apply same_flow_set.
Qed.

Lemma march_row_exact p dP i t s :
  same_flow t (flow_of s) →
  same_outcome (Rounded.march_row exact p dP i t) (march_row p dP i s).
Proof.
  intros H. pose proof H as (_ & _ & _ & _ & _ & _ & _ & _ & _ & _ & Hp).
  destruct (Hp p) as (_ & _ & _ & HP). cbn [Rounded.P_of flow_of] in HP.
  unfold Rounded.march_row, march_row. rewrite HP.
  destruct (get_row (i - 1) (arr s f_P p)) as [prev|]; [|done].
  cbn [mbind option_bind].
  destruct (get_row i dP) as [d|]; [|done]. cbn [mbind option_bind].
  change (Rounded.sub exact) with Rminus.
  destruct (set_row i (zip_with Rminus prev d) (arr s f_P p)) as [P'|];
    [|done].
  cbn [mbind option_bind]. by apply same_flow_set.
Qed.

Lemma march_col_exact p dP i t s :
  same_flow t (flow_of s) →
  same_outcome (Rounded.march_col exact p dP i t) (march_col p dP i s).
Proof.
  intros H. pose proof H as (_ & _ & _ & _ & _ & _ & _ & _ & _ & _ & Hp).
  destruct (Hp p) as (_ & _ & _ & HP). cbn [Rounded.P_of flow_of] in HP.
  unfold Rounded.march_col, march_col. rewrite HP.
  destruct (get_col (i - 1) (arr s f_P p)) as [prev|]; [|done].
  cbn [mbind option_bind].
  destruct (get_col i dP) as [d|]; [|done]. cbn [mbind option_bind].
  change (Rounded.sub exact) with Rminus.
  destruct (set_col i (zip_with Rminus prev d) (arr s f_P p)) as [P'|];
    [|done].
  cbn [mbind option_bind]. by apply same_flow_set.
Qed.

Lemma update_pressures_cold_exact t s :
  same_flow t (flow_of s) →
  same_outcome (Rounded.update_pressures_cold exact t)
               (update_pressures_cold s).
Proof.
  intros H. unfold Rounded.update_pressures_cold, update_pressures_cold.
  cbv zeta. rewrite !(deltaP_exact t s) by done.
  pose proof H as (_ & _ & _ & _ & _ & _ & _ & _ & -> & _).
  apply same_outcome_bind; [by apply inlet_row_exact|].
  clear t H. intros t s1 H.
  pose proof H as (_ & _ & _ & _ & _ & _ & _ & -> & _).
  apply same_outcome_bind; [by apply inlet_col_exact|].
  clear t s1 H. intros t s1 H.
  pose proof H as (_ & _ & _ & _ & _ & _ & _ & _ & _ & -> & _).
  apply same_outcome_bind; [by apply inlet_col_exact|].
  clear t s1 H. intros t s1 H.
  pose proof H as (_ & _ & _ & _ & _ & _ & _ & -> & _).
  apply same_outcome_bind; [by apply inlet_col_exact|].
  clear t s1 H. intros t s1 H.
  pose proof H as (_ & _ & _ & _ & _ & _ & _ & _ & -> & _).
  apply same_outcome_bind; [by apply inlet_row_exact|].
  clear t s1 H. intros t s1 H.
  pose proof H as (_ & -> & _).
  apply same_outcome_bind.
  { apply same_outcome_for_each; [|done]. intros i t1 s2 H1.
    apply same_outcome_bind; [by apply march_col_exact|].
    intros t2 s3 H2.
    apply same_outcome_bind; [by apply march_col_exact|].
    intros t3 s4 H3. by apply march_col_exact. }
  clear t s1 H. intros t s1 H.
  pose proof H as (-> & _).
  apply same_outcome_for_each; [|done]. intros i t1 s2 H1.
  apply same_outcome_bind; [by apply march_row_exact|].
  intros t2 s3 H2. by apply march_row_exact.
Qed.

Lemma warm_roll_exact p axis dP t s :
  same_flow t (flow_of s) →
  Rounded.warm_roll exact p axis dP t = warm_roll p axis dP s.
Proof.
  intros (H1 & H2 & _ & _ & _ & _ & _ & _ & _ & _ & Hp).
  destruct (Hp p) as (_ & _ & _ & HP).
  cbn [Rounded.rows Rounded.columns Rounded.P_of flow_of] in *.
  unfold Rounded.warm_roll, warm_roll. by rewrite H1, H2, HP.
Qed.

Lemma update_pressures_warm_exact t s :
  same_flow t (flow_of s) →
  same_outcome (Rounded.update_pressures_warm exact t)
               (update_pressures_warm s).
Proof.
  intros H. unfold Rounded.update_pressures_warm, update_pressures_warm.
  cbv zeta. rewrite !(deltaP_exact t s) by done.
  pose proof H as (_ & _ & _ & _ & _ & _ & _ & Hr & Hu & _).
  cbn [Rounded.reactant_3 Rounded.utility_3 Rounded.set_P flow_of] in *.
  rewrite Hr, Hu.
  destruct (get_row 0 (deltaP utility1 s)) as [d1|]; [|done].
  cbn [mbind option_bind].
  rewrite (warm_roll_exact utility1 0 _ t s) by done.
  change (λ x : R, Rounded.sub exact (inlet_P (utility s)) x)
    with (λ x : R, inlet_P (utility s) - x).
  change (λ x : R, Rounded.sub exact (inlet_P (reactant s)) x)
    with (λ x : R, inlet_P (reactant s) - x).
  destruct (set_col 0 _ (warm_roll utility1 0 _ s)) as [P1|]; [|done].
  cbn [mbind option_bind].
  pose proof (same_flow_set t s utility1 P1 H) as H1.
  destruct (get_col 0 (deltaP reactant2 s)) as [d2|]; [|done].
  cbn [mbind option_bind].
  rewrite (warm_roll_exact reactant2 1 _ _ _ H1).
  change (reactant (set_arr f_P utility1 P1 s)) with (reactant s).
  destruct (set_row 0 _ (warm_roll reactant2 1 _ _)) as [P2|]; [|done].
  cbn [mbind option_bind].
  pose proof (same_flow_set _ _ reactant2 P2 H1) as H2.
  destruct (get_col 0 (deltaP fuel3 s)) as [d3|]; [|done].
  cbn [mbind option_bind].
  rewrite (warm_roll_exact fuel3 1 _ _ _ H2).
  change (reactant (set_arr f_P reactant2 P2 (set_arr f_P utility1 P1 s)))
    with (reactant s).
  destruct (set_row 0 _ (warm_roll fuel3 1 _ _)) as [P3|]; [|done].
  cbn [mbind option_bind].
  pose proof (same_flow_set _ _ fuel3 P3 H2) as H3.
  destruct (get_col 0 (deltaP reactant4 s)) as [d4|]; [|done].
  cbn [mbind option_bind].
  rewrite (warm_roll_exact reactant4 1 _ _ _ H3).
  change (reactant (set_arr f_P fuel3 P3
            (set_arr f_P reactant2 P2 (set_arr f_P utility1 P1 s))))
    with (reactant s).
  destruct (set_row 0 _ (warm_roll reactant4 1 _ _)) as [P4|]; [|done].
  cbn [mbind option_bind].
  pose proof (same_flow_set _ _ reactant4 P4 H3) as H4.
  destruct (get_row 0 (deltaP utility5 s)) as [d5|]; [|done].
  cbn [mbind option_bind].
  rewrite (warm_roll_exact utility5 0 _ _ _ H4).
  change (utility (set_arr f_P reactant4 P4 (set_arr f_P fuel3 P3
            (set_arr f_P reactant2 P2 (set_arr f_P utility1 P1 s)))))
    with (utility s).
  destruct (set_col 0 _ (warm_roll utility5 0 _ _)) as [P5|]; [|done].
  cbn [mbind option_bind].
  by apply same_flow_set.
Qed.

(** With nothing rounded, [Rounded.update_pressures] is the
    [update_pressures] of the model above: on the fields of an instance the
    two raise together, or return the same fields. *)
Lemma update_pressures_exact t s :
  same_flow t (flow_of s) →
  same_outcome (Rounded.update_pressures exact t) (update_pressures s).
Proof.
  intros H. unfold Rounded.update_pressures, update_pressures.
  rewrite (is_cold_exact t s H).
  destruct (is_cold s) as [[|]|]; cbn [mbind option_bind]; [| |done].
  - by apply update_pressures_cold_exact.
  - by apply update_pressures_warm_exact.
Qed.

(** With nothing rounded, [Rounded.init] builds the fields of [init]. *)
Lemma init_exact reactant0 utility0 fuel0 dimensions0 tables0 :
  same_flow
    (Rounded.init exact (inlet_P reactant0) (inlet_P utility0)
       (inlet_P fuel0)
       (reactant_diameter dimensions0) (utility_diameter dimensions0)
       (reactant_channels dimensions0) (utility_channels dimensions0)
       (wall_thickness dimensions0))
    (flow_of (init reactant0 utility0 fuel0 dimensions0 tables0)).
Proof.
  assert (H2 : INR 2 = 2) by (simpl; lra).
  assert (H1 : ∀ x, INR 1 * x = x) by (intros x; simpl; lra).
  unfold same_flow, Rounded.init, flow_of, init.
  cbn [Rounded.rows Rounded.columns Rounded.deltax Rounded.deltaz
       Rounded.reactant_dh Rounded.utility_dh Rounded.fuel_dh
       Rounded.reactant_3 Rounded.utility_3 Rounded.fuel_3
       Rounded.f_of Rounded.u_of Rounded.rho_of Rounded.P_of
       Rounded.of_nat Rounded.pi Rounded.add Rounded.mul Rounded.div
       Rounded.rounded exact].
  unfold rows, columns, deltax, deltaz, reactant_dh, utility_dh, fuel_dh,
    reactant_dh.
  cbn [dimensions reactant utility fuel arr].
  rewrite H2, !H1.
  repeat split; reflexivity.
Qed.
